(** * SquadJS UpdateManager: a shallow embedding of [update-manager.js]

    The file follows the source top-down in its definitions: the
    JavaScript values the code manipulates (strings, IEEE numbers, the
    plugin objects and the static fields of [UpdateManager]), then each
    static method under its own name, then the theorems.

    Conventions.
    - A JavaScript string is a [string]: a sequence of code units, here
      the code units below 256.
    - A JavaScript number is a binary64 value, [spec_float] with
      precision 53 and maximal exponent 1024.
    - [null] and [undefined] are [None].
    - Objects that the code shares and mutates (the plugin records) live
      in a heap and are passed around by reference.
    - An [async] method runs from its call to its return: a computation
      takes a state and gives an outcome and a state, and the callbacks
      handed to [setTimeout] and [setInterval] are kept in the state until
      they fire. *)

From Stdlib Require Import ZArith Ascii String List Bool Lia.
From Stdlib Require Import Floats.SpecFloat.
From stdpp Require Import base list strings.

Local Open Scope string_scope.
Local Open Scope Z_scope.

(* ===================================================================== *)
(** * JavaScript strings *)
(* ===================================================================== *)

Module JsString.

(** [s.replace(c, '')] for a one-character pattern [c]: only the first
    occurrence is removed, wherever it is. *)
Fixpoint replace_first_char (c : ascii) (s : string) : string :=
  match s with
  | EmptyString => EmptyString
  | String a r => if Ascii.eqb a c then r else String a (replace_first_char c r)
  end.

(** [s.includes(c)] for a one-character [c]. *)
Fixpoint includes_char (c : ascii) (s : string) : bool :=
  match s with
  | EmptyString => false
  | String a r => Ascii.eqb a c || includes_char c r
  end.

(** [s.replace(/c/g, d)]: every occurrence is replaced. *)
Fixpoint replace_all_char (c d : ascii) (s : string) : string :=
  match s with
  | EmptyString => EmptyString
  | String a r =>
      String (if Ascii.eqb a c then d else a) (replace_all_char c d r)
  end.

(** [s.split(c)]: the pieces between the occurrences of [c]; never the
    empty array. [cur] holds the piece being read, reversed. *)
Fixpoint split_from (c : ascii) (cur : list ascii) (s : string) : list string :=
  match s with
  | EmptyString => [string_of_list_ascii (rev cur)]
  | String a r =>
      if Ascii.eqb a c
      then string_of_list_ascii (rev cur) :: split_from c [] r
      else split_from c (a :: cur) r
  end.

Definition split (c : ascii) (s : string) : list string := split_from c [] s.

(** Truthiness of a possibly absent string: [!v] is [negb (truthy v)]. *)
Definition truthy (v : option string) : bool :=
  match v with
  | Some s => negb (String.eqb s "")
  | None => false
  end.

(** The value tested by [if (v)], when the test succeeds. *)
Definition if_truthy (v : option string) : option string :=
  match v with
  | Some s => if String.eqb s "" then None else Some s
  | None => None
  end.

(** [a || b] on possibly absent strings. *)
Definition or_else (a : option string) (b : string) : string :=
  match a with
  | Some s => if String.eqb s "" then b else s
  | None => b
  end.

End JsString.

(* ===================================================================== *)
(** * JavaScript numbers: [Number(string)], [||], [<] and [>] *)
(* ===================================================================== *)

Module JsNumber.

Definition number := spec_float.

Definition prec : Z := 53.
Definition emax : Z := 1024.

Definition pos_zero : number := S754_zero false.

(** WhiteSpace and LineTerminator code units below 256. *)
Definition is_white (c : ascii) : bool :=
  let n := N_of_ascii c in
  ((9 <=? n) && (n <=? 13) || (n =? 32) || (n =? 160))%N.

Fixpoint trimStart (s : string) : string :=
  match s with
  | EmptyString => EmptyString
  | String c r => if is_white c then trimStart r else s
  end.

Fixpoint trimEnd (s : string) : string :=
  match s with
  | EmptyString => EmptyString
  | String c r =>
      let r' := trimEnd r in
      if is_white c && String.eqb r' "" then EmptyString else String c r'
  end.

Definition trim (s : string) : string := trimEnd (trimStart s).

(** Value of a digit in bases up to sixteen. *)
Definition digit_of (c : ascii) : option Z :=
  let n := Z.of_N (N_of_ascii c) in
  if (48 <=? n) && (n <=? 57) then Some (n - 48)
  else if (97 <=? n) && (n <=? 102) then Some (n - 87)
  else if (65 <=? n) && (n <=? 70) then Some (n - 55)
  else None.

Definition digit_in (base : Z) (c : ascii) : option Z :=
  match digit_of c with
  | Some d => if d <? base then Some d else None
  | None => None
  end.

(** Reads the longest prefix of digits: its value on top of [acc], the
    number of digits read on top of [n], and what is left. *)
Fixpoint take_digits (base : Z) (s : string) (acc : Z) (n : nat)
  : Z * nat * string :=
  match s with
  | EmptyString => (acc, n, EmptyString)
  | String c r =>
      match digit_in base c with
      | Some d => take_digits base r (acc * base + d) (S n)
      | None => (acc, n, s)
      end
  end.

(** NonDecimalIntegerLiteral: [0x], [0o], [0b] and their digits. *)
Definition radix_of (c : ascii) : option Z :=
  if Ascii.eqb c "x" || Ascii.eqb c "X" then Some 16
  else if Ascii.eqb c "o" || Ascii.eqb c "O" then Some 8
  else if Ascii.eqb c "b" || Ascii.eqb c "B" then Some 2
  else None.

Definition NonDecimalIntegerLiteral (s : string) : option Z :=
  match s with
  | String "0" (String c r) =>
      match radix_of c with
      | Some base =>
          match take_digits base r 0 0 with
          | (v, S _, EmptyString) => Some v
          | _ => None
          end
      | None => None
      end
  | _ => None
  end.

(** StrUnsignedDecimalLiteral without [Infinity]: the digits as an
    integer [m] and a decimal exponent [x], the value being [m * 10^x]. *)
Definition DecimalLiteral (s : string) : option (Z * Z) :=
  let '(ip, ni, r1) := take_digits 10 s 0 0 in
  let '(m, nf, r2) :=
    match r1 with
    | String "." r => take_digits 10 r ip 0
    | _ => (ip, O, r1)
    end in
  if Nat.eqb (ni + nf) 0 then None
  else
    match r2 with
    | EmptyString => Some (m, - Z.of_nat nf)
    | String c r3 =>
        if Ascii.eqb c "e" || Ascii.eqb c "E" then
          let '(neg, r4) :=
            match r3 with
            | String "+" r => (false, r)
            | String "-" r => (true, r)
            | _ => (false, r3)
            end in
          match take_digits 10 r4 0 0 with
          | (x, S _, EmptyString) =>
              Some (m, (if neg then - x else x) - Z.of_nat nf)
          | _ => None
          end
        else None
    end.

(** Rounding to nearest, ties to even, of the quotient of two positive
    integers. *)
Definition round_ratio (sx : bool) (n d : Z) : number :=
  let e' := Z.min (fexp prec emax (Zdigits2 n - Zdigits2 d)) 0 in
  let '(q, r) := Z.div_eucl (Z.shiftl n (- e')) d in
  binary_round_aux prec emax sx q e' (new_location d r).

(** The binary64 value nearest to [m * 10^x], for [0 <= m]. *)
Definition round_decimal (sx : bool) (m x : Z) : number :=
  match m with
  | Zpos _ =>
      if 0 <=? x
      then binary_normalize prec emax (if sx then - (m * 10 ^ x) else m * 10 ^ x) 0 sx
      else round_ratio sx m (10 ^ (- x))
  | _ => S754_zero sx
  end.

Definition StrUnsignedDecimalLiteral (sx : bool) (s : string) : number :=
  if String.eqb s "Infinity" then S754_infinity sx
  else
    match DecimalLiteral s with
    | Some (m, x) => round_decimal sx m x
    | None => S754_nan
    end.

(** [Number(s)] on a string: StringToNumber. *)
Definition Number (s : string) : number :=
  let t := trim s in
  if String.eqb t "" then pos_zero
  else
    match NonDecimalIntegerLiteral t with
    | Some v => binary_normalize prec emax v 0 false
    | None =>
        match t with
        | String "+" r => StrUnsignedDecimalLiteral false r
        | String "-" r => StrUnsignedDecimalLiteral true r
        | _ => StrUnsignedDecimalLiteral false t
        end
    end.

(** [x || 0] where [x] may be [undefined]: [undefined], [NaN], [+0] and
    [-0] are falsy. *)
Definition or_zero (x : option number) : number :=
  match x with
  | Some (S754_finite s m e) => S754_finite s m e
  | Some (S754_infinity s) => S754_infinity s
  | _ => pos_zero
  end.

(** [a < b], [a > b] (which is [b < a]) and [a == b]. *)
Definition lt (a b : number) : bool := SFltb a b.
Definition gt (a b : number) : bool := SFltb b a.
Definition eq (a b : number) : bool := SFeqb a b.

Definition is_nan (a : number) : bool :=
  match a with S754_nan => true | _ => false end.

End JsNumber.

(* ===================================================================== *)
(** * [compareVersions] *)
(* ===================================================================== *)

(** [v.replace('v', '').split('.').map(Number)] *)
Definition versionParts (v : string) : list JsNumber.number :=
  map JsNumber.Number (JsString.split "." (JsString.replace_first_char "v" v)).

(** [parts[i] || 0] *)
Definition part (parts : list JsNumber.number) (i : nat) : JsNumber.number :=
  JsNumber.or_zero (parts !! i).

(** The [for] loop of [compareVersions], entered at index [i] with [n]
    iterations left before [i] reaches the larger length. *)
Fixpoint compareLoop (n : nat) (i : nat) (v1Parts v2Parts : list JsNumber.number) : Z :=
  match n with
  | O => 0
  | S n' =>
      let v1 := part v1Parts i in
      let v2 := part v2Parts i in
      if JsNumber.gt v1 v2 then 1
      else if JsNumber.lt v1 v2 then -1
      else compareLoop n' (S i) v1Parts v2Parts
  end.

Definition compareVersions (version1 version2 : option string) : Z :=
  match version1, version2 with
  | Some s1, Some s2 =>
      if negb (JsString.truthy version1) || negb (JsString.truthy version2) then 0
      else
        let v1Parts := versionParts s1 in
        let v2Parts := versionParts s2 in
        compareLoop (Nat.max (length v1Parts) (length v2Parts)) 0 v1Parts v2Parts
  | _, _ => 0
  end.


(* ===================================================================== *)
(** * The [Map] of the standard library: insertion-ordered, unique keys *)
(* ===================================================================== *)

Module JsMap.

Definition t (V : Type) : Type := list (string * V).

Fixpoint get {V} (k : string) (m : t V) : option V :=
  match m with
  | [] => None
  | (k', v) :: r => if String.eqb k' k then Some v else get k r
  end.

Definition has {V} (k : string) (m : t V) : bool :=
  match get k m with Some _ => true | None => false end.

(** [m.set(k, v)]: an existing key keeps its place, a new one goes last. *)
Fixpoint set {V} (k : string) (v : V) (m : t V) : t V :=
  match m with
  | [] => [(k, v)]
  | (k', v') :: r =>
      if String.eqb k' k then (k, v) :: r else (k', v') :: set k v r
  end.

Definition keys {V} (m : t V) : list string := map fst m.
Definition values {V} (m : t V) : list V := map snd m.
Definition size {V} (m : t V) : nat := length m.

End JsMap.

(* ===================================================================== *)
(** * Values of the program *)
(* ===================================================================== *)

(** A reference to a plugin object, and the value of [new Date()]. *)
Definition ref : Type := nat.
Definition Date : Type := nat.

(** A thrown [Error]: its [message], and [error.response.status] when the
    error comes from an HTTP response. *)
Record Exn : Type := mkExn {
  message : string;
  status : option nat
}.

Definition Error (msg : string) : Exn := mkExn msg None.

(** [error.response && error.response.status === code] *)
Definition is_status (code : nat) (error : Exn) : bool :=
  match status error with
  | Some n => Nat.eqb n code
  | None => false
  end.

(** [response.data] of an HTTP response: a text body, or the parsed JSON
    of a release with its [tag_name]. *)
Inductive Data : Type :=
  | Text (body : string)
  | Release (tag_name : option string).

(** The [log] field of a plugin record: [console.log] or the function the
    plugin passed at registration. *)
Inductive Logger : Type :=
  | ConsoleLog
  | CustomLogger (id : nat).

Module Plugin.

Record t : Type := mk {
  name : string;
  version : string;
  owner : string;
  repo : string;
  filePath : string;
  log : Logger;
  needsUpdate : bool;
  latestVersion : option string;
  lastChecked : option Date;
  lastUpdated : option Date;
  error : option string;
  disabled : option bool   (* absent until disable/enable is called *)
}.

Definition set_version (v : string) (p : t) : t :=
  mk (name p) v (owner p) (repo p) (filePath p) (log p) (needsUpdate p)
     (latestVersion p) (lastChecked p) (lastUpdated p) (error p) (disabled p).
Definition set_needsUpdate (v : bool) (p : t) : t :=
  mk (name p) (version p) (owner p) (repo p) (filePath p) (log p) v
     (latestVersion p) (lastChecked p) (lastUpdated p) (error p) (disabled p).
Definition set_latestVersion (v : option string) (p : t) : t :=
  mk (name p) (version p) (owner p) (repo p) (filePath p) (log p) (needsUpdate p)
     v (lastChecked p) (lastUpdated p) (error p) (disabled p).
Definition set_lastChecked (v : option Date) (p : t) : t :=
  mk (name p) (version p) (owner p) (repo p) (filePath p) (log p) (needsUpdate p)
     (latestVersion p) v (lastUpdated p) (error p) (disabled p).
Definition set_lastUpdated (v : option Date) (p : t) : t :=
  mk (name p) (version p) (owner p) (repo p) (filePath p) (log p) (needsUpdate p)
     (latestVersion p) (lastChecked p) v (error p) (disabled p).
Definition set_error (v : option string) (p : t) : t :=
  mk (name p) (version p) (owner p) (repo p) (filePath p) (log p) (needsUpdate p)
     (latestVersion p) (lastChecked p) (lastUpdated p) v (disabled p).
Definition set_disabled (v : option bool) (p : t) : t :=
  mk (name p) (version p) (owner p) (repo p) (filePath p) (log p) (needsUpdate p)
     (latestVersion p) (lastChecked p) (lastUpdated p) (error p) v.

End Plugin.

(** The object [performPluginUpdate] returns. *)
Module UpdateResult.

Record t : Type := mk {
  updated : bool;
  newVersion : option string;
  oldVersion : option string;
  backupPath : option string;
  error : option string
}.

Definition failure (msg : string) : t := mk false None None None (Some msg).

End UpdateResult.

(** [UpdateManager.updateSummary] *)
Module Summary.

Record t : Type := mk {
  totalChecked : nat;
  totalUpdated : nat;
  pluginsChecked : list string;
  pluginsUpdated : list string;
  lastCheck : option Date
}.

Definition empty : t := mk 0 0 [] [] None.

End Summary.

(** [UpdateManager.config]; the durations are in milliseconds. *)
Module Config.

Record t : Type := mk {
  enabled : bool;
  checkInterval : N;
  initialDelay : N;
  batchDelay : N;
  staggerDelay : N;
  maxRetries : N;
  retryDelay : N
}.

Definition default : t :=
  mk true (30 * 60 * 1000)%N 15000%N 5000%N (5 * 60 * 1000)%N 3%N 1000%N.

(** The argument of [configure]: the settings it carries. *)
Record settings : Type := mkSettings {
  s_enabled : option bool;
  s_checkInterval : option N;
  s_initialDelay : option N;
  s_batchDelay : option N;
  s_staggerDelay : option N;
  s_maxRetries : option N;
  s_retryDelay : option N
}.

(** A field of [{ ...config, ...settings }]. *)
Definition spread {A} (old : A) (given : option A) : A :=
  match given with
  | Some v => v
  | None => old
  end.

Definition merge (c : t) (s : settings) : t :=
  mk (spread (enabled c) (s_enabled s))
     (spread (checkInterval c) (s_checkInterval s))
     (spread (initialDelay c) (s_initialDelay s))
     (spread (batchDelay c) (s_batchDelay s))
     (spread (staggerDelay c) (s_staggerDelay s))
     (spread (maxRetries c) (s_maxRetries s))
     (spread (retryDelay c) (s_retryDelay s)).

End Config.

(** The object [getUpdateStatus] returns, and its entry for one plugin. *)
Module Status.

Record entry : Type := mkEntry {
  name : string;
  currentVersion : string;
  latestVersion : option string;
  needsUpdate : bool;
  lastChecked : option Date;
  error : option string
}.

Record t : Type := mk {
  totalPlugins : nat;
  lastCheck : option Date;
  updatesAvailable : nat;
  plugins : list entry
}.

Definition entry_of (p : Plugin.t) : entry :=
  mkEntry (Plugin.name p) (Plugin.version p) (Plugin.latestVersion p)
    (Plugin.needsUpdate p) (Plugin.lastChecked p) (Plugin.error p).

End Status.

(** One call [discordNotifier.onPluginUpdated(name, old, new, backup)]. *)
Record Notification : Type := mkNotification {
  n_name : string;
  n_oldVersion : option string;
  n_newVersion : string;
  n_backupPath : option string
}.

(** The notifier is an object of the host: all the program sees of a call
    is whether it returns or throws. *)
Definition Notifier : Type := Notification -> option Exn.

(** One run of [performPluginUpdate]: the plugin, the target version and
    the object returned. *)
Record Transaction : Type := mkTransaction {
  tx_plugin : ref;
  tx_target : string;
  tx_result : UpdateResult.t
}.

(** What the timers run. *)
Inductive Task : Type :=
  | PerformInitialUpdateCheck
  | CheckAllUpdates
  | CheckRepositoryUpdates (repoKey : string) (plugins : list ref).

Record Timer : Type := mkTimer {
  repeating : bool;    (* [setInterval] rather than [setTimeout] *)
  delay : N;
  task : Task;
  cleared : bool
}.

(** The lines written by [UpdateManager.log], one constructor per
    template of the source, with the values it interpolates. *)
Inductive LogMsg : Type :=
  | MsgRegistered (pluginName currentVersion : string)
  | MsgInitializing
  | MsgInitialized
  | MsgNotifierConfigured
  | MsgConfigured
  | MsgInitialCheck
  | MsgPeriodicScheduled (checkInterval : N)
  | MsgCheckingUpdates (size : nat)
  | MsgNoLatestForRepo (repoKey : string)
  | MsgRepoError (repoKey msg : string)
  | MsgUpdateAvailable (pluginName version latestVersion : string)
  | MsgUpdated (pluginName latestVersion : string)
  | MsgUpdateNotApplied (pluginName err : string)
  | MsgNewerThanLatest (pluginName version latestVersion : string)
  | MsgUpToDate (pluginName version : string)
  | MsgCheckError (pluginName msg : string)
  | MsgUpdateFailed (pluginName msg : string)
  | MsgBackupFailed (pluginName msg : string)
  | MsgRepoNotFound (owner repo : string)
  | MsgFetchError (msg : string)
  | MsgCycleCompleted
  | MsgSummaryChecked (totalChecked : nat) (pluginsChecked : list string)
  | MsgSummaryUpdated (totalUpdated : nat) (pluginsUpdated : list string)
  | MsgPleaseRestart
  | MsgAllUpToDate
  | MsgManualCheckAll
  | MsgPluginNotFound (pluginName : string)
  | MsgDisabled (pluginName : string)
  | MsgEnabled (pluginName : string)
  | MsgStopped.

(** The host the program runs on: the disk behind [fs], the network
    behind [axios] and the [path] functions. Nothing is assumed of them;
    [axios_get n url] is the outcome of the request for [url] made after
    [n] earlier requests. *)
Record Host : Type := mkHost {
  Disk : Type;
  existsSync : Disk -> string -> bool;
  mkdirSync : Disk -> string -> Exn + Disk;
  readFileSync : Disk -> string -> Exn + string;
  writeFileSync : Disk -> string -> Data -> Exn + Disk;
  axios_get : nat -> string -> Exn + Data;
  cwd : string;
  path_join : list string -> string;
  path_basename : string -> string;
  path_relative : string -> string -> string
}.

(* ===================================================================== *)
(** * The state: the static fields of [UpdateManager] and the host *)
(* ===================================================================== *)

Section UpdateManager.

Variable host : Host.

Record World : Type := mkWorld {
  (* the plugin objects *)
  heap : list Plugin.t;
  (* static fields *)
  registeredPlugins : JsMap.t ref;
  updateSummary : Summary.t;
  updateInterval : option nat;
  isInitialized : bool;
  discordNotifier : option Notifier;
  config : Config.t;
  (* the host *)
  disk : Disk host;
  timers : list Timer;
  clock : Date;
  (* what the program did, oldest first *)
  console : list LogMsg;
  requests : list string;
  notified : list Notification;
  transactions : list Transaction
}.

Definition with_heap (v : list Plugin.t) (w : World) : World :=
  mkWorld v (registeredPlugins w) (updateSummary w) (updateInterval w)
    (isInitialized w) (discordNotifier w) (config w) (disk w) (timers w)
    (clock w) (console w) (requests w) (notified w) (transactions w).
Definition with_registeredPlugins (v : JsMap.t ref) (w : World) : World :=
  mkWorld (heap w) v (updateSummary w) (updateInterval w)
    (isInitialized w) (discordNotifier w) (config w) (disk w) (timers w)
    (clock w) (console w) (requests w) (notified w) (transactions w).
Definition with_updateSummary (v : Summary.t) (w : World) : World :=
  mkWorld (heap w) (registeredPlugins w) v (updateInterval w)
    (isInitialized w) (discordNotifier w) (config w) (disk w) (timers w)
    (clock w) (console w) (requests w) (notified w) (transactions w).
Definition with_updateInterval (v : option nat) (w : World) : World :=
  mkWorld (heap w) (registeredPlugins w) (updateSummary w) v
    (isInitialized w) (discordNotifier w) (config w) (disk w) (timers w)
    (clock w) (console w) (requests w) (notified w) (transactions w).
Definition with_isInitialized (v : bool) (w : World) : World :=
  mkWorld (heap w) (registeredPlugins w) (updateSummary w) (updateInterval w)
    v (discordNotifier w) (config w) (disk w) (timers w)
    (clock w) (console w) (requests w) (notified w) (transactions w).
Definition with_discordNotifier (v : option Notifier) (w : World) : World :=
  mkWorld (heap w) (registeredPlugins w) (updateSummary w) (updateInterval w)
    (isInitialized w) v (config w) (disk w) (timers w)
    (clock w) (console w) (requests w) (notified w) (transactions w).
Definition with_config (v : Config.t) (w : World) : World :=
  mkWorld (heap w) (registeredPlugins w) (updateSummary w) (updateInterval w)
    (isInitialized w) (discordNotifier w) v (disk w) (timers w)
    (clock w) (console w) (requests w) (notified w) (transactions w).
Definition with_disk (v : Disk host) (w : World) : World :=
  mkWorld (heap w) (registeredPlugins w) (updateSummary w) (updateInterval w)
    (isInitialized w) (discordNotifier w) (config w) v (timers w)
    (clock w) (console w) (requests w) (notified w) (transactions w).
Definition with_timers (v : list Timer) (w : World) : World :=
  mkWorld (heap w) (registeredPlugins w) (updateSummary w) (updateInterval w)
    (isInitialized w) (discordNotifier w) (config w) (disk w) v
    (clock w) (console w) (requests w) (notified w) (transactions w).
Definition with_clock (v : Date) (w : World) : World :=
  mkWorld (heap w) (registeredPlugins w) (updateSummary w) (updateInterval w)
    (isInitialized w) (discordNotifier w) (config w) (disk w) (timers w)
    v (console w) (requests w) (notified w) (transactions w).
Definition with_console (v : list LogMsg) (w : World) : World :=
  mkWorld (heap w) (registeredPlugins w) (updateSummary w) (updateInterval w)
    (isInitialized w) (discordNotifier w) (config w) (disk w) (timers w)
    (clock w) v (requests w) (notified w) (transactions w).
Definition with_requests (v : list string) (w : World) : World :=
  mkWorld (heap w) (registeredPlugins w) (updateSummary w) (updateInterval w)
    (isInitialized w) (discordNotifier w) (config w) (disk w) (timers w)
    (clock w) (console w) v (notified w) (transactions w).
Definition with_notified (v : list Notification) (w : World) : World :=
  mkWorld (heap w) (registeredPlugins w) (updateSummary w) (updateInterval w)
    (isInitialized w) (discordNotifier w) (config w) (disk w) (timers w)
    (clock w) (console w) (requests w) v (transactions w).
Definition with_transactions (v : list Transaction) (w : World) : World :=
  mkWorld (heap w) (registeredPlugins w) (updateSummary w) (updateInterval w)
    (isInitialized w) (discordNotifier w) (config w) (disk w) (timers w)
    (clock w) (console w) (requests w) (notified w) v.

(** ** Computations: a state that survives a [throw] *)

Definition M (A : Type) : Type := World -> (Exn + A) * World.

#[local] Instance M_ret : MRet M := fun A (x : A) w => (inr x, w).

#[local] Instance M_bind : MBind M :=
  fun A B (f : A -> M B) (m : M A) w =>
    match m w with
    | (inr x, w') => f x w'
    | (inl e, w') => (inl e, w')
    end.

Definition throw {A} (e : Exn) : M A := fun w => (inl e, w).

(** [try { body } catch (error) { handler }] *)
Definition try_catch {A} (body : M A) (handler : Exn -> M A) : M A :=
  fun w =>
    match body w with
    | (inl e, w') => handler e w'
    | (inr x, w') => (inr x, w')
    end.

Definition gets {A} (f : World -> A) : M A := fun w => (inr (f w), w).
Definition modify (f : World -> World) : M unit := fun w => (inr tt, f w).

(** [for (const x of xs) { await body(x) }] *)
Fixpoint for_of {A} (xs : list A) (body : A -> M unit) : M unit :=
  match xs with
  | [] => mret tt
  | x :: r => body x ;; for_of r body
  end.

(** ** Primitive effects *)

(** [UpdateManager.log(message)] *)
Definition log (msg : LogMsg) : M unit :=
  modify (fun w => with_console (console w ++ [msg]) w).

(** [new Date()]: the clock is read and moves on. *)
Definition newDate : M Date :=
  fun w => (inr (clock w), with_clock (S (clock w)) w).

(** Reading and writing the fields of a plugin object. A reference of
    the program always points to an object; one that does not behaves
    as [undefined] does. *)
Definition TypeError_undefined : Exn :=
  Error "Cannot read properties of undefined".

Definition read (plugin : ref) : M Plugin.t :=
  fun w =>
    match heap w !! plugin with
    | Some p => (inr p, w)
    | None => (inl TypeError_undefined, w)
    end.

Definition assign (plugin : ref) (f : Plugin.t -> Plugin.t) : M unit :=
  fun w =>
    match heap w !! plugin with
    | Some p => (inr tt, with_heap (<[plugin := f p]> (heap w)) w)
    | None => (inl TypeError_undefined, w)
    end.

(** A new object literal. *)
Definition alloc (p : Plugin.t) : M ref :=
  fun w => (inr (length (heap w)), with_heap (heap w ++ [p]) w).

(** [await axios.get(url)] *)
Definition axios_get_ (url : string) : M Data :=
  fun w =>
    let w' := with_requests (requests w ++ [url]) w in
    match axios_get host (length (requests w)) url with
    | inl e => (inl e, w')
    | inr d => (inr d, w')
    end.

Definition fs_existsSync (path : string) : M bool :=
  gets (fun w => existsSync host (disk w) path).

Definition fs_mkdirSync (path : string) : M unit :=
  fun w =>
    match mkdirSync host (disk w) path with
    | inl e => (inl e, w)
    | inr d => (inr tt, with_disk d w)
    end.

Definition fs_readFileSync (path : string) : M string :=
  fun w =>
    match readFileSync host (disk w) path with
    | inl e => (inl e, w)
    | inr s => (inr s, w)
    end.

Definition fs_writeFileSync (path : string) (data : Data) : M unit :=
  fun w =>
    match writeFileSync host (disk w) path data with
    | inl e => (inl e, w)
    | inr d => (inr tt, with_disk d w)
    end.

(** [setTimeout] and [setInterval] return the handle of the new timer;
    [clearInterval] cancels it. *)
Definition setTimer (rep : bool) (t : Task) (ms : N) : M nat :=
  fun w => (inr (length (timers w)),
            with_timers (timers w ++ [mkTimer rep ms t false]) w).
Definition setTimeout (t : Task) (ms : N) : M unit := setTimer false t ms ;; mret tt.
Definition setInterval (t : Task) (ms : N) : M nat := setTimer true t ms.
Definition clearInterval (id : nat) : M unit :=
  modify (fun w =>
    with_timers
      (alter (fun t => mkTimer (repeating t) (delay t) (task t) true) id (timers w)) w).

(* =================================================================== *)
(** ** The static methods of [UpdateManager] *)
(* =================================================================== *)

(** *** The cycle summary *)

(** [array.includes(name)] *)
Definition includes (l : list string) (x : string) : bool :=
  existsb (String.eqb x) l.

Definition addChecked (pluginName : string) (s : Summary.t) : Summary.t :=
  if negb (includes (Summary.pluginsChecked s) pluginName)
  then Summary.mk (S (Summary.totalChecked s)) (Summary.totalUpdated s)
         (Summary.pluginsChecked s ++ [pluginName]) (Summary.pluginsUpdated s)
         (Summary.lastCheck s)
  else s.

Definition addUpdated (pluginName : string) (s : Summary.t) : Summary.t :=
  if negb (includes (Summary.pluginsUpdated s) pluginName)
  then Summary.mk (Summary.totalChecked s) (S (Summary.totalUpdated s))
         (Summary.pluginsChecked s) (Summary.pluginsUpdated s ++ [pluginName])
         (Summary.lastCheck s)
  else s.

Definition addPluginChecked (pluginName : string) : M unit :=
  modify (fun w => with_updateSummary (addChecked pluginName (updateSummary w)) w).

(** The second parameter, [newVersion], is not used by the source. *)
Definition addPluginUpdated (pluginName : string) (newVersion : string) : M unit :=
  modify (fun w => with_updateSummary (addUpdated pluginName (updateSummary w)) w).

Definition resetUpdateSummary : M unit :=
  modify (with_updateSummary Summary.empty).

Definition printUpdateSummary : M unit :=
  s ← gets updateSummary;
  if Nat.eqb (Summary.totalChecked s) 0 then mret tt
  else
    log MsgCycleCompleted ;;
    log (MsgSummaryChecked (Summary.totalChecked s) (Summary.pluginsChecked s)) ;;
    (if Nat.ltb 0 (Summary.totalUpdated s)
     then log (MsgSummaryUpdated (Summary.totalUpdated s) (Summary.pluginsUpdated s)) ;;
          log MsgPleaseRestart
     else log MsgAllUpToDate) ;;
    resetUpdateSummary.

(** *** The remote version *)

Definition releaseUrl (owner repo : string) : string :=
  "https://api.github.com/repos/" ++ owner ++ "/" ++ repo ++ "/releases/latest".

(** [response.data && response.data.tag_name], when truthy. *)
Definition tagOf (data : Data) : option string :=
  match data with
  | Release (Some tag) => if String.eqb tag "" then None else Some tag
  | _ => None
  end.

Definition getLatestVersion (owner repo : string) : M (option string) :=
  try_catch
    (response ← axios_get_ (releaseUrl owner repo);
     mret (tagOf response))
    (fun error =>
       (if is_status 404 error
        then log (MsgRepoNotFound owner repo)
        else log (MsgFetchError (message error))) ;;
       mret None).

(** *** The update transaction *)

Definition getRelativePath (filePath : string) : string :=
  let projectRoot := cwd host in
  let relativePath := path_relative host projectRoot filePath in
  JsString.replace_all_char "\" "/" relativePath.

Definition createBackupTry (plugin : ref) : M (option string) :=
  p ← read plugin;
  let baseDir := cwd host in
  let backupDir := path_join host [baseDir; "BACKUP-Plugins"; Plugin.name p] in
  ex ← fs_existsSync backupDir;
  (if negb ex then fs_mkdirSync backupDir else mret tt) ;;
  let backupPath :=
    path_join host [backupDir; path_basename host (Plugin.filePath p) ++ ".backup"] in
  currentCode ← fs_readFileSync (Plugin.filePath p);
  fs_writeFileSync backupPath (Text currentCode) ;;
  mret (Some backupPath).

Definition createBackup (plugin : ref) : M (option string) :=
  try_catch (createBackupTry plugin)
    (fun error =>
       p ← read plugin;
       log (MsgBackupFailed (Plugin.name p) (message error)) ;;
       mret None).

Definition artifactUrl (p : Plugin.t) (latestVersion : string) : string :=
  "https://raw.githubusercontent.com/" ++ Plugin.owner p ++ "/" ++ Plugin.repo p
    ++ "/" ++ latestVersion ++ "/" ++ getRelativePath (Plugin.filePath p).

(** [verifyCode !== updatedCode] *)
Definition differs (verifyCode : string) (updatedCode : Data) : bool :=
  match updatedCode with
  | Text body => negb (String.eqb verifyCode body)
  | Release _ => true
  end.

Definition verificationError : Exn :=
  Error "File verification failed - update was not written correctly".

Definition performPluginUpdateTry (plugin : ref) (latestVersion : string)
  : M UpdateResult.t :=
  p ← read plugin;
  response ← axios_get_ (artifactUrl p latestVersion);
  let updatedCode := response in
  backupPath ← createBackup plugin;
  p ← read plugin;
  fs_writeFileSync (Plugin.filePath p) updatedCode ;;
  verifyCode ← fs_readFileSync (Plugin.filePath p);
  if differs verifyCode updatedCode then throw verificationError
  else
    p ← read plugin;
    mret (UpdateResult.mk true (Some latestVersion) (Some (Plugin.version p))
            backupPath None).

(** The last line records the transaction; it has no counterpart in the
    source and changes nothing the program reads. *)
Definition performPluginUpdate (plugin : ref) (latestVersion : string)
  : M UpdateResult.t :=
  result ← try_catch (performPluginUpdateTry plugin latestVersion)
             (fun error =>
                p ← read plugin;
                log (MsgUpdateFailed (Plugin.name p) (message error)) ;;
                mret (UpdateResult.failure (message error)));
  modify (fun w =>
    with_transactions (transactions w ++ [mkTransaction plugin latestVersion result]) w) ;;
  mret result.

(** *** The check of one plugin *)

(** [this.discordNotifier.onPluginUpdated(...)], when a notifier is set. *)
Definition notify (n : Notification) : M unit :=
  fun w =>
    match discordNotifier w with
    | Some notifier =>
        let w' := with_notified (notified w ++ [n]) w in
        match notifier n with
        | Some e => (inl e, w')
        | None => (inr tt, w')
        end
    | None => (inr tt, w)
    end.

Definition checkPluginUpdateTry (plugin : ref) (latestVersion : option string)
  : M unit :=
  latestVersion ←
    (if negb (JsString.truthy latestVersion)
     then p ← read plugin; getLatestVersion (Plugin.owner p) (Plugin.repo p)
     else mret latestVersion);
  match JsString.if_truthy latestVersion with
  | None =>
      assign plugin (Plugin.set_error (Some "Could not determine latest version")) ;;
      d ← newDate;
      assign plugin (Plugin.set_lastChecked (Some d))
  | Some latest =>
      assign plugin (Plugin.set_latestVersion (Some latest)) ;;
      d ← newDate;
      assign plugin (Plugin.set_lastChecked (Some d)) ;;
      assign plugin (Plugin.set_error None) ;;
      p ← read plugin;
      let comparison := compareVersions (Some (Plugin.version p)) (Some latest) in
      (if comparison <? 0 then
         assign plugin (Plugin.set_needsUpdate true) ;;
         log (MsgUpdateAvailable (Plugin.name p) (Plugin.version p) latest) ;;
         updateResult ← performPluginUpdate plugin latest;
         if UpdateResult.updated updateResult then
           d ← newDate;
           assign plugin (Plugin.set_lastUpdated (Some d)) ;;
           assign plugin (Plugin.set_version latest) ;;
           assign plugin (Plugin.set_needsUpdate false) ;;
           p ← read plugin;
           notify (mkNotification (Plugin.name p)
                     (UpdateResult.oldVersion updateResult) latest
                     (UpdateResult.backupPath updateResult)) ;;
           log (MsgUpdated (Plugin.name p) latest)
         else
           let err := JsString.or_else (UpdateResult.error updateResult) "Update failed" in
           assign plugin (Plugin.set_error (Some err)) ;;
           p ← read plugin;
           log (MsgUpdateNotApplied (Plugin.name p) err)
       else if 0 <? comparison then
         log (MsgNewerThanLatest (Plugin.name p) (Plugin.version p) latest)
       else
         log (MsgUpToDate (Plugin.name p) (Plugin.version p))) ;;
      p ← read plugin;
      addPluginChecked (Plugin.name p)
  end.

Definition checkPluginUpdate (plugin : ref) (latestVersion : option string) : M unit :=
  try_catch (checkPluginUpdateTry plugin latestVersion)
    (fun error =>
       assign plugin (Plugin.set_error (Some (message error))) ;;
       d ← newDate;
       assign plugin (Plugin.set_lastChecked (Some d)) ;;
       p ← read plugin;
       log (MsgCheckError (Plugin.name p) (message error))).

(** *** The check of one repository *)

(** A destructured array element inside a template literal. *)
Definition interpolate (x : option string) : string := default "undefined" x.

Definition checkRepositoryUpdates (repoKey : string) (plugins : list ref) : M unit :=
  try_catch
    (let parts := JsString.split "/" repoKey in
     let owner := interpolate (parts !! 0%nat) in
     let repo := interpolate (parts !! 1%nat) in
     latestVersion ← getLatestVersion owner repo;
     if negb (JsString.truthy latestVersion)
     then log (MsgNoLatestForRepo repoKey)
     else for_of plugins (fun plugin => checkPluginUpdate plugin latestVersion))
    (fun error => log (MsgRepoError repoKey (message error))).

(** *** The cycle *)

(** The body of the grouping loop: [repos.get(repoKey).push(plugin)],
    after [repos.set(repoKey, [])] for a new key. *)
Definition groupStep (h : list Plugin.t) (repos : JsMap.t (list ref))
    (entry : string * ref) : Exn + JsMap.t (list ref) :=
  match h !! entry.2 with
  | Some p =>
      let repoKey := Plugin.owner p ++ "/" ++ Plugin.repo p in
      let members := default [] (JsMap.get repoKey repos) in
      inr (JsMap.set repoKey (members ++ [entry.2])%list repos)
  | None => inl TypeError_undefined
  end.

Fixpoint groupByRepo (h : list Plugin.t) (repos : JsMap.t (list ref))
    (entries : JsMap.t ref) : Exn + JsMap.t (list ref) :=
  match entries with
  | [] => inr repos
  | entry :: rest =>
      match groupStep h repos entry with
      | inr repos' => groupByRepo h repos' rest
      | inl e => inl e
      end
  end.

(** The scheduling loop: one timeout per repository, [staggerDelay]
    apart. *)
Fixpoint scheduleRepos (repos : JsMap.t (list ref)) (delay : N) : M unit :=
  match repos with
  | [] => mret tt
  | (repoKey, plugins) :: rest =>
      setTimeout (CheckRepositoryUpdates repoKey plugins) delay ;;
      stagger ← gets (fun w => Config.staggerDelay (config w));
      scheduleRepos rest (delay + stagger)%N
  end.

Definition checkAllUpdates : M unit :=
  cfg ← gets config;
  registered ← gets registeredPlugins;
  if negb (Config.enabled cfg) || Nat.eqb (JsMap.size registered) 0 then mret tt
  else
    log (MsgCheckingUpdates (JsMap.size registered)) ;;
    h ← gets heap;
    match groupByRepo h [] registered with
    | inl e => throw e
    | inr repos =>
        scheduleRepos repos 0%N ;;
        d ← newDate;
        modify (fun w =>
          let s := updateSummary w in
          with_updateSummary
            (Summary.mk (Summary.totalChecked s) (Summary.totalUpdated s)
               (Summary.pluginsChecked s) (Summary.pluginsUpdated s) (Some d)) w)
    end.

Definition performInitialUpdateCheck : M unit :=
  log MsgInitialCheck ;;
  checkAllUpdates.

Definition startPeriodicChecks : M unit :=
  handle ← gets updateInterval;
  (match handle with
   | Some id => clearInterval id
   | None => mret tt
   end) ;;
  interval ← gets (fun w => Config.checkInterval (config w));
  id ← setInterval CheckAllUpdates interval;
  modify (with_updateInterval (Some id)) ;;
  log (MsgPeriodicScheduled interval).

Definition initialize : M unit :=
  initialized ← gets isInitialized;
  if (initialized : bool) then mret tt
  else
    log MsgInitializing ;;
    initialDelay ← gets (fun w => Config.initialDelay (config w));
    setTimeout PerformInitialUpdateCheck initialDelay ;;
    startPeriodicChecks ;;
    modify (with_isInitialized true) ;;
    log MsgInitialized.

(** *** The registry *)

Definition registerPlugin (pluginName currentVersion owner repo pluginFilePath : string)
    (logFunction : option Logger) : M ref :=
  let pluginInfo :=
    Plugin.mk pluginName currentVersion owner repo pluginFilePath
      (default ConsoleLog logFunction) false None None None None None in
  plugin ← alloc pluginInfo;
  modify (fun w =>
    with_registeredPlugins (JsMap.set pluginName plugin (registeredPlugins w)) w) ;;
  log (MsgRegistered pluginName currentVersion) ;;
  initialized ← gets isInitialized;
  (if negb initialized then initialize else mret tt) ;;
  mret plugin.

Definition getPluginInfo (pluginName : string) : M (option ref) :=
  gets (fun w => JsMap.get pluginName (registeredPlugins w)).

Definition getAllPlugins : M (list string) :=
  gets (fun w => JsMap.keys (registeredPlugins w)).

Definition setDiscordNotifier (notifier : Notifier) : M unit :=
  modify (with_discordNotifier (Some notifier)) ;;
  log MsgNotifierConfigured.

Definition configure (settings : Config.settings) : M unit :=
  modify (fun w => with_config (Config.merge (config w) settings) w) ;;
  log MsgConfigured.

(** [Array.from(this.registeredPlugins.values())], each object read. *)
Fixpoint readAll (plugins : list ref) : M (list Plugin.t) :=
  match plugins with
  | [] => mret []
  | plugin :: rest =>
      p ← read plugin;
      ps ← readAll rest;
      mret (p :: ps)
  end.

Definition getUpdateStatus : M Status.t :=
  registered ← gets registeredPlugins;
  plugins ← readAll (JsMap.values registered);
  summary ← gets updateSummary;
  mret (Status.mk (length plugins) (Summary.lastCheck summary)
          (length (List.filter Plugin.needsUpdate plugins))
          (map Status.entry_of plugins)).

Definition checkPluginUpdates (pluginName : string) : M unit :=
  plugin ← gets (fun w => JsMap.get pluginName (registeredPlugins w));
  match plugin with
  | None => log (MsgPluginNotFound pluginName)
  | Some plugin => checkPluginUpdate plugin None
  end.

Definition checkAllPlugins : M unit :=
  log MsgManualCheckAll ;;
  checkAllUpdates.

Definition disablePluginUpdates (pluginName : string) : M unit :=
  plugin ← gets (fun w => JsMap.get pluginName (registeredPlugins w));
  match plugin with
  | Some plugin =>
      assign plugin (Plugin.set_disabled (Some true)) ;;
      log (MsgDisabled pluginName)
  | None => mret tt
  end.

Definition enablePluginUpdates (pluginName : string) : M unit :=
  plugin ← gets (fun w => JsMap.get pluginName (registeredPlugins w));
  match plugin with
  | Some plugin =>
      assign plugin (Plugin.set_disabled (Some false)) ;;
      log (MsgEnabled pluginName)
  | None => mret tt
  end.

Definition stop : M unit :=
  handle ← gets updateInterval;
  (match handle with
   | Some id => clearInterval id ;; modify (with_updateInterval None)
   | None => mret tt
   end) ;;
  modify (with_isInitialized false) ;;
  log MsgStopped.

Definition restart : M unit :=
  stop ;;
  initialize.

(** *** The timers *)

Definition runTask (t : Task) : M unit :=
  match t with
  | PerformInitialUpdateCheck => performInitialUpdateCheck
  | CheckAllUpdates => checkAllUpdates
  | CheckRepositoryUpdates repoKey plugins => checkRepositoryUpdates repoKey plugins
  end.

(** The timer with handle [id] fires: its callback runs, and a timeout
    does not fire again. *)
Definition fire (id : nat) : M unit :=
  ts ← gets timers;
  match (ts : list Timer) !! id with
  | Some t =>
      if cleared t then mret tt
      else
        (if repeating t then mret tt else clearInterval id) ;;
        runTask (task t)
  | None => mret tt
  end.

(** The state when the module is loaded. *)
Definition initial (d : Disk host) (now : Date) : World :=
  mkWorld [] [] Summary.empty None false None Config.default d [] now [] [] [] [].

End UpdateManager.

Arguments heap {host} _.
Arguments registeredPlugins {host} _.
Arguments updateSummary {host} _.
Arguments updateInterval {host} _.
Arguments isInitialized {host} _.
Arguments discordNotifier {host} _.
Arguments config {host} _.
Arguments disk {host} _.
Arguments timers {host} _.
Arguments clock {host} _.
Arguments console {host} _.
Arguments requests {host} _.
Arguments notified {host} _.
Arguments transactions {host} _.

(* ===================================================================== *)
(** * The steps of a transaction *)
(* ===================================================================== *)

Section Steps.

Variable host : Host.

(** The fetch, the write or the verification of a transaction fails
    with the error [e]: the request throws; or it answers, the backup
    is made or given up, and the write throws; or the write succeeds and
    reading the file back throws; or the file read back is not what was
    fetched. *)
Inductive step_fails (plugin : ref) (latestVersion : string) (w : World host)
  : Exn -> Prop :=
  | fetch_fails p e w1 :
      heap w !! plugin = Some p ->
      axios_get_ host (artifactUrl host p latestVersion) w = (inl e, w1) ->
      step_fails plugin latestVersion w e
  | write_fails p data w1 b w2 e w3 :
      heap w !! plugin = Some p ->
      axios_get_ host (artifactUrl host p latestVersion) w = (inr data, w1) ->
      createBackup host plugin w1 = (inr b, w2) ->
      fs_writeFileSync host (Plugin.filePath p) data w2 = (inl e, w3) ->
      step_fails plugin latestVersion w e
  | read_back_fails p data w1 b w2 w3 e w4 :
      heap w !! plugin = Some p ->
      axios_get_ host (artifactUrl host p latestVersion) w = (inr data, w1) ->
      createBackup host plugin w1 = (inr b, w2) ->
      fs_writeFileSync host (Plugin.filePath p) data w2 = (inr tt, w3) ->
      fs_readFileSync host (Plugin.filePath p) w3 = (inl e, w4) ->
      step_fails plugin latestVersion w e
  | verification_fails p data w1 b w2 w3 verifyCode w4 :
      heap w !! plugin = Some p ->
      axios_get_ host (artifactUrl host p latestVersion) w = (inr data, w1) ->
      createBackup host plugin w1 = (inr b, w2) ->
      fs_writeFileSync host (Plugin.filePath p) data w2 = (inr tt, w3) ->
      fs_readFileSync host (Plugin.filePath p) w3 = (inr verifyCode, w4) ->
      differs verifyCode data = true ->
      step_fails plugin latestVersion w verificationError.

(** The backup step of a transaction fails: the artifact is fetched,
    and the body of [createBackup] throws. *)
Definition backup_fails (plugin : ref) (latestVersion : string) (w : World host)
  : Prop :=
  match heap w !! plugin with
  | Some p =>
      match axios_get_ host (artifactUrl host p latestVersion) w with
      | (inr data, w1) =>
          match createBackupTry host plugin w1 with
          | (inl e, w2) => True
          | (inr b, w2) => False
          end
      | (inl e, w1) => False
      end
  | None => False
  end.

End Steps.

(* ===================================================================== *)
(** * Two hosts to run the program on *)
(* ===================================================================== *)

Module Demo.

(** A disk in memory: the files with their content, and the
    directories. *)
Record MemDisk : Type := mkDisk {
  files : JsMap.t string;
  dirs : list string
}.

Definition ENOENT : Exn := Error "ENOENT: no such file or directory".
Definition ERR_INVALID_ARG_TYPE : Exn := Error "The data argument must be of type string".

Definition mem_exists (d : MemDisk) (path : string) : bool :=
  JsMap.has path (files d) || existsb (String.eqb path) (dirs d).

Definition mem_mkdir (d : MemDisk) (path : string) : Exn + MemDisk :=
  inr (mkDisk (files d) (dirs d ++ [path])).

Definition mem_read (d : MemDisk) (path : string) : Exn + string :=
  match JsMap.get path (files d) with
  | Some body => inr body
  | None => inl ENOENT
  end.

Definition mem_write (d : MemDisk) (path : string) (data : Data) : Exn + MemDisk :=
  match data with
  | Text body => inr (mkDisk (JsMap.set path body (files d)) (dirs d))
  | Release _ => inl ERR_INVALID_ARG_TYPE
  end.

(** A disk that is full: a write succeeds and leaves an empty file. *)
Definition full_write (d : MemDisk) (path : string) (data : Data) : Exn + MemDisk :=
  match data with
  | Text _ => inr (mkDisk (JsMap.set path "" (files d)) (dirs d))
  | Release _ => inl ERR_INVALID_ARG_TYPE
  end.

Definition join (parts : list string) : string :=
  match parts with
  | [] => "."
  | x :: r => fold_left (fun acc y => acc ++ "/" ++ y) r x
  end.

Definition basename (path : string) : string :=
  List.last (JsString.split "/" path) "".

(** [path.relative(from, to)] for a file below [from]. *)
Definition relative (from to : string) : string :=
  if String.prefix (from ++ "/") to
  then String.substring (S (String.length from)) (String.length to) to
  else to.

Definition host (network : nat -> string -> Exn + Data) : Host :=
  mkHost MemDisk mem_exists mem_mkdir mem_read mem_write network
    "/srv/squadjs" join basename relative.

Definition full_disk_host (network : nat -> string -> Exn + Data) : Host :=
  mkHost MemDisk mem_exists mem_mkdir mem_read full_write network
    "/srv/squadjs" join basename relative.

(** A network on which the repository [owner/repo] has the release
    [v1.5.0], and every raw file is the text [new code]. *)
Definition network (n : nat) (url : string) : Exn + Data :=
  if String.eqb url "https://api.github.com/repos/owner/repo/releases/latest"
  then inr (Release (Some "v1.5.0"))
  else if String.prefix "https://raw.githubusercontent.com/" url
  then inr (Text "new code")
  else inl (mkExn "Request failed with status code 404" (Some 404%nat)).

(** A network that answers 404 to everything. *)
Definition offline (n : nat) (url : string) : Exn + Data :=
  inl (mkExn "Request failed with status code 404" (Some 404%nat)).

Definition pluginPath : string := "/srv/squadjs/plugins/a.js".

Definition disk0 : MemDisk := mkDisk [(pluginPath, "old code")] [].

(** A disk on which the file of the plugin is missing. *)
Definition empty_disk : MemDisk := mkDisk [] [].

(** The state after [registerPlugin("A", "v1.0.0", "owner", "repo",
    pluginPath)] on the host [h], started with the disk [d] at time 100. *)
Definition registered (h : Host) (d : Disk h) : World h :=
  snd (registerPlugin h "A" "v1.0.0" "owner" "repo" pluginPath None
         (initial h d 100%nat)).

(** The same after [disablePluginUpdates("A")]. *)
Definition registered_disabled (h : Host) (d : Disk h) : World h :=
  snd (disablePluginUpdates h "A" (registered h d)).

End Demo.

(** The claimed version comparison, written from the specification: one
    leading character that is not a digit is dropped, the rest is split
    at the dots, a piece that is not a plain run of digits counts as 0,
    and the first pair of pieces that differ decides. *)
Module Claimed.

Definition is_digit (c : ascii) : bool :=
  let n := N_of_ascii c in ((48 <=? n) && (n <=? 57))%N.

Definition strip_prefix (s : string) : string :=
  match s with
  | String c r => if is_digit c then s else r
  | EmptyString => EmptyString
  end.

Definition segment (s : string) : Z :=
  match JsNumber.take_digits 10 s 0 0 with
  | (v, S _, EmptyString) => v
  | _ => 0
  end.

(** [n] pairs of pieces are left to compare; a missing piece is 0. *)
Fixpoint compare_segments (n : nat) (a b : list Z) : Z :=
  match n with
  | O => 0
  | S n' =>
      let x := hd 0 a in
      let y := hd 0 b in
      if y <? x then 1
      else if x <? y then -1
      else compare_segments n' (tl a) (tl b)
  end.

Definition segments (s : string) : list Z :=
  map segment (JsString.split "." (strip_prefix s)).

Definition compare (a b : option string) : Z :=
  match a, b with
  | Some s1, Some s2 =>
      if String.eqb s1 "" || String.eqb s2 "" then 0
      else
        let a := segments s1 in
        let b := segments s2 in
        compare_segments (Nat.max (length a) (length b)) a b
  | _, _ => 0
  end.

End Claimed.

(** A cycle summary is well formed when no name is listed twice and the
    counters are the lengths of the lists. *)
Definition summary_wf (s : Summary.t) : Prop :=
  NoDup (Summary.pluginsChecked s) /\ NoDup (Summary.pluginsUpdated s) /\
  Summary.totalChecked s = length (Summary.pluginsChecked s) /\
  Summary.totalUpdated s = length (Summary.pluginsUpdated s).

(** The number of times a name is listed. *)
Definition occurrences (x : string) (l : list string) : nat :=
  length (filter (fun y => y = x) l).

(** Every entry of the registry has its own name, and points to a plugin
    object that carries that name. *)
Definition registry_ok (h : list Plugin.t) (registered : JsMap.t ref) : Prop :=
  NoDup (JsMap.keys registered) /\
  forall (name : string) (plugin : ref),
    In (name, plugin) registered ->
    exists p, h !! plugin = Some p /\ Plugin.name p = name.

Definition registry_wf {host : Host} (w : World host) : Prop :=
  registry_ok (heap w) (registeredPlugins w).

(** A periodic timer that has not been cancelled. *)
Definition live_interval (t : Timer) : bool := repeating t && negb (cleared t).

(** The handle kept in [updateInterval] is the handle of a periodic
    timer, and no other periodic timer is live. *)
Definition one_interval (handle : option nat) (ts : list Timer) : Prop :=
  (forall id : nat, handle = Some id ->
     exists t, ts !! id = Some t /\ repeating t = true) /\
  (forall (i : nat) (t : Timer), ts !! i = Some t ->
     live_interval t = true -> handle = Some i).

Definition timers_wf {host : Host} (w : World host) : Prop :=
  one_interval (updateInterval w) (timers w).

(** What [clearInterval] does to a timer. *)
Definition cancel (t : Timer) : Timer := mkTimer (repeating t) (delay t) (task t) true.

(** The plugins a timer is to check are plugin objects. *)
Definition tasks_ok (h : list Plugin.t) (ts : list Timer) : Prop :=
  forall (i : nat) (t : Timer) (repoKey : string) (plugins : list ref),
    ts !! i = Some t ->
    task t = CheckRepositoryUpdates repoKey plugins ->
    Forall (fun r : ref => is_Some (h !! r)) plugins.

Definition state_wf {host : Host} (w : World host) : Prop :=
  registry_wf w /\ timers_wf w /\ summary_wf (updateSummary w) /\
  tasks_ok (heap w) (timers w).

(** The timeouts of a cycle: one per repository, in the order of the
    groups, the first at [delay] and each next one [stagger] later. *)
Fixpoint staggered (stagger : N) (repos : JsMap.t (list ref)) (delay : N) : list Timer :=
  match repos with
  | [] => []
  | (repoKey, plugins) :: rest =>
      mkTimer false delay (CheckRepositoryUpdates repoKey plugins) false
        :: staggered stagger rest (delay + stagger)%N
  end.

(** A request for the latest release of a repository. *)
Definition is_release_request (url : string) : bool :=
  String.prefix "https://api.github.com/repos/" url.

(** ** The program at work *)

(** What happens to the module from outside: a client calls one of its
    static methods, or a timer it has armed fires. The methods that take
    a plugin object ([checkRepositoryUpdates], [checkPluginUpdate],
    [performPluginUpdate], [createBackup]) are reached through the
    others; [compareVersions] and [getRelativePath] neither read nor
    write the state. *)
Inductive Call : Type :=
  | CallRegisterPlugin (pluginName currentVersion owner repo pluginFilePath : string)
      (logFunction : option Logger)
  | CallInitialize
  | CallSetDiscordNotifier (notifier : Notifier)
  | CallConfigure (settings : Config.settings)
  | CallGetUpdateStatus
  | CallPerformInitialUpdateCheck
  | CallStartPeriodicChecks
  | CallCheckAllUpdates
  | CallAddPluginChecked (pluginName : string)
  | CallAddPluginUpdated (pluginName newVersion : string)
  | CallResetUpdateSummary
  | CallPrintUpdateSummary
  | CallLog (message : LogMsg)
  | CallCheckPluginUpdates (pluginName : string)
  | CallCheckAllPlugins
  | CallGetPluginInfo (pluginName : string)
  | CallGetAllPlugins
  | CallDisablePluginUpdates (pluginName : string)
  | CallEnablePluginUpdates (pluginName : string)
  | CallStop
  | CallRestart
  | CallGetLatestVersion (owner repo : string)
  | TimerFires (id : nat).

(** A call whose result is not looked at. *)
Definition ignore {host : Host} {A : Type} (m : M host A) : M host unit :=
  fun w =>
    match m w with
    | (inr _, w') => (inr tt, w')
    | (inl e, w') => (inl e, w')
    end.

Definition call {host : Host} (c : Call) : M host unit :=
  match c with
  | CallRegisterPlugin pluginName currentVersion owner repo pluginFilePath logFunction =>
      ignore (registerPlugin host pluginName currentVersion owner repo pluginFilePath
                logFunction)
  | CallInitialize => initialize host
  | CallSetDiscordNotifier notifier => setDiscordNotifier host notifier
  | CallConfigure settings => configure host settings
  | CallGetUpdateStatus => ignore (getUpdateStatus host)
  | CallPerformInitialUpdateCheck => performInitialUpdateCheck host
  | CallStartPeriodicChecks => startPeriodicChecks host
  | CallCheckAllUpdates => checkAllUpdates host
  | CallAddPluginChecked pluginName => addPluginChecked host pluginName
  | CallAddPluginUpdated pluginName newVersion => addPluginUpdated host pluginName newVersion
  | CallResetUpdateSummary => resetUpdateSummary host
  | CallPrintUpdateSummary => printUpdateSummary host
  | CallLog message => log host message
  | CallCheckPluginUpdates pluginName => checkPluginUpdates host pluginName
  | CallCheckAllPlugins => checkAllPlugins host
  | CallGetPluginInfo pluginName => ignore (getPluginInfo host pluginName)
  | CallGetAllPlugins => ignore (getAllPlugins host)
  | CallDisablePluginUpdates pluginName => disablePluginUpdates host pluginName
  | CallEnablePluginUpdates pluginName => enablePluginUpdates host pluginName
  | CallStop => stop host
  | CallRestart => restart host
  | CallGetLatestVersion owner repo => ignore (getLatestVersion host owner repo)
  | TimerFires id => fire host id
  end.

(** The state after the calls of [calls], each run to its end before
    the next one starts. *)
Definition run {host : Host} (calls : list Call) (w : World host) : World host :=
  fold_left (fun w c => snd (call c w)) calls w.

(* ===================================================================== *)
(** * Proof automation *)
(* ===================================================================== *)

Arguments compareVersions : simpl never.

Arguments getLatestVersion : simpl never.
Arguments performPluginUpdate : simpl never.
Arguments createBackup : simpl never.

(** Brings a world built by successive updates to the form of a record
    with its fields. *)
Ltac world_norm :=
  cbv beta iota delta
    [with_heap with_registeredPlugins with_updateSummary with_updateInterval
     with_isInitialized with_discordNotifier with_config with_disk with_timers
     with_clock with_console with_requests with_notified with_transactions
     heap registeredPlugins updateSummary updateInterval isInitialized
     discordNotifier config disk timers clock console requests notified
     transactions].

(** Unfolds the plumbing of a computation and runs it as far as it
    goes. *)
Ltac js_run :=
  repeat (progress
    (unfold mbind, M_bind, mret, M_ret, gets, modify, log, alloc, setTimeout,
       setInterval, setTimer, clearInterval, throw, try_catch, newDate;
     simpl)).

(** The same on a world given by its fields, which it keeps in that
    form. *)
Ltac js_flat :=
  repeat (progress
    (unfold mbind, M_bind, mret, M_ret, gets, modify, log, alloc, setTimeout,
       setInterval, setTimer, clearInterval, throw, try_catch, newDate;
     simpl; world_norm)).

Ltac js_prim :=
  unfold read, assign, axios_get_, fs_existsSync, fs_mkdirSync, fs_readFileSync,
    fs_writeFileSync, notify, addPluginChecked.

(** Runs a computation on a world whose plugin lookup [H] is known. *)
Ltac js_exec H :=
  repeat (js_run; js_prim; simpl; rewrite ?H; simpl).

(** The same on a heap where the object assigned to is known: [Hq] gives
    the lookups after an assignment. *)
Ltac js_heap H Hq :=
  repeat (js_flat; js_prim; simpl; world_norm;
          rewrite ?list_insert_insert_eq; rewrite ?H; rewrite ?Hq; simpl).

(** Two worlds built from the same world are equal when their fields
    are. *)
Ltac world_eq := world_norm; reflexivity.

(** Case analysis on the answers of the host, one at a time. *)
Ltac host_case :=
  match goal with
  | |- context [axios_get ?h ?n ?u] => destruct (axios_get h n u) eqn:?
  | |- context [existsSync ?h ?d ?p] => destruct (existsSync h d p) eqn:?
  | |- context [mkdirSync ?h ?d ?p] => destruct (mkdirSync h d p) eqn:?
  | |- context [readFileSync ?h ?d ?p] => destruct (readFileSync h d p) eqn:?
  | |- context [writeFileSync ?h ?d ?p ?x] => destruct (writeFileSync h d p x) eqn:?
  | |- context [differs ?a ?b] => destruct (differs a b) eqn:?
  end.

(* ===================================================================== *)
(** * Numbers: the order on the values that are not NaN *)
(* ===================================================================== *)

Section NumberFacts.

Import JsNumber.

Lemma SFcompare_antisym (a b : number) :
  SFcompare b a = option_map CompOpp (SFcompare a b).
Proof.
  destruct a as [sa|sa| |sa ma ea], b as [sb|sb| |sb mb eb]; simpl;
    try reflexivity; try (destruct sa; reflexivity);
    try (destruct sb; reflexivity);
    try (destruct sa, sb; reflexivity).
  assert (Hm : Pos.compare_cont Eq mb ma = CompOpp (Pos.compare_cont Eq ma mb))
    by (symmetry; apply (Pos.compare_cont_antisym ma mb Eq)).
  destruct sa, sb; simpl; try reflexivity;
    rewrite (Z.compare_antisym ea eb), Hm;
    destruct (ea ?= eb)%Z; simpl; try reflexivity;
    destruct (Pos.compare_cont Eq ma mb); reflexivity.
Qed.

Lemma or_zero_not_nan (x : option number) : is_nan (or_zero x) = false.
Proof. destruct x as [[ | | | ]|]; reflexivity. Qed.

Lemma compare_defined (a b : number) :
  is_nan a = false -> is_nan b = false -> exists c, SFcompare a b = Some c.
Proof.
  destruct a, b; simpl; intros Ha Hb; try discriminate; eauto.
Qed.

(** Equal values are neither above nor below each other. *)
Lemma eq_not_gt_lt (a b : number) :
  eq a b = true -> gt a b = false /\ lt a b = false.
Proof.
  unfold eq, gt, lt, SFeqb, SFltb. rewrite (SFcompare_antisym a b).
  destruct (SFcompare a b) as [[ | | ]|]; simpl; intros H;
    try discriminate; split; reflexivity.
Qed.

(** Values that are not equal and not NaN are above or below. *)
Lemma neq_gt_or_lt (a b : number) :
  is_nan a = false -> is_nan b = false -> eq a b = false ->
  (gt a b = true) \/ (gt a b = false /\ lt a b = true).
Proof.
  intros Ha Hb. destruct (compare_defined a b Ha Hb) as [c Hc].
  unfold eq, gt, lt, SFeqb, SFltb. rewrite (SFcompare_antisym a b), Hc.
  destruct c; simpl; intros H; try discriminate; auto.
Qed.

End NumberFacts.

(* ===================================================================== *)
(** * [compareVersions] *)
(* ===================================================================== *)

Section CompareVersions.

Implicit Types p q : list JsNumber.number.

Lemma part_missing p (i : nat) : (length p <= i)%nat -> part p i = JsNumber.pos_zero.
Proof.
  intros H. unfold part. rewrite (lookup_ge_None_2 p i H). reflexivity.
Qed.

Lemma part_not_nan p (i : nat) : JsNumber.is_nan (part p i) = false.
Proof. apply or_zero_not_nan. Qed.

(** The loop runs to its end when every pair it meets is equal. *)
Lemma compareLoop_all_equal (n : nat) : forall (i : nat) p q,
  (forall k : nat, (k < n)%nat -> JsNumber.eq (part p (i + k)) (part q (i + k)) = true) ->
  compareLoop n i p q = 0.
Proof.
  induction n as [|n IH]; intros i p q Heq; simpl.
  - reflexivity.
  - pose proof (Heq 0%nat (Nat.lt_0_succ n)) as H0.
    rewrite Nat.add_0_r in H0.
    destruct (eq_not_gt_lt _ _ H0) as [Hgt Hlt].
    rewrite Hgt, Hlt. apply IH. intros k Hk.
    replace (S i + k)%nat with (i + S k)%nat by lia.
    apply Heq. lia.
Qed.

(** The loop stops at the first pair that differs. *)
Lemma compareLoop_first_difference (n : nat) : forall (i k : nat) p q,
  (k < n)%nat ->
  (forall j : nat, (j < k)%nat -> JsNumber.eq (part p (i + j)) (part q (i + j)) = true) ->
  JsNumber.eq (part p (i + k)) (part q (i + k)) = false ->
  compareLoop n i p q = if JsNumber.gt (part p (i + k)) (part q (i + k)) then 1 else -1.
Proof.
  induction n as [|n IH]; intros i k p q Hk Heq Hne; [lia|].
  simpl. destruct k as [|k].
  - rewrite Nat.add_0_r in *.
    destruct (neq_gt_or_lt _ _ (part_not_nan p i) (part_not_nan q i) Hne)
      as [Hgt|[Hgt Hlt]].
    + rewrite Hgt. reflexivity.
    + rewrite Hgt, Hlt. reflexivity.
  - pose proof (Heq 0%nat (Nat.lt_0_succ k)) as H0.
    rewrite Nat.add_0_r in H0.
    destruct (eq_not_gt_lt _ _ H0) as [Hgt Hlt].
    rewrite Hgt, Hlt.
    replace (i + S k)%nat with (S i + k)%nat in * by lia.
    apply IH; [lia| |exact Hne].
    intros j Hj. replace (S i + j)%nat with (i + S j)%nat by lia.
    apply Heq. lia.
Qed.

(** Only the first [v] goes, and nothing goes when there is none. *)
Lemma replace_first_char_first (c : ascii) (pre post : string) :
  JsString.includes_char c pre = false ->
  JsString.replace_first_char c (pre ++ String c post) = pre ++ post.
Proof.
  induction pre as [|x pre IH]; simpl; intros H.
  - rewrite Ascii.eqb_refl. reflexivity.
  - apply orb_false_iff in H as [Hx Hpre]. rewrite Hx, (IH Hpre). reflexivity.
Qed.

Lemma replace_first_char_absent (c : ascii) (s : string) :
  JsString.includes_char c s = false -> JsString.replace_first_char c s = s.
Proof.
  induction s as [|x s IH]; simpl; intros H; [reflexivity|].
  apply orb_false_iff in H as [Hx Hs]. rewrite Hx, (IH Hs). reflexivity.
Qed.

Lemma compareVersions_loop (a b : string) :
  a <> "" -> b <> "" ->
  compareVersions (Some a) (Some b) =
  compareLoop (Nat.max (length (versionParts a)) (length (versionParts b))) 0
    (versionParts a) (versionParts b).
Proof.
  intros Ha Hb. unfold compareVersions, JsString.truthy.
  destruct (String.eqb_spec a ""); [contradiction|].
  destruct (String.eqb_spec b ""); [contradiction|].
  reflexivity.
Qed.

End CompareVersions.
(* ===================================================================== *)
(** * The version comparator *)
(* ===================================================================== *)

(** C4, as claimed, does not hold: on ["x2.0"] against ["1.0"] the claimed
    algorithm drops the leading [x] and answers 1, while [compareVersions]
    only ever removes a letter [v], reads [x2] as 0 and answers -1. *)
Lemma compareVersions_not_claimed_algorithm :
  ~ (forall a b : option string, compareVersions a b = Claimed.compare a b).
Proof.
  intros H. specialize (H (Some "x2.0") (Some "1.0")).
  vm_compute in H. discriminate H.
Qed.

(** C4, amended: for two non-empty version strings, [compareVersions]
    removes the first letter [v] of each string (wherever it stands, and
    no other character), splits at the dots and converts each piece with
    [Number]; a piece that is missing or is not a number counts as 0; the
    pieces are compared pairwise up to the longer length: when all pairs
    are equal the result is 0, and otherwise the first pair that differs
    decides, 1 when the left piece is greater and -1 when it is smaller. *)
Theorem compareVersions_first_difference (a b : string) :
  a <> "" -> b <> "" ->
  let p := versionParts a in
  let q := versionParts b in
  let n := Nat.max (length p) (length q) in
  (forall pre post : string,
     JsString.includes_char "v" pre = false -> a = pre ++ String "v" post ->
     p = map JsNumber.Number (JsString.split "." (pre ++ post))) /\
  (JsString.includes_char "v" a = false ->
     p = map JsNumber.Number (JsString.split "." a)) /\
  (forall i : nat, (length p <= i)%nat -> part p i = JsNumber.pos_zero) /\
  (forall i : nat, p !! i = Some S754_nan -> part p i = JsNumber.pos_zero) /\
  ((forall i : nat, (i < n)%nat -> JsNumber.eq (part p i) (part q i) = true) ->
   compareVersions (Some a) (Some b) = 0) /\
  (forall i : nat, (i < n)%nat ->
     (forall j : nat, (j < i)%nat -> JsNumber.eq (part p j) (part q j) = true) ->
     JsNumber.eq (part p i) (part q i) = false ->
     compareVersions (Some a) (Some b) =
       if JsNumber.gt (part p i) (part q i) then 1 else -1).
Proof.
  intros Ha Hb p q n. repeat split.
  - intros pre post Hpre ->. subst p. unfold versionParts.
    rewrite (replace_first_char_first _ _ _ Hpre). reflexivity.
  - intros Hv. subst p. unfold versionParts.
    rewrite (replace_first_char_absent _ _ Hv). reflexivity.
  - apply part_missing.
  - intros i Hi. subst p. unfold part, JsNumber.number in *. rewrite Hi. reflexivity.
  - intros Heq. rewrite (compareVersions_loop a b Ha Hb).
    apply compareLoop_all_equal. exact Heq.
  - intros i Hi Heq Hne. rewrite (compareVersions_loop a b Ha Hb).
    apply (compareLoop_first_difference _ 0%nat i); assumption.
Qed.

(** The amended C4 at work: the [v] inside ["1.v5"] is removed, so that
    the second pieces, 5 and 4, decide; and ["v2.0"] has the pieces of
    ["2.0.0"], the missing third one counting as 0. *)
Lemma compareVersions_first_difference_witness :
  compareVersions (Some "1.v5") (Some "1.4") = 1 /\
  compareVersions (Some "v2.0") (Some "2.0.0") = 0.
Proof.
  split.
  - destruct (compareVersions_first_difference "1.v5" "1.4")
      as (_ & _ & _ & _ & _ & H);
      [discriminate | discriminate |].
    apply (H 1%nat).
    + vm_compute. lia.
    + intros j Hj. assert (j = 0%nat) as -> by lia. vm_compute. reflexivity.
    + vm_compute. reflexivity.
  - destruct (compareVersions_first_difference "v2.0" "2.0.0")
      as (_ & _ & _ & _ & H & _);
      [discriminate | discriminate |].
    apply H. intros i Hi.
    assert (i = 0 \/ i = 1 \/ i = 2)%nat as [->|[->| ->]]
      by (vm_compute in Hi; lia);
      vm_compute; reflexivity.
Defined.

(** C5: the three vectors of the specification, and 0 as soon as one
    side is empty or absent. *)
Theorem compareVersions_vectors :
  compareVersions (Some "v1.2.0") (Some "v1.3.0") = -1 /\
  compareVersions (Some "1.10.0") (Some "1.9.9") = 1 /\
  compareVersions (Some "v2.0") (Some "2.0.0") = 0 /\
  compareVersions (Some "") (Some "v1.0.0") = 0 /\
  forall v : option string,
    compareVersions None v = 0 /\ compareVersions v None = 0 /\
    compareVersions (Some "") v = 0 /\ compareVersions v (Some "") = 0.
Proof.
  split; [vm_compute; reflexivity|].
  split; [vm_compute; reflexivity|].
  split; [vm_compute; reflexivity|].
  split; [vm_compute; reflexivity|].
  intros v. unfold compareVersions. simpl.
  destruct v as [s|]; repeat split; try reflexivity.
  rewrite orb_true_r. reflexivity.
Qed.

(* ===================================================================== *)
(** * The registry *)
(* ===================================================================== *)

Section MapFacts.

Context {V : Type}.
Implicit Types (m : JsMap.t V) (k : string) (v : V).

Lemma get_set_eq k v m : JsMap.get k (JsMap.set k v m) = Some v.
Proof.
  induction m as [|[k' v'] m IH]; simpl.
  - rewrite String.eqb_refl. reflexivity.
  - destruct (String.eqb k' k) eqn:E; simpl.
    + rewrite String.eqb_refl. reflexivity.
    + rewrite E. exact IH.
Qed.

Lemma keys_set_has k v m :
  JsMap.has k m = true -> JsMap.keys (JsMap.set k v m) = JsMap.keys m.
Proof.
  unfold JsMap.has. induction m as [|[k' v'] m IH]; simpl; [discriminate|].
  destruct (String.eqb_spec k' k) as [->|Hne]; simpl; intros H.
  - reflexivity.
  - f_equal. apply IH. exact H.
Qed.

Lemma keys_set_In k v m (x : string) :
  In x (JsMap.keys (JsMap.set k v m)) -> x = k \/ In x (JsMap.keys m).
Proof.
  induction m as [|[k' v'] m IH]; simpl.
  - intros [<-|[]]. left. reflexivity.
  - destruct (String.eqb_spec k' k) as [->|Hne]; simpl.
    + intros [<-|H]; auto.
    + intros [<-|H]; auto. destruct (IH H); auto.
Qed.

Lemma keys_set_NoDup k v m :
  NoDup (JsMap.keys m) -> NoDup (JsMap.keys (JsMap.set k v m)).
Proof.
  induction m as [|[k' v'] m IH]; simpl; intros H.
  - apply NoDup_singleton.
  - apply NoDup_cons in H as [Hk' Hm].
    destruct (String.eqb_spec k' k) as [->|Hne]; simpl.
    + apply NoDup_cons. split; assumption.
    + apply NoDup_cons. split; [|apply IH; exact Hm].
      rewrite list_elem_of_In. intros Hin.
      apply keys_set_In in Hin as [->|Hin]; [congruence|].
      apply Hk'. rewrite list_elem_of_In. exact Hin.
Qed.

End MapFacts.

(** C9: [registerPlugin] followed by [getPluginInfo] gives the record
    just built, with [needsUpdate] false and [lastChecked] null (and the
    other fields as passed); registering never fails; under a name that is
    already registered the entry is replaced, the names of the registry
    staying as they were, and names that were unique stay unique. *)
Theorem register_then_get (host : Host) (w : World host)
    (pluginName currentVersion owner repo pluginFilePath : string)
    (logFunction : option Logger) :
  exists (plugin : ref) (w1 : World host),
    registerPlugin host pluginName currentVersion owner repo pluginFilePath logFunction w
      = (inr plugin, w1) /\
    getPluginInfo host pluginName w1 = (inr (Some plugin), w1) /\
    (exists p, heap w1 !! plugin = Some p /\
       Plugin.needsUpdate p = false /\ Plugin.lastChecked p = None /\
       p = Plugin.mk pluginName currentVersion owner repo pluginFilePath
             (default ConsoleLog logFunction) false None None None None None) /\
    (JsMap.has pluginName (registeredPlugins w) = true ->
       JsMap.keys (registeredPlugins w1) = JsMap.keys (registeredPlugins w)) /\
    (NoDup (JsMap.keys (registeredPlugins w)) ->
       NoDup (JsMap.keys (registeredPlugins w1))).
Proof.
  unfold registerPlugin, initialize, startPeriodicChecks, getPluginInfo.
  js_run.
  destruct (isInitialized w) eqn:Hinit; js_run; rewrite ?Hinit; js_run;
    [|destruct (updateInterval w); js_run];
    (eexists; eexists; split; [reflexivity|]); simpl;
    (split; [rewrite get_set_eq; reflexivity|]);
    (split; [eexists; split; [apply list_lookup_middle; reflexivity|];
             repeat split|]);
    (split; [apply keys_set_has | apply keys_set_NoDup]).
Qed.

(** C9 at work: a second registration of ["A"], with another version. *)
Lemma register_then_get_witness :
  let h := Demo.host Demo.network in
  let w := snd (registerPlugin h "A" "v1.0.0" "owner" "repo" Demo.pluginPath None
                  (initial h Demo.disk0 0%nat)) in
  exists (plugin : ref) (w1 : World h),
    registerPlugin h "A" "v2.0.0" "owner" "repo" Demo.pluginPath None w = (inr plugin, w1) /\
    getPluginInfo h "A" w1 = (inr (Some plugin), w1) /\
    JsMap.keys (registeredPlugins w1) = ["A"] /\
    NoDup (JsMap.keys (registeredPlugins w1)).
Proof.
  intros h w.
  destruct (register_then_get h w "A" "v2.0.0" "owner" "repo" Demo.pluginPath None)
    as (plugin & w1 & Hreg & Hget & _ & Hkeys & Hnodup).
  exists plugin, w1. repeat split; try assumption.
  - rewrite Hkeys; [reflexivity|]. vm_compute. reflexivity.
  - apply Hnodup. vm_compute. apply NoDup_singleton.
Defined.

(* ===================================================================== *)
(** * The cycle summary *)
(* ===================================================================== *)

Section SummaryFacts.

Lemma includes_true (l : list string) (x : string) :
  includes l x = true <-> x ∈ l.
Proof.
  unfold includes. rewrite existsb_exists, list_elem_of_In. split.
  - intros (y & Hy & E). apply String.eqb_eq in E. subst. exact Hy.
  - intros H. exists x. split; [exact H|apply String.eqb_refl].
Qed.

Lemma includes_false (l : list string) (x : string) :
  includes l x = false <-> x ∉ l.
Proof.
  rewrite <- includes_true. destruct (includes l x); split; intros H.
  - discriminate H.
  - exfalso. apply H. reflexivity.
  - intros H'. discriminate H'.
  - reflexivity.
Qed.

Lemma includes_snoc (l : list string) (x : string) : includes (l ++ [x]) x = true.
Proof. apply includes_true, elem_of_app. right. apply list_elem_of_singleton. reflexivity. Qed.

Lemma occurrences_absent (l : list string) (x : string) :
  x ∉ l -> occurrences x l = 0%nat.
Proof.
  unfold occurrences. induction l as [|y l IH]; intros H; [reflexivity|].
  rewrite filter_cons. destruct (decide (y = x)) as [->|Hne].
  - exfalso. apply H. left.
  - apply IH. intros Hin. apply H. right. exact Hin.
Qed.

Lemma occurrences_NoDup (l : list string) (x : string) :
  NoDup l -> x ∈ l -> occurrences x l = 1%nat.
Proof.
  unfold occurrences. induction 1 as [|y l Hy Hl IH]; intros Hin.
  - inversion Hin.
  - rewrite filter_cons. destruct (decide (y = x)) as [->|Hne]; simpl.
    + f_equal. apply (occurrences_absent l x Hy).
    + apply IH. inversion Hin; subst; [congruence|assumption].
Qed.

Lemma NoDup_snoc (l : list string) (x : string) : NoDup l -> x ∉ l -> NoDup (l ++ [x]).
Proof.
  intros Hl Hx. apply NoDup_app. repeat split; [exact Hl| |apply NoDup_singleton].
  intros y Hy Hy'. apply list_elem_of_singleton in Hy'. subst. contradiction.
Qed.

Lemma addChecked_idempotent (x : string) (s : Summary.t) :
  addChecked x (addChecked x s) = addChecked x s.
Proof.
  unfold addChecked. destruct (includes (Summary.pluginsChecked s) x) eqn:E; simpl.
  - rewrite E. reflexivity.
  - rewrite includes_snoc. reflexivity.
Qed.

Lemma addUpdated_idempotent (x : string) (s : Summary.t) :
  addUpdated x (addUpdated x s) = addUpdated x s.
Proof.
  unfold addUpdated. destruct (includes (Summary.pluginsUpdated s) x) eqn:E; simpl.
  - rewrite E. reflexivity.
  - rewrite includes_snoc. reflexivity.
Qed.

Lemma addChecked_wf (x : string) (s : Summary.t) :
  summary_wf s ->
  summary_wf (addChecked x s) /\
  occurrences x (Summary.pluginsChecked (addChecked x s)) = 1%nat.
Proof.
  intros (Hc & Hu & Hnc & Hnu). unfold addChecked.
  destruct (includes (Summary.pluginsChecked s) x) eqn:E; simpl.
  - split; [repeat split; assumption|].
    apply occurrences_NoDup; [exact Hc|apply includes_true; exact E].
  - apply includes_false in E.
    assert (NoDup (Summary.pluginsChecked s ++ [x])) by (apply NoDup_snoc; assumption).
    split; [repeat split; try assumption|].
    + simpl. rewrite length_app. simpl. lia.
    + apply occurrences_NoDup; [assumption|].
      apply elem_of_app. right. apply list_elem_of_singleton. reflexivity.
Qed.

Lemma addUpdated_wf (x : string) (s : Summary.t) :
  summary_wf s ->
  summary_wf (addUpdated x s) /\
  occurrences x (Summary.pluginsUpdated (addUpdated x s)) = 1%nat.
Proof.
  intros (Hc & Hu & Hnc & Hnu). unfold addUpdated.
  destruct (includes (Summary.pluginsUpdated s) x) eqn:E; simpl.
  - split; [repeat split; assumption|].
    apply occurrences_NoDup; [exact Hu|apply includes_true; exact E].
  - apply includes_false in E.
    assert (NoDup (Summary.pluginsUpdated s ++ [x])) by (apply NoDup_snoc; assumption).
    split; [repeat split; try assumption|].
    + simpl. rewrite length_app. simpl. lia.
    + apply occurrences_NoDup; [assumption|].
      apply elem_of_app. right. apply list_elem_of_singleton. reflexivity.
Qed.

End SummaryFacts.

(** C8, as claimed, does not hold: [printUpdateSummary] returns at once
    when nothing was checked, so a name marked as updated stays listed,
    with its counter, after the report. *)
Lemma report_without_checks_keeps_updates :
  ~ (forall (host : Host) (w : World host),
       let s := updateSummary (snd (printUpdateSummary host w)) in
       Summary.totalChecked s = 0%nat /\ Summary.totalUpdated s = 0%nat /\
       Summary.pluginsChecked s = [] /\ Summary.pluginsUpdated s = []).
Proof.
  intros H.
  pose (h := Demo.host Demo.offline).
  specialize (H h (snd (addPluginUpdated h "A" "v1.5.0" (initial h Demo.disk0 0%nat)))).
  vm_compute in H. destruct H as (_ & H & _). discriminate H.
Qed.

(** C8, amended: [addPluginChecked] and [addPluginUpdated] add a name
    that is absent and do nothing otherwise, so a second call with the
    same name changes nothing; in a well-formed summary the name is then
    listed exactly once and the counters are the lengths of the lists.
    [printUpdateSummary] resets the summary to zero counters and empty
    lists when at least one plugin was checked; when none was, it returns
    without touching the summary. *)
Theorem summary_marks_and_report (host : Host) (w : World host)
    (pluginName newVersion : string) :
  let checked := snd (addPluginChecked host pluginName w) in
  let updated := snd (addPluginUpdated host pluginName newVersion w) in
  snd (addPluginChecked host pluginName checked) = checked /\
  snd (addPluginUpdated host pluginName newVersion updated) = updated /\
  (summary_wf (updateSummary w) ->
     summary_wf (updateSummary checked) /\
     occurrences pluginName (Summary.pluginsChecked (updateSummary checked)) = 1%nat /\
     summary_wf (updateSummary updated) /\
     occurrences pluginName (Summary.pluginsUpdated (updateSummary updated)) = 1%nat) /\
  updateSummary (snd (printUpdateSummary host w)) =
    (if Nat.eqb (Summary.totalChecked (updateSummary w)) 0
     then updateSummary w else Summary.empty) /\
  (Summary.totalChecked (updateSummary w) = 0%nat ->
     snd (printUpdateSummary host w) = w).
Proof.
  intros checked updated. subst checked updated.
  unfold addPluginChecked, addPluginUpdated. js_run.
  split; [|split; [|split; [|split]]].
  - unfold with_updateSummary. simpl. rewrite addChecked_idempotent. reflexivity.
  - unfold with_updateSummary. simpl. rewrite addUpdated_idempotent. reflexivity.
  - intros Hwf.
    destruct (addChecked_wf pluginName _ Hwf) as [Hc1 Hc2].
    destruct (addUpdated_wf pluginName _ Hwf) as [Hu1 Hu2].
    repeat split; assumption || apply Hc1 || apply Hu1.
  - unfold printUpdateSummary, resetUpdateSummary. js_run.
    destruct (Nat.eqb (Summary.totalChecked (updateSummary w)) 0); js_run;
      [reflexivity|].
    destruct (Nat.ltb 0 (Summary.totalUpdated (updateSummary w))); js_run; reflexivity.
  - intros H0. unfold printUpdateSummary. js_run. rewrite H0. reflexivity.
Qed.

(** C8 at work, from the empty summary. *)
Lemma summary_marks_and_report_witness :
  let h := Demo.host Demo.offline in
  let w := initial h Demo.disk0 0%nat in
  let twice := snd (addPluginChecked h "A" (snd (addPluginChecked h "A" w))) in
  Summary.pluginsChecked (updateSummary twice) = ["A"] /\
  Summary.totalChecked (updateSummary twice) = 1%nat /\
  occurrences "A" (Summary.pluginsChecked (updateSummary twice)) = 1%nat /\
  snd (printUpdateSummary h w) = w.
Proof.
  intros h w twice.
  destruct (summary_marks_and_report h w "A" "v1.5.0") as (Hc & _ & Hwf & _ & Hnone).
  subst twice. rewrite Hc.
  destruct Hwf as (_ & Hocc & _).
  - repeat split; simpl; try reflexivity; apply NoDup_nil_2.
  - split; [reflexivity|]. split; [reflexivity|]. split; [exact Hocc|].
    apply Hnone. reflexivity.
Defined.

(* ===================================================================== *)
(** * The remote version and the update transaction *)
(* ===================================================================== *)

Section Transactions.

Variable host : Host.
Implicit Types (w : World host) (plugin : ref) (p : Plugin.t).

(** [getLatestVersion] never throws: it answers a version or nothing,
    having made one request and written at most one line. *)
Lemma getLatestVersion_total (owner repo : string) w :
  exists (v : option string) (c : list LogMsg),
    getLatestVersion host owner repo w =
      (inr v, with_console host c
                (with_requests host (requests w ++ [releaseUrl owner repo]) w)).
Proof.
  unfold getLatestVersion. js_run. unfold axios_get_. js_run.
  destruct (axios_get host (length (requests w)) (releaseUrl owner repo)) as [e|d];
    js_run.
  - destruct (is_status 404 e); js_run; eexists; eexists; reflexivity.
  - eexists; eexists; reflexivity.
Qed.

(** [createBackup] never throws, and touches the disk and the console
    only. *)
Lemma createBackup_total plugin w p :
  heap w !! plugin = Some p ->
  exists (b : option string) (d : Disk host) (c : list LogMsg),
    createBackup host plugin w = (inr b, with_disk host d (with_console host c w)).
Proof.
  intros H. unfold createBackup, createBackupTry. js_exec H.
  repeat (host_case; js_exec H);
    destruct w; do 3 eexists; world_eq.
Qed.

(** [performPluginUpdate] never throws; it answers a success that
    carries the version the plugin had, or a failure that carries the
    message of the error; it leaves the plugin objects as they are. *)
Lemma performPluginUpdate_total plugin (latestVersion : string) w p :
  heap w !! plugin = Some p ->
  exists (result : UpdateResult.t) (d : Disk host) (c : list LogMsg),
    performPluginUpdate host plugin latestVersion w =
      (inr result,
       with_transactions host
         (transactions w ++ [mkTransaction plugin latestVersion result])
         (with_disk host d
            (with_console host c
               (with_requests host (requests w ++ [artifactUrl host p latestVersion]) w)))) /\
    ((exists b, result = UpdateResult.mk true (Some latestVersion)
                           (Some (Plugin.version p)) b None) \/
     (exists e : Exn, result = UpdateResult.failure (message e))).
Proof.
  intros H. unfold performPluginUpdate, performPluginUpdateTry. js_exec H.
  host_case; js_exec H.
  - destruct w; do 3 eexists. split; [world_eq|]. right. eexists. reflexivity.
  - match goal with
    | |- context [createBackup host plugin ?w1] =>
        destruct (createBackup_total plugin w1 p H) as (b & d1 & c1 & ->)
    end.
    js_exec H.
    repeat (host_case; js_exec H);
      destruct w; (do 3 eexists; split; [world_eq|]);
      first [ left; eexists; reflexivity
            | right; eexists; reflexivity
            | right; exists verificationError; reflexivity ].
Qed.

(** On a heap where the plugin exists, a field assignment followed by a
    read of the same object sees the value assigned. *)
Lemma lookup_assigned (h : list Plugin.t) plugin p q :
  h !! plugin = Some p -> (<[plugin := q]> h) !! plugin = Some q.
Proof.
  intros H. apply list_lookup_insert_eq. eapply lookup_lt_Some. exact H.
Qed.

(** Marking a plugin as checked leaves the updated side of the summary
    alone. *)
Lemma addChecked_updated (x : string) (s : Summary.t) :
  Summary.pluginsUpdated (addChecked x s) = Summary.pluginsUpdated s /\
  Summary.totalUpdated (addChecked x s) = Summary.totalUpdated s.
Proof.
  unfold addChecked. destruct (includes (Summary.pluginsChecked s) x); split; reflexivity.
Qed.

(** What a check does, by cases. It never throws. Either no transaction
    runs, and then the version and [needsUpdate] are as before and no
    notification is sent; or exactly one transaction runs, and what
    follows depends on its result. Whatever the case, the updated side
    of the summary is as before. *)
Lemma checkPluginUpdate_outcome plugin (latestVersion : option string) w p :
  heap w !! plugin = Some p ->
  exists (w' : World host) (p' : Plugin.t),
    checkPluginUpdate host plugin latestVersion w = (inr tt, w') /\
    heap w' !! plugin = Some p' /\
    Plugin.name p' = Plugin.name p /\
    Summary.pluginsUpdated (updateSummary w') = Summary.pluginsUpdated (updateSummary w) /\
    Summary.totalUpdated (updateSummary w') = Summary.totalUpdated (updateSummary w) /\
    ((transactions w' = transactions w /\ notified w' = notified w /\
      Plugin.version p' = Plugin.version p /\
      Plugin.needsUpdate p' = Plugin.needsUpdate p) \/
     (exists (latest : string) (result : UpdateResult.t),
        transactions w' = (transactions w ++ [mkTransaction plugin latest result])%list /\
        if UpdateResult.updated result
        then
          Plugin.version p' = latest /\
          Plugin.needsUpdate p' = false /\
          Plugin.lastUpdated p' = Some (S (clock w)) /\
          (S (clock w) < clock w')%nat /\
          notified w' =
            (notified w ++
               match discordNotifier w with
               | Some _ =>
                   [mkNotification (Plugin.name p) (Some (Plugin.version p)) latest
                      (UpdateResult.backupPath result)]
               | None => []
               end)%list
        else
          Plugin.version p' = Plugin.version p /\
          Plugin.needsUpdate p' = true /\
          (exists msg, UpdateResult.error result = Some msg) /\
          Plugin.error p' =
            Some (JsString.or_else (UpdateResult.error result) "Update failed") /\
          notified w' = notified w)).
Proof.
  intros H.
  pose proof (fun q => lookup_assigned (heap w) plugin p q H) as Hq.
  destruct w as [h rp us ui ii dn cf dk tm ck cs rq nt tx]; simpl in H, Hq.
  unfold checkPluginUpdate, checkPluginUpdateTry.
  js_heap H Hq.
  destruct (JsString.truthy latestVersion) eqn:Ht; js_heap H Hq.
  2: match goal with
     | |- context [getLatestVersion host ?o ?r ?w1] =>
         destruct (getLatestVersion_total o r w1) as (v & c0 & ->); js_heap H Hq
     end.
  all: match goal with
       | |- context [JsString.if_truthy ?x] =>
           destruct (JsString.if_truthy x) as [latest|]; js_heap H Hq
       end.
  all: try (do 2 eexists; (split; [reflexivity|]);
            (split; [simpl; apply Hq|]); simpl;
            repeat split; left; repeat split; reflexivity).
  all: destruct (compareVersions (Some (Plugin.version p)) (Some latest) <? 0);
    js_heap H Hq.
  all: try (destruct (0 <? compareVersions (Some (Plugin.version p)) (Some latest));
            js_heap H Hq;
            do 2 eexists; (split; [reflexivity|]);
            (split; [simpl; apply Hq|]); simpl;
            (split; [reflexivity|]);
            (split; [apply (proj1 (addChecked_updated _ _))|]);
            (split; [apply (proj2 (addChecked_updated _ _))|]);
            left; repeat split; reflexivity).
  all: match goal with
       | |- context [performPluginUpdate host ?pl ?la ?w1] =>
           edestruct (performPluginUpdate_total pl la w1)
             as (result & d & c & Hrun & Hresult); [simpl; apply Hq|];
           rewrite Hrun; clear Hrun
       end.
  all: destruct Hresult as [[b ->]|[e ->]]; js_heap H Hq.
  all: try (destruct dn as [notifier|]; js_heap H Hq;
            [match goal with
             | |- context [notifier ?n] => destruct (notifier n); js_heap H Hq
             end|]).
  all: do 2 eexists; (split; [reflexivity|]);
       (split; [simpl; apply Hq|]); simpl;
       (split; [reflexivity|]);
       (split; [try apply (proj1 (addChecked_updated _ _)); reflexivity|]);
       (split; [try apply (proj2 (addChecked_updated _ _)); reflexivity|]);
       right; do 2 eexists; (split; [reflexivity|]); simpl;
       repeat split; eauto; try lia.
  all: symmetry; apply app_nil_r.
Qed.

(** No check, whatever its course, touches the updated side of the
    summary. *)
Lemma check_leaves_updated_side plugin (latestVersion : option string) w p :
  heap w !! plugin = Some p ->
  let w' := snd (checkPluginUpdate host plugin latestVersion w) in
  Summary.pluginsUpdated (updateSummary w') = Summary.pluginsUpdated (updateSummary w) /\
  Summary.totalUpdated (updateSummary w') = Summary.totalUpdated (updateSummary w).
Proof.
  intros H.
  destruct (checkPluginUpdate_outcome plugin latestVersion w p H)
    as (w0 & p' & -> & _ & _ & Hlist & Hcount & _).
  split; assumption.
Qed.

(** A check that finds no latest version records the failure on the
    plugin and does nothing else to the program's state. *)
Lemma check_without_latest plugin (latestVersion : option string) w p w1 :
  heap w !! plugin = Some p ->
  JsString.truthy latestVersion = false ->
  getLatestVersion host (Plugin.owner p) (Plugin.repo p) w = (inr None, w1) ->
  exists (w' : World host) (p' : Plugin.t),
    checkPluginUpdate host plugin latestVersion w = (inr tt, w') /\
    heap w' !! plugin = Some p' /\
    p' = Plugin.set_lastChecked (Some (clock w))
           (Plugin.set_error (Some "Could not determine latest version") p) /\
    transactions w' = transactions w /\
    notified w' = notified w /\
    updateSummary w' = updateSummary w /\
    disk w' = disk w.
Proof.
  intros H Ht Hget.
  pose proof (fun q => lookup_assigned (heap w) plugin p q H) as Hq.
  destruct (getLatestVersion_total (Plugin.owner p) (Plugin.repo p) w)
    as (v & c0 & Hv).
  rewrite Hv in Hget. injection Hget as -> <-.
  destruct w as [h rp us ui ii dn cf dk tm ck cs rq nt tx]; simpl in H, Hq.
  unfold checkPluginUpdate, checkPluginUpdateTry.
  js_heap H Hq. rewrite Ht. js_heap H Hq.
  match goal with
  | |- context [getLatestVersion host ?o ?r ?w1] =>
      change (getLatestVersion host o r w1)
        with (getLatestVersion host (Plugin.owner p) (Plugin.repo p)
                (mkWorld host h rp us ui ii dn cf dk tm ck cs rq nt tx))
  end.
  rewrite Hv. js_heap H Hq.
  do 2 eexists. split; [reflexivity|].
  split; [simpl; apply Hq|]. repeat split.
Qed.

(** The fetch, the write and the verification are the steps whose
    failure fails the transaction. *)
Lemma step_fails_failure plugin (latestVersion : string) w e :
  step_fails host plugin latestVersion w e ->
  exists w', performPluginUpdate host plugin latestVersion w =
               (inr (UpdateResult.failure (message e)), w').
Proof.
  intros Hstep. unfold performPluginUpdate, performPluginUpdateTry.
  destruct Hstep as [p e w1 H Hf
                    |p data w1 b w2 e w3 H Hf Hb Hw
                    |p data w1 b w2 w3 e w4 H Hf Hb Hw Hr
                    |p data w1 b w2 w3 code w4 H Hf Hb Hw Hr Hd].
  all: assert (Hw1 : heap w1 = heap w)
         by (unfold axios_get_ in Hf;
             destruct (axios_get host (length (requests w))
                         (artifactUrl host p latestVersion));
             inversion Hf; reflexivity).
  all: js_run; unfold read at 1; rewrite H; js_run; rewrite Hf; js_run.
  1: { unfold read. rewrite Hw1, H. js_run. eexists. reflexivity. }
  all: rewrite Hb; js_run; unfold read at 1.
  all: assert (H1 : heap w1 !! plugin = Some p) by (rewrite Hw1; exact H).
  all: destruct (createBackup_total plugin w1 p H1) as (b' & d & c & Hb');
    rewrite Hb' in Hb; inversion Hb; subst b' w2; clear Hb; simpl;
    rewrite Hw1, H; js_run;
    rewrite Hw; js_run.
  all: assert (Hw3 : heap w3 = heap w)
         by (unfold fs_writeFileSync in Hw; simpl in Hw;
             destruct (writeFileSync host d (Plugin.filePath p) data);
             inversion Hw; simpl; exact Hw1).
  1: { unfold read. rewrite Hw3, H. js_run. eexists. reflexivity. }
  all: rewrite Hr; js_run.
  all: assert (Hw4 : heap w4 = heap w)
         by (unfold fs_readFileSync in Hr;
             destruct (readFileSync host (disk w3) (Plugin.filePath p));
             inversion Hr; subst; exact Hw3).
  1: { unfold read. rewrite Hw4, H. js_run. eexists. reflexivity. }
  rewrite Hd. js_run. unfold read. rewrite Hw4, H. js_run. eexists. reflexivity.
Qed.

End Transactions.



(* ===================================================================== *)
(** * The check of one plugin *)
(* ===================================================================== *)

(** A list that ends with one more element is not the list itself. *)
Lemma snoc_not_self {A} (l : list A) (x : A) : l <> (l ++ [x])%list.
Proof.
  intros E. apply (f_equal (@length A)) in E. rewrite length_app in E.
  simpl in E. lia.
Qed.

(** C2: when the transaction of a check succeeds, the plugin's version
    is the target version, [needsUpdate] is false, [lastUpdated] is
    stamped with the time read after the transaction (the second
    [new Date()] of the check, whatever stamp the plugin had before),
    and [onPluginUpdated(name, oldVersion, newVersion, backupPath)] is
    called exactly once if a notifier is configured, and not at all
    otherwise. *)
Theorem successful_transaction_effects (host : Host) (w w' : World host)
    (plugin : ref) (latestVersion : option string) (p : Plugin.t)
    (r : Exn + unit) (tx : Transaction) :
  heap w !! plugin = Some p ->
  checkPluginUpdate host plugin latestVersion w = (r, w') ->
  transactions w' = (transactions w ++ [tx])%list ->
  UpdateResult.updated (tx_result tx) = true ->
  exists p' : Plugin.t,
    heap w' !! plugin = Some p' /\
    Plugin.version p' = tx_target tx /\
    Plugin.needsUpdate p' = false /\
    Plugin.lastUpdated p' = Some (S (clock w)) /\
    (S (clock w) < clock w')%nat /\
    notified w' =
      (notified w ++
         match discordNotifier w with
         | Some _ =>
             [mkNotification (Plugin.name p) (Some (Plugin.version p)) (tx_target tx)
                (UpdateResult.backupPath (tx_result tx))]
         | None => []
         end)%list.
Proof.
  intros H Hrun Htx Hok.
  destruct (checkPluginUpdate_outcome host plugin latestVersion w p H)
    as (w0 & p' & Hrun' & Hp' & _ & _ & _ & Hcases).
  rewrite Hrun' in Hrun. injection Hrun as _ <-.
  destruct Hcases as [(Hsame & _)|(latest & result & Htx' & Hres)].
  - rewrite Hsame in Htx. destruct (snoc_not_self _ _ Htx).
  - rewrite Htx' in Htx. apply app_inv_head in Htx. injection Htx as <-.
    simpl in Hok. rewrite Hok in Hres. simpl.
    exists p'. split; [exact Hp'|]. exact Hres.
Qed.

(** C2 at work: plugin A at v1.0.0, release v1.5.0, a notifier that
    returns. *)
Lemma successful_transaction_effects_witness :
  let h := Demo.host Demo.network in
  let w := snd (setDiscordNotifier h (fun _ => None) (Demo.registered h Demo.disk0)) in
  let w' := snd (checkPluginUpdate h 0%nat None w) in
  exists p' : Plugin.t,
    heap w' !! 0%nat = Some p' /\
    Plugin.version p' = "v1.5.0" /\
    Plugin.needsUpdate p' = false /\
    Plugin.lastUpdated p' = Some 101%nat /\
    notified w' =
      [mkNotification "A" (Some "v1.0.0") "v1.5.0"
         (Some "/srv/squadjs/BACKUP-Plugins/A/a.js.backup")].
Proof.
  intros h w w'.
  destruct (successful_transaction_effects h w w' 0%nat None
              (Plugin.mk "A" "v1.0.0" "owner" "repo" Demo.pluginPath ConsoleLog
                 false None None None None None)
              (inr tt)
              (mkTransaction 0%nat "v1.5.0"
                 (UpdateResult.mk true (Some "v1.5.0") (Some "v1.0.0")
                    (Some "/srv/squadjs/BACKUP-Plugins/A/a.js.backup") None)))
    as (p' & Hp' & Hv & Hn & Hs & _ & Hcalls);
    try (vm_compute; reflexivity).
  exists p'. repeat split; assumption.
Defined.

(** C3, as claimed, does not hold: the backup is one of the steps of a
    transaction, and when it fails the transaction goes on. *)
Lemma backup_failure_does_not_fail_transaction :
  ~ (forall (host : Host) (plugin : ref) (latestVersion : string) (w : World host),
       backup_fails host plugin latestVersion w ->
       exists msg w',
         performPluginUpdate host plugin latestVersion w =
           (inr (UpdateResult.failure msg), w')).
Proof.
  intros Hclaim.
  pose (h := Demo.host Demo.network).
  destruct (Hclaim h 0%nat "v1.5.0" (Demo.registered h Demo.empty_disk))
    as (msg & w' & Hrun).
  - vm_compute. exact I.
  - vm_compute in Hrun. discriminate Hrun.
Qed.

(** C3, amended: when the fetch, the write or the verification of a
    transaction fails (a verification that fails after the write took
    place included), [performPluginUpdate] returns [updated: false] with
    the message of the error; after a check whose transaction failed, the
    plugin's version is unchanged, [needsUpdate] is true and the error is
    recorded on the plugin, [Update failed] standing in for an empty
    message. A backup that fails is not such a failure: [createBackup]
    never throws. *)
Theorem failed_transaction_effects (host : Host) (w : World host)
    (plugin : ref) (p : Plugin.t) :
  heap w !! plugin = Some p ->
  (forall (latestVersion : string) (e : Exn),
     step_fails host plugin latestVersion w e ->
     exists w1, performPluginUpdate host plugin latestVersion w =
                  (inr (UpdateResult.failure (message e)), w1)) /\
  (forall (latestVersion : option string) (r : Exn + unit) (w' : World host)
          (tx : Transaction),
     checkPluginUpdate host plugin latestVersion w = (r, w') ->
     transactions w' = (transactions w ++ [tx])%list ->
     UpdateResult.updated (tx_result tx) = false ->
     exists (p' : Plugin.t) (msg : string),
       heap w' !! plugin = Some p' /\
       UpdateResult.error (tx_result tx) = Some msg /\
       Plugin.version p' = Plugin.version p /\
       Plugin.needsUpdate p' = true /\
       Plugin.error p' = Some (if String.eqb msg "" then "Update failed" else msg)) /\
  (exists b w1, createBackup host plugin w = (inr b, w1)).
Proof.
  intros H. split; [|split].
  - intros latestVersion e Hstep. apply step_fails_failure. exact Hstep.
  - intros latestVersion r w' tx Hrun Htx Hko.
    destruct (checkPluginUpdate_outcome host plugin latestVersion w p H)
      as (w0 & p' & Hrun' & Hp' & _ & _ & _ & Hcases).
    rewrite Hrun' in Hrun. injection Hrun as _ <-.
    destruct Hcases as [(Hsame & _)|(latest & result & Htx' & Hres)].
    + rewrite Hsame in Htx. destruct (snoc_not_self _ _ Htx).
    + rewrite Htx' in Htx. apply app_inv_head in Htx. injection Htx as <-.
      simpl in Hko. rewrite Hko in Hres. simpl.
      destruct Hres as (Hv & Hn & (msg & Hmsg) & He & _).
      exists p', msg. rewrite Hmsg in He. simpl in He.
      repeat split; assumption.
  - destruct (createBackup_total host plugin w p H) as (b & d & c & Hb).
    eauto.
Qed.

(** C3 at work: a disk that is full, on which the write succeeds and the
    file read back is empty. *)
Lemma failed_transaction_effects_witness :
  let h := Demo.full_disk_host Demo.network in
  let w := Demo.registered h Demo.disk0 in
  let w' := snd (checkPluginUpdate h 0%nat None w) in
  (exists w1, performPluginUpdate h 0%nat "v1.5.0" w =
                (inr (UpdateResult.failure
                        "File verification failed - update was not written correctly"),
                 w1)) /\
  exists p' : Plugin.t,
    heap w' !! 0%nat = Some p' /\
    Plugin.version p' = "v1.0.0" /\
    Plugin.needsUpdate p' = true /\
    Plugin.error p' =
      Some "File verification failed - update was not written correctly".
Proof.
  intros h w w'.
  pose (p := Plugin.mk "A" "v1.0.0" "owner" "repo" Demo.pluginPath ConsoleLog
               false None None None None None).
  assert (H : heap w !! 0%nat = Some p) by (vm_compute; reflexivity).
  destruct (failed_transaction_effects h w 0%nat p H) as (Hstep & Hcheck & _).
  split.
  - apply (Hstep "v1.5.0" verificationError).
    pose (w1 := snd (axios_get_ h (artifactUrl h p "v1.5.0") w)).
    pose (w2 := snd (createBackup h 0%nat w1)).
    pose (w3 := snd (fs_writeFileSync h Demo.pluginPath (Text "new code") w2)).
    apply (verification_fails h 0%nat "v1.5.0" w p (Text "new code") w1
             (Some "/srv/squadjs/BACKUP-Plugins/A/a.js.backup") w2 w3 "" w3);
      vm_compute; reflexivity.
  - destruct (Hcheck None (inr tt) w'
                (mkTransaction 0%nat "v1.5.0"
                   (UpdateResult.failure
                      "File verification failed - update was not written correctly")))
      as (p' & msg & Hp' & Hmsg & Hv & Hn & He);
      try (vm_compute; reflexivity).
    injection Hmsg as <-. exists p'. repeat split; assumption.
Defined.

(** C6: in a standalone check for which the resolver answers nothing, no
    transaction is attempted, the plugin's error is [Could not determine
    latest version], [lastChecked] is stamped and [needsUpdate] keeps its
    value (false stays false); and [getLatestVersion] never throws: on a
    404 as on any other failure of the request it answers nothing. *)
Theorem unresolved_version_is_recorded (host : Host) (w w1 : World host)
    (plugin : ref) (p : Plugin.t) (latestVersion : option string) :
  heap w !! plugin = Some p ->
  JsString.truthy latestVersion = false ->
  getLatestVersion host (Plugin.owner p) (Plugin.repo p) w = (inr None, w1) ->
  (exists (w' : World host) (p' : Plugin.t),
     checkPluginUpdate host plugin latestVersion w = (inr tt, w') /\
     heap w' !! plugin = Some p' /\
     transactions w' = transactions w /\
     Plugin.error p' = Some "Could not determine latest version" /\
     Plugin.lastChecked p' = Some (clock w) /\
     Plugin.needsUpdate p' = Plugin.needsUpdate p) /\
  (forall (owner repo : string) (w0 : World host),
     exists (v : option string) (w2 : World host),
       getLatestVersion host owner repo w0 = (inr v, w2)) /\
  (forall (owner repo : string) (w0 : World host) (e : Exn),
     axios_get host (length (requests w0)) (releaseUrl owner repo) = inl e ->
     exists w2 : World host, getLatestVersion host owner repo w0 = (inr None, w2)).
Proof.
  intros H Ht Hget. split; [|split].
  - destruct (check_without_latest host plugin latestVersion w p w1 H Ht Hget)
      as (w' & p' & Hrun & Hp' & -> & Htx & _).
    exists w'. eexists. split; [exact Hrun|]. split; [exact Hp'|].
    split; [exact Htx|]. repeat split.
  - intros owner repo w0.
    destruct (getLatestVersion_total host owner repo w0) as (v & c & Hv). eauto.
  - intros owner repo w0 e He. unfold getLatestVersion, axios_get_. js_run.
    rewrite He. js_run. destruct (is_status 404 e); js_run; eauto.
Qed.

(** C6 at work: a network that answers 404. *)
Lemma unresolved_version_is_recorded_witness :
  let h := Demo.host Demo.offline in
  let w := Demo.registered h Demo.disk0 in
  (exists (w' : World h) (p' : Plugin.t),
     checkPluginUpdate h 0%nat None w = (inr tt, w') /\
     heap w' !! 0%nat = Some p' /\
     transactions w' = [] /\
     Plugin.error p' = Some "Could not determine latest version" /\
     Plugin.lastChecked p' = Some 100%nat /\
     Plugin.needsUpdate p' = false) /\
  exists w2 : World h, getLatestVersion h "owner" "repo" w = (inr None, w2).
Proof.
  intros h w.
  pose (p := Plugin.mk "A" "v1.0.0" "owner" "repo" Demo.pluginPath ConsoleLog
               false None None None None None).
  destruct (unresolved_version_is_recorded h w
              (snd (getLatestVersion h "owner" "repo" w)) 0%nat p None)
    as ((w' & p' & Hrun & Hp' & Htx & He & Hc & Hn) & _ & Hfail);
    try (vm_compute; reflexivity).
  split.
  - exists w', p'. repeat split; assumption.
  - apply (Hfail "owner" "repo" w
             (mkExn "Request failed with status code 404" (Some 404%nat))).
    vm_compute. reflexivity.
Defined.

(* ===================================================================== *)
(** * The check of one repository *)
(* ===================================================================== *)

(** C10: when the check of a repository finds no latest version, the
    plugin objects are left as they are (no [lastChecked], no [error], no
    [latestVersion] written), the cycle summary is unchanged and no
    transaction or notification takes place; the standalone check of a
    plugin of that repository, in the same state, does record the
    failure on the plugin. *)
Theorem unresolved_repository_leaves_plugins (host : Host) (w w1 : World host)
    (repoKey : string) (plugins : list ref) :
  let owner := interpolate (JsString.split "/" repoKey !! 0%nat) in
  let repo := interpolate (JsString.split "/" repoKey !! 1%nat) in
  getLatestVersion host owner repo w = (inr None, w1) ->
  (exists w' : World host,
     checkRepositoryUpdates host repoKey plugins w = (inr tt, w') /\
     heap w' = heap w /\
     updateSummary w' = updateSummary w /\
     registeredPlugins w' = registeredPlugins w /\
     transactions w' = transactions w /\
     notified w' = notified w /\
     clock w' = clock w) /\
  (forall (plugin : ref) (p : Plugin.t),
     heap w !! plugin = Some p ->
     Plugin.owner p = owner -> Plugin.repo p = repo ->
     exists (w' : World host) (p' : Plugin.t),
       checkPluginUpdate host plugin None w = (inr tt, w') /\
       heap w' !! plugin = Some p' /\
       Plugin.error p' = Some "Could not determine latest version" /\
       Plugin.lastChecked p' = Some (clock w)).
Proof.
  intros owner repo Hget. split.
  - unfold checkRepositoryUpdates. js_run. fold owner repo.
    destruct (getLatestVersion_total host owner repo w) as (v & c & Hv).
    rewrite Hv in Hget. injection Hget as -> <-.
    rewrite Hv. js_run. eexists. split; [reflexivity|]. repeat split.
  - intros plugin p H Ho Hr. rewrite <- Ho, <- Hr in Hget.
    destruct (check_without_latest host plugin None w p w1 H eq_refl Hget)
      as (w' & p' & Hrun & Hp' & -> & _).
    exists w'. eexists. split; [exact Hrun|]. split; [exact Hp'|]. repeat split.
Qed.

(** C10 at work: the repository [owner/repo] on a network that answers
    404, and plugin A of that repository. *)
Lemma unresolved_repository_leaves_plugins_witness :
  let h := Demo.host Demo.offline in
  let w := Demo.registered h Demo.disk0 in
  (exists w' : World h,
     checkRepositoryUpdates h "owner/repo" [0%nat] w = (inr tt, w') /\
     heap w' = heap w /\
     updateSummary w' = updateSummary w) /\
  (exists (w' : World h) (p' : Plugin.t),
     checkPluginUpdate h 0%nat None w = (inr tt, w') /\
     heap w' !! 0%nat = Some p' /\
     Plugin.error p' = Some "Could not determine latest version").
Proof.
  intros h w.
  destruct (unresolved_repository_leaves_plugins h w
              (snd (getLatestVersion h "owner" "repo" w)) "owner/repo" [0%nat])
    as ((w' & Hrun & Hheap & Hsum & _) & Halone).
  - vm_compute. reflexivity.
  - split.
    + exists w'. repeat split; assumption.
    + destruct (Halone 0%nat
                  (Plugin.mk "A" "v1.0.0" "owner" "repo" Demo.pluginPath ConsoleLog
                     false None None None None None))
        as (w2 & p' & Hrun2 & Hp' & He & _);
        try (vm_compute; reflexivity).
      exists w2, p'. repeat split; assumption.
Defined.

(* ===================================================================== *)
(** * Where the code departs from its documentation *)
(* ===================================================================== *)

(** C7 on the code: plugin A is at v1.0.0 and the release is v1.5.0; the
    check runs a transaction that succeeds and the plugin is at v1.5.0
    afterwards, yet the updated side of the summary stays empty:
    [addPluginUpdated] is defined and never called. *)
Theorem successful_update_is_not_summarised :
  let h := Demo.host Demo.network in
  let w := Demo.registered h Demo.disk0 in
  let w' := snd (checkPluginUpdate h 0%nat None w) in
  transactions w' =
    [mkTransaction 0%nat "v1.5.0"
       (UpdateResult.mk true (Some "v1.5.0") (Some "v1.0.0")
          (Some "/srv/squadjs/BACKUP-Plugins/A/a.js.backup") None)] /\
  Plugin.version <$> (heap w' !! 0%nat) = Some "v1.5.0" /\
  Summary.pluginsChecked (updateSummary w') = ["A"] /\
  Summary.pluginsUpdated (updateSummary w') = [] /\
  Summary.totalUpdated (updateSummary w') = 0%nat.
Proof. vm_compute. repeat split; reflexivity. Qed.

(** C1 on the code: plugin A is registered and then disabled, and stays
    in the registry. The manual check still resolves the latest version,
    compares and runs the transaction; the cycle still puts the plugin in
    the group of its repository, and the check of that group updates it
    as well. *)
Theorem disabled_plugin_is_still_checked :
  let h := Demo.host Demo.network in
  let w := Demo.registered_disabled h Demo.disk0 in
  let manual := snd (checkPluginUpdates h "A" w) in
  let cycle := snd (checkAllUpdates h w) in
  let fired := snd (fire h 2%nat cycle) in
  Plugin.disabled <$> (heap w !! 0%nat) = Some (Some true) /\
  JsMap.get "A" (registeredPlugins w) = Some 0%nat /\
  requests manual =
    ["https://api.github.com/repos/owner/repo/releases/latest";
     "https://raw.githubusercontent.com/owner/repo/v1.5.0/plugins/a.js"] /\
  length (transactions manual) = 1%nat /\
  Plugin.version <$> (heap manual !! 0%nat) = Some "v1.5.0" /\
  timers cycle !! 2%nat =
    Some (mkTimer false 0%N (CheckRepositoryUpdates "owner/repo" [0%nat]) false) /\
  length (transactions fired) = 1%nat /\
  Plugin.version <$> (heap fired !! 0%nat) = Some "v1.5.0".
Proof. vm_compute. repeat split; reflexivity. Qed.

(* ===================================================================== *)
(** * Further properties of the version comparator *)
(* ===================================================================== *)

Section CompareVersionsOrder.

Import JsNumber.
Implicit Types p q : list number.

Lemma SFcompare_refl (a : number) : is_nan a = false -> SFcompare a a = Some Eq.
Proof.
  destruct a as [s|s| |s m e]; simpl; intros H; try discriminate.
  - reflexivity.
  - destruct s; reflexivity.
  - rewrite Z.compare_refl, Pos.compare_cont_refl. destruct s; reflexivity.
Qed.

(** How one pass of the loop sees two values that are not NaN. *)
Lemma gt_lt_cases (a b : number) :
  is_nan a = false -> is_nan b = false ->
  (SFltb b a = true /\ SFltb a b = false) \/
  (SFltb b a = false /\ SFltb a b = true) \/
  (SFltb b a = false /\ SFltb a b = false).
Proof.
  intros Ha Hb. destruct (compare_defined a b Ha Hb) as [c Hc].
  unfold SFltb. rewrite (SFcompare_antisym a b), Hc.
  destruct c; simpl; auto 10.
Qed.

(** The order on the values that are not NaN is transitive, equal
    values being interchangeable. *)
Lemma SFcompare_trans (a b c : number) (c1 c2 : comparison) :
  SFcompare a b = Some c1 -> SFcompare b c = Some c2 ->
  (c1 = Eq -> SFcompare a c = Some c2) /\
  (c2 = Eq -> SFcompare a c = Some c1) /\
  (c1 = c2 -> SFcompare a c = Some c1).
Proof.
  destruct a as [sa|sa| |sa ma ea], b as [sb|sb| |sb mb eb], c as [sc|sc| |sc mc ec];
    simpl; try discriminate;
    try (destruct sa); try (destruct sb); try (destruct sc); simpl;
    change (Pos.compare_cont Eq) with Pos.compare;
    repeat match goal with
           | |- context [(?x ?= ?y)%Z] => destruct (Z.compare_spec x y)
           | |- context [(?x ?= ?y)%positive] => destruct (Pos.compare_spec x y)
           end;
    simpl; intros Hc1 Hc2; injection Hc1 as <-; injection Hc2 as <-;
    repeat split; intros; subst; try discriminate; try reflexivity;
    exfalso; lia.
Qed.

Lemma compareLoop_range (n : nat) : forall (i : nat) p q,
  compareLoop n i p q = -1 \/ compareLoop n i p q = 0 \/ compareLoop n i p q = 1.
Proof.
  induction n as [|n IH]; intros i p q; simpl; [auto|].
  destruct (gt (part p i) (part q i)); [auto|].
  destruct (lt (part p i) (part q i)); [auto|]. apply IH.
Qed.

Lemma compareLoop_antisym (n : nat) : forall (i : nat) p q,
  compareLoop n i q p = - compareLoop n i p q.
Proof.
  induction n as [|n IH]; intros i p q; simpl; [reflexivity|].
  unfold gt, lt.
  destruct (gt_lt_cases _ _ (part_not_nan p i) (part_not_nan q i))
    as [[-> ->]|[[-> ->]|[-> ->]]];
    try reflexivity.
  apply IH.
Qed.

Lemma compareLoop_refl (n : nat) (i : nat) p : compareLoop n i p p = 0.
Proof.
  apply compareLoop_all_equal. intros k _. unfold eq, SFeqb.
  rewrite SFcompare_refl; [reflexivity|apply part_not_nan].
Qed.

Lemma compareLoop_trans (n : nat) : forall (i : nat) p q r,
  compareLoop n i p q = -1 -> compareLoop n i q r = -1 -> compareLoop n i p r = -1.
Proof.
  induction n as [|n IH]; intros i p q r; simpl; [discriminate|].
  unfold gt, lt, SFltb.
  destruct (compare_defined _ _ (part_not_nan p i) (part_not_nan q i)) as [c1 H1].
  destruct (compare_defined _ _ (part_not_nan q i) (part_not_nan r i)) as [c2 H2].
  destruct (SFcompare_trans _ _ _ _ _ H1 H2) as (Heq1 & Heq2 & Hsame).
  rewrite (SFcompare_antisym (part p i) (part q i)), H1.
  rewrite (SFcompare_antisym (part q i) (part r i)), H2.
  rewrite (SFcompare_antisym (part p i) (part r i)).
  destruct c1, c2; simpl; try discriminate; intros Hpq Hqr.
  - rewrite (Heq1 eq_refl). simpl. eapply IH; eassumption.
  - rewrite (Heq1 eq_refl). reflexivity.
  - rewrite (Heq2 eq_refl). reflexivity.
  - rewrite (Hsame eq_refl). reflexivity.
Qed.

(** The loop sees its arrays through [part] only. *)
Lemma compareLoop_ext (n : nat) : forall (i : nat) p q p' q',
  (forall k : nat, part p k = part p' k) ->
  (forall k : nat, part q k = part q' k) ->
  compareLoop n i p q = compareLoop n i p' q'.
Proof.
  induction n as [|n IH]; intros i p q p' q' Hp Hq; simpl; [reflexivity|].
  rewrite (Hp i), (Hq i), (IH (S i) p q p' q' Hp Hq). reflexivity.
Qed.

(** Passes beyond the end of both arrays change nothing. *)
Lemma compareLoop_more (n m : nat) : forall (i : nat) p q,
  (length p <= i + n)%nat -> (length q <= i + n)%nat ->
  compareLoop (n + m) i p q = compareLoop n i p q.
Proof.
  induction n as [|n IH]; intros i p q Hp Hq; simpl.
  - apply compareLoop_all_equal. intros k _.
    rewrite !part_missing by lia. reflexivity.
  - rewrite IH by lia. reflexivity.
Qed.

Lemma part_snoc_zero p (k : nat) : part (p ++ [pos_zero]) k = part p k.
Proof.
  unfold part. destruct (Nat.lt_ge_cases k (length p)) as [Hlt|Hge].
  - rewrite lookup_app_l by exact Hlt. reflexivity.
  - rewrite (lookup_ge_None_2 p k Hge), lookup_app_r by exact Hge.
    destruct (k - length p)%nat as [|[|j]]; reflexivity.
Qed.

(** One more piece, equal to 0, at the end of either array changes
    nothing. *)
Lemma compareLoop_snoc_zero_l p q :
  compareLoop (Nat.max (length (p ++ [pos_zero])) (length q)) 0 (p ++ [pos_zero]) q =
  compareLoop (Nat.max (length p) (length q)) 0 p q.
Proof.
  rewrite (compareLoop_ext _ 0%nat (p ++ [pos_zero])%list q p q
             (part_snoc_zero p) (fun _ => eq_refl)).
  rewrite length_app. simpl.
  set (n := Nat.max (length p) (length q)).
  assert (Hn : exists m : nat, Nat.max (length p + 1) (length q) = (n + m)%nat).
  { exists (Nat.max (length p + 1) (length q) - n)%nat. subst n. lia. }
  destruct Hn as [m ->].
  apply compareLoop_more; subst n; simpl; lia.
Qed.

Lemma compareLoop_snoc_zero_r p q :
  compareLoop (Nat.max (length q) (length (p ++ [pos_zero]))) 0 q (p ++ [pos_zero]) =
  compareLoop (Nat.max (length q) (length p)) 0 q p.
Proof.
  rewrite (compareLoop_ext _ 0%nat q (p ++ [pos_zero])%list q p
             (fun _ => eq_refl) (part_snoc_zero p)).
  rewrite length_app. simpl.
  set (n := Nat.max (length q) (length p)).
  assert (Hn : exists m : nat, Nat.max (length q) (length p + 1) = (n + m)%nat).
  { exists (Nat.max (length q) (length p + 1) - n)%nat. subst n. lia. }
  destruct Hn as [m ->].
  apply compareLoop_more; subst n; simpl; lia.
Qed.

End CompareVersionsOrder.

Section StringFacts.

Lemma append_nonempty_r (s t : string) : t <> "" -> s ++ t <> "".
Proof.
  destruct s; simpl; [auto|discriminate].
Qed.

Lemma split_from_append_dot_zero (cur : list ascii) (s : string) :
  JsString.split_from "." cur (s ++ ".0") = (JsString.split_from "." cur s ++ ["0"])%list.
Proof.
  revert cur. induction s as [|a s IH]; intros cur; simpl.
  - reflexivity.
  - destruct (Ascii.eqb a "."); simpl; rewrite IH; reflexivity.
Qed.

Lemma replace_first_char_append_dot_zero (s : string) :
  JsString.replace_first_char "v" (s ++ ".0") = JsString.replace_first_char "v" s ++ ".0".
Proof.
  induction s as [|a s IH]; simpl; [reflexivity|].
  destruct (Ascii.eqb a "v"); [reflexivity|]. rewrite IH. reflexivity.
Qed.

Lemma versionParts_append_dot_zero (s : string) :
  versionParts (s ++ ".0") = (versionParts s ++ [JsNumber.pos_zero])%list.
Proof.
  unfold versionParts, JsString.split.
  rewrite replace_first_char_append_dot_zero, split_from_append_dot_zero, map_app.
  reflexivity.
Qed.

End StringFacts.

(** X1: [compareVersions] answers -1, 0 or 1, whatever its arguments. *)
Theorem compareVersions_range (version1 version2 : option string) :
  compareVersions version1 version2 = -1 \/
  compareVersions version1 version2 = 0 \/
  compareVersions version1 version2 = 1.
Proof.
  unfold compareVersions.
  destruct version1 as [s1|], version2 as [s2|]; auto.
  destruct (negb (JsString.truthy (Some s1)) || negb (JsString.truthy (Some s2))); auto.
  apply compareLoop_range.
Qed.

(** X2: exchanging the arguments of [compareVersions] negates the
    result; a version compares equal to itself, whatever the string. *)
Theorem compareVersions_antisym (version1 version2 : option string) :
  compareVersions version2 version1 = - compareVersions version1 version2 /\
  compareVersions version1 version1 = 0.
Proof.
  unfold compareVersions. split.
  - destruct version1 as [s1|], version2 as [s2|]; try reflexivity.
    rewrite (orb_comm (negb (JsString.truthy (Some s2)))).
    destruct (negb (JsString.truthy (Some s1)) || negb (JsString.truthy (Some s2)));
      [reflexivity|].
    rewrite (Nat.max_comm (length (versionParts s2))). apply compareLoop_antisym.
  - destruct version1 as [s|]; [|reflexivity].
    destruct (negb (JsString.truthy (Some s)) || negb (JsString.truthy (Some s)));
      [reflexivity|apply compareLoop_refl].
Qed.

(** X3: a leading [v] does not count: for a non-empty version [s] free of
    the letter [v], ["v" ++ s] compares as [s] does, on either side. *)
Theorem compareVersions_leading_v (s : string) (other : option string) :
  s <> "" -> JsString.includes_char "v" s = false ->
  compareVersions (Some (String "v" s)) other = compareVersions (Some s) other /\
  compareVersions other (Some (String "v" s)) = compareVersions other (Some s).
Proof.
  intros Hs Hv.
  assert (Hparts : versionParts (String "v" s) = versionParts s).
  { unfold versionParts. simpl. rewrite (replace_first_char_absent _ _ Hv). reflexivity. }
  assert (Ht : JsString.truthy (Some (String "v" s)) = JsString.truthy (Some s)).
  { simpl. destruct (String.eqb_spec s ""); [contradiction|reflexivity]. }
  unfold compareVersions. destruct other as [o|]; [|split; reflexivity].
  rewrite Ht, Hparts. split; reflexivity.
Qed.

Lemma compareVersions_leading_v_witness :
  compareVersions (Some "v1.2.0") (Some "1.3.0") = compareVersions (Some "1.2.0") (Some "1.3.0").
Proof.
  apply (compareVersions_leading_v "1.2.0" (Some "1.3.0")).
  - discriminate.
  - vm_compute. reflexivity.
Defined.

(** X4: a trailing [.0] does not count: for a non-empty version [s],
    [s ++ ".0"] compares as [s] does, on either side. *)
Theorem compareVersions_trailing_zero (s : string) (other : option string) :
  s <> "" ->
  compareVersions (Some (s ++ ".0")) other = compareVersions (Some s) other /\
  compareVersions other (Some (s ++ ".0")) = compareVersions other (Some s).
Proof.
  intros Hs.
  assert (Ht : JsString.truthy (Some (s ++ ".0")) = JsString.truthy (Some s)).
  { simpl. destruct (String.eqb_spec s ""); [contradiction|].
    destruct (String.eqb_spec (s ++ ".0") ""); [|reflexivity].
    exfalso. apply (append_nonempty_r s ".0"); [discriminate|assumption]. }
  destruct other as [o|]; [|split; reflexivity].
  unfold compareVersions. rewrite Ht, versionParts_append_dot_zero.
  set (p := versionParts s). set (q := versionParts o).
  split.
  - destruct (negb (JsString.truthy (Some s)) || negb (JsString.truthy (Some o)));
      [reflexivity|].
    apply compareLoop_snoc_zero_l.
  - destruct (negb (JsString.truthy (Some o)) || negb (JsString.truthy (Some s)));
      [reflexivity|].
    apply compareLoop_snoc_zero_r.
Qed.

Lemma compareVersions_trailing_zero_witness :
  compareVersions (Some "2.0.0") (Some "v2.0") = compareVersions (Some "2.0") (Some "v2.0").
Proof.
  apply (compareVersions_trailing_zero "2.0" (Some "v2.0")). discriminate.
Defined.

(** The comparison of two non-empty versions, over any number of passes
    that covers both. *)
Lemma compareVersions_passes (a b : string) (n : nat) :
  a <> "" -> b <> "" ->
  (length (versionParts a) <= n)%nat -> (length (versionParts b) <= n)%nat ->
  compareVersions (Some a) (Some b) = compareLoop n 0 (versionParts a) (versionParts b).
Proof.
  intros Ha Hb Hla Hlb. rewrite (compareVersions_loop a b Ha Hb).
  set (m := Nat.max (length (versionParts a)) (length (versionParts b))).
  replace n with (m + (n - m))%nat by (subst m; lia).
  symmetry. apply compareLoop_more; subst m; simpl; lia.
Qed.

Lemma compareVersions_nonzero (a b : option string) :
  compareVersions a b <> 0 ->
  exists s t, a = Some s /\ b = Some t /\ s <> "" /\ t <> "".
Proof.
  unfold compareVersions, JsString.truthy.
  destruct a as [s|], b as [t|]; try (intros H; destruct (H eq_refl)).
  destruct (String.eqb_spec s ""), (String.eqb_spec t ""); simpl;
    try (intros H; destruct (H eq_refl)).
  intros _. exists s, t. auto.
Qed.

(** X5: [compareVersions] is transitive: if [a] is older than [b] and [b]
    older than [c], then [a] is older than [c]; and the same for newer. *)
Theorem compareVersions_trans (a b c : option string) :
  (compareVersions a b = -1 -> compareVersions b c = -1 -> compareVersions a c = -1) /\
  (compareVersions a b = 1 -> compareVersions b c = 1 -> compareVersions a c = 1).
Proof.
  assert (Hlt : forall x y z : option string,
             compareVersions x y = -1 -> compareVersions y z = -1 ->
             compareVersions x z = -1).
  { intros x y z Hxy Hyz.
    destruct (compareVersions_nonzero x y) as (s & t & -> & -> & Hs & Ht);
      [rewrite Hxy; discriminate|].
    destruct (compareVersions_nonzero (Some t) z) as (t' & u & Et & -> & _ & Hu);
      [rewrite Hyz; discriminate|].
    injection Et as <-.
    set (n := Nat.max (length (versionParts s))
                (Nat.max (length (versionParts t)) (length (versionParts u)))).
    rewrite (compareVersions_passes s t n) in Hxy by (assumption || (subst n; lia)).
    rewrite (compareVersions_passes t u n) in Hyz by (assumption || (subst n; lia)).
    rewrite (compareVersions_passes s u n) by (assumption || (subst n; lia)).
    eapply compareLoop_trans; eassumption. }
  split; [apply Hlt|].
  intros Hab Hbc.
  assert (Hcb : compareVersions c b = -1).
  { unfold compareVersions in *.
    destruct b as [sb|], c as [sc|]; try discriminate.
    rewrite (orb_comm (negb (JsString.truthy (Some sc)))).
    destruct (negb (JsString.truthy (Some sb)) || negb (JsString.truthy (Some sc)));
      [discriminate|].
    rewrite (Nat.max_comm (length (versionParts sc))), compareLoop_antisym, Hbc.
    reflexivity. }
  assert (Hba : compareVersions b a = -1).
  { unfold compareVersions in *.
    destruct a as [sa|], b as [sb|]; try discriminate.
    rewrite (orb_comm (negb (JsString.truthy (Some sb)))).
    destruct (negb (JsString.truthy (Some sa)) || negb (JsString.truthy (Some sb)));
      [discriminate|].
    rewrite (Nat.max_comm (length (versionParts sb))), compareLoop_antisym, Hab.
    reflexivity. }
  pose proof (Hlt c b a Hcb Hba) as Hca.
  unfold compareVersions in *.
  destruct a as [sa|], c as [sc|]; try discriminate.
  rewrite (orb_comm (negb (JsString.truthy (Some sc)))) in Hca.
  destruct (negb (JsString.truthy (Some sa)) || negb (JsString.truthy (Some sc)));
    [discriminate|].
  rewrite (Nat.max_comm (length (versionParts sc))), compareLoop_antisym in Hca.
  lia.
Qed.

Lemma compareVersions_trans_witness :
  compareVersions (Some "v1.2.0") (Some "1.10") = -1.
Proof.
  destruct (compareVersions_trans (Some "v1.2.0") (Some "1.9.9") (Some "1.10")) as [H _].
  apply H; vm_compute; reflexivity.
Defined.

(* ===================================================================== *)
(** * Further properties of the remote version and the transaction *)
(* ===================================================================== *)

Section PathFacts.

Lemma replace_all_char_absent (c d : ascii) (s : string) :
  Ascii.eqb d c = false ->
  JsString.includes_char c (JsString.replace_all_char c d s) = false.
Proof.
  intros Hd. induction s as [|a s IH]; simpl; [reflexivity|].
  rewrite IH, orb_false_r. destruct (Ascii.eqb a c) eqn:E; [exact Hd|exact E].
Qed.

Lemma replace_all_char_id (c d : ascii) (s : string) :
  JsString.includes_char c s = false -> JsString.replace_all_char c d s = s.
Proof.
  induction s as [|a s IH]; simpl; intros H; [reflexivity|].
  apply orb_false_iff in H as [Ha Hs]. rewrite Ha, (IH Hs). reflexivity.
Qed.

Lemma replace_all_char_length (c d : ascii) (s : string) :
  String.length (JsString.replace_all_char c d s) = String.length s.
Proof.
  induction s as [|a s IH]; simpl; [reflexivity|]. rewrite IH. reflexivity.
Qed.

End PathFacts.

(** X6: the path [getRelativePath] puts in a URL holds no backslash and
    is as long as the relative path; a relative path without backslash
    is returned as it is. *)
Theorem getRelativePath_forward_slashes (host : Host) (filePath : string) :
  let relativePath := path_relative host (cwd host) filePath in
  JsString.includes_char "\" (getRelativePath host filePath) = false /\
  String.length (getRelativePath host filePath) = String.length relativePath /\
  (JsString.includes_char "\" relativePath = false ->
   getRelativePath host filePath = relativePath).
Proof.
  intros relativePath. unfold getRelativePath. fold relativePath.
  split; [|split].
  - apply replace_all_char_absent. reflexivity.
  - apply replace_all_char_length.
  - apply replace_all_char_id.
Qed.

Lemma getRelativePath_forward_slashes_witness :
  getRelativePath (Demo.host Demo.network) Demo.pluginPath = "plugins/a.js".
Proof.
  destruct (getRelativePath_forward_slashes (Demo.host Demo.network) Demo.pluginPath)
    as (_ & _ & H).
  rewrite H; vm_compute; reflexivity.
Defined.

Section TransactionFacts.

Variable host : Host.
Implicit Types (w : World host) (plugin : ref) (p : Plugin.t).

Lemma tagOf_Some (data : Data) (tag : string) :
  tagOf data = Some tag <-> data = Release (Some tag) /\ tag <> "".
Proof.
  unfold tagOf. destruct data as [body|[t|]]; try (split; [discriminate|intros [H _]; discriminate H]).
  destruct (String.eqb_spec t "") as [->|Hne]; split.
  - discriminate.
  - intros [H Hne]. injection H as <-. contradiction.
  - intros H. injection H as <-. auto.
  - intros [H _]. injection H as <-. reflexivity.
Qed.

End TransactionFacts.

(** X7: [getLatestVersion] never throws and makes exactly one request,
    for the latest release of the repository. It changes nothing but the
    list of requests and the console: the plugin objects, the registry,
    the summary, the configuration, the timers and their handle, the
    initialised flag, the notifier and its calls, the disk, the clock
    and the transactions are as before, and the console gets no line
    when the request succeeds and one line when it fails (the "not
    found" line on a 404, the error line otherwise). It answers a tag
    exactly when the response carries a non-empty [tag_name], and never
    the empty string. *)
Theorem getLatestVersion_answer (host : Host) (owner repo : string) (w : World host) :
  exists (v : option string) (w' : World host),
    getLatestVersion host owner repo w = (inr v, w') /\
    requests w' = (requests w ++ [releaseUrl owner repo])%list /\
    heap w' = heap w /\ disk w' = disk w /\
    updateSummary w' = updateSummary w /\ transactions w' = transactions w /\
    (registeredPlugins w' = registeredPlugins w /\ config w' = config w /\
     timers w' = timers w /\ updateInterval w' = updateInterval w /\
     isInitialized w' = isInitialized w /\ discordNotifier w' = discordNotifier w /\
     notified w' = notified w /\ clock w' = clock w) /\
    console w' =
      (console w ++
         match axios_get host (length (requests w)) (releaseUrl owner repo) with
         | inr _ => []
         | inl error =>
             [if is_status 404 error then MsgRepoNotFound owner repo
              else MsgFetchError (message error)]
         end)%list /\
    v <> Some "" /\
    (forall tag : string,
       v = Some tag <->
       axios_get host (length (requests w)) (releaseUrl owner repo)
         = inr (Release (Some tag)) /\ tag <> "").
Proof.
  unfold getLatestVersion. js_run. unfold axios_get_. js_run.
  destruct (axios_get host (length (requests w)) (releaseUrl owner repo)) as [e|d];
    js_run.
  - destruct (is_status 404 e); js_run; do 2 eexists;
      (split; [reflexivity|]); simpl; do 5 (split; [reflexivity|]);
      (split; [repeat split; reflexivity|]); (split; [reflexivity|]);
      (split; [discriminate|]); intros tag;
      (split; [discriminate|intros [Hd _]; discriminate Hd]).
  - do 2 eexists. split; [reflexivity|]. simpl. do 5 (split; [reflexivity|]).
    split; [repeat split; reflexivity|].
    split; [symmetry; apply app_nil_r|].
    split.
    + intros Hv. apply tagOf_Some in Hv as [_ Hne]. apply Hne. reflexivity.
    + intros tag. split.
      * intros Hv. apply tagOf_Some in Hv as [-> Hne]. auto.
      * intros [Hd Hne]. apply tagOf_Some. injection Hd as ->. auto.
Qed.

Lemma getLatestVersion_answer_witness :
  let h := Demo.host Demo.network in
  let w := Demo.registered h Demo.disk0 in
  exists w' : World h,
    getLatestVersion h "owner" "repo" w = (inr (Some "v1.5.0"), w') /\
    registeredPlugins w' = registeredPlugins w /\ timers w' = timers w /\
    console w' = console w.
Proof.
  intros h w.
  destruct (getLatestVersion_answer h "owner" "repo" w)
    as (v & w' & Hrun & _ & _ & _ & _ & _ & (Hreg & _ & Htimers & _) & Hconsole & _ & Htag).
  assert (Hnet : axios_get h (length (requests w)) (releaseUrl "owner" "repo")
                 = inr (Release (Some "v1.5.0")))
    by (vm_compute; reflexivity).
  assert (Hv : v = Some "v1.5.0") by (apply Htag; split; [exact Hnet|discriminate]).
  rewrite Hnet in Hconsole. rewrite Hv in Hrun.
  exists w'. split; [exact Hrun|]. split; [exact Hreg|]. split; [exact Htimers|].
  rewrite Hconsole. apply app_nil_r.
Defined.


(** X8: [createBackup] never throws and leaves the plugin objects
    alone. When it returns a path, the path is
    [<cwd>/BACKUP-Plugins/<name>/<basename>.backup] as [path.join] builds
    it, nothing was logged, and what was written there is what
    [readFileSync] gave for the plugin's file, on the disk as it was after
    the directory was made if it was missing. When it returns null, one
    warning was logged. *)
Theorem createBackup_result (host : Host) (w : World host) (plugin : ref)
    (p : Plugin.t) :
  heap w !! plugin = Some p ->
  exists (b : option string) (w' : World host),
    createBackup host plugin w = (inr b, w') /\
    heap w' = heap w /\ requests w' = requests w /\ transactions w' = transactions w /\
    match b with
    | Some backupPath =>
        let backupDir := path_join host [cwd host; "BACKUP-Plugins"; Plugin.name p] in
        backupPath =
          path_join host [backupDir; path_basename host (Plugin.filePath p) ++ ".backup"] /\
        console w' = console w /\
        exists (d1 : Disk host) (currentCode : string),
          (if existsSync host (disk w) backupDir then d1 = disk w
           else mkdirSync host (disk w) backupDir = inr d1) /\
          readFileSync host d1 (Plugin.filePath p) = inr currentCode /\
          writeFileSync host d1 backupPath (Text currentCode) = inr (disk w')
    | None =>
        exists msg : string,
          console w' = (console w ++ [MsgBackupFailed (Plugin.name p) msg])%list
    end.
Proof.
  intros H. unfold createBackup, createBackupTry. js_exec H.
  destruct (existsSync host (disk w)
              (path_join host [cwd host; "BACKUP-Plugins"; Plugin.name p])) eqn:Hex;
    js_exec H.
  - destruct (readFileSync host (disk w) (Plugin.filePath p)) as [e|code] eqn:Hread;
      js_exec H.
    + do 2 eexists. split; [reflexivity|]. simpl. repeat split. eexists. reflexivity.
    + match goal with
      | |- context [writeFileSync host ?d ?path ?x] =>
          destruct (writeFileSync host d path x) as [e|d2] eqn:Hwrite
      end; js_exec H.
      * do 2 eexists. split; [reflexivity|]. simpl. repeat split. eexists. reflexivity.
      * do 2 eexists. split; [reflexivity|]. simpl. repeat split.
        exists (disk w), code. auto.
  - destruct (mkdirSync host (disk w)
                (path_join host [cwd host; "BACKUP-Plugins"; Plugin.name p]))
      as [e|d1] eqn:Hmk; js_exec H.
    + do 2 eexists. split; [reflexivity|]. simpl. repeat split. eexists. reflexivity.
    + destruct (readFileSync host d1 (Plugin.filePath p)) as [e|code] eqn:Hread;
        js_exec H.
      * do 2 eexists. split; [reflexivity|]. simpl. repeat split. eexists. reflexivity.
      * match goal with
        | |- context [writeFileSync host ?d ?path ?x] =>
            destruct (writeFileSync host d path x) as [e|d2] eqn:Hwrite
        end; js_exec H.
        -- do 2 eexists. split; [reflexivity|]. simpl. repeat split.
           eexists. reflexivity.
        -- do 2 eexists. split; [reflexivity|]. simpl. repeat split.
           exists d1, code. auto.
Qed.

Lemma createBackup_result_witness :
  let h := Demo.host Demo.network in
  let w := Demo.registered h Demo.disk0 in
  exists (b : option string) (w' : World h),
    createBackup h 0%nat w = (inr b, w') /\ heap w' = heap w.
Proof.
  intros h w.
  destruct (createBackup_result h w 0%nat
              (Plugin.mk "A" "v1.0.0" "owner" "repo" Demo.pluginPath ConsoleLog
                 false None None None None None))
    as (b & w' & Hrun & Hheap & _).
  - vm_compute. reflexivity.
  - exists b, w'. split; assumption.
Defined.

(** X9: [performPluginUpdate] reports a success only for a text that
    was fetched from the artifact URL and that the plugin's file gives
    back when read on the disk the transaction leaves; the result then
    carries the target as new version and the plugin's version as old
    version. The plugin object itself is not touched. *)
Theorem successful_update_is_verified (host : Host) (w w' : World host)
    (plugin : ref) (latestVersion : string) (p : Plugin.t) (result : UpdateResult.t) :
  heap w !! plugin = Some p ->
  performPluginUpdate host plugin latestVersion w = (inr result, w') ->
  UpdateResult.updated result = true ->
  heap w' = heap w /\
  UpdateResult.newVersion result = Some latestVersion /\
  UpdateResult.oldVersion result = Some (Plugin.version p) /\
  UpdateResult.error result = None /\
  exists updatedCode : string,
    axios_get host (length (requests w)) (artifactUrl host p latestVersion)
      = inr (Text updatedCode) /\
    readFileSync host (disk w') (Plugin.filePath p) = inr updatedCode.
Proof.
  intros H. unfold performPluginUpdate, performPluginUpdateTry. js_exec H.
  destruct (axios_get host (length (requests w)) (artifactUrl host p latestVersion))
    as [e|data] eqn:Hfetch; js_exec H.
  - intros Hrun. injection Hrun as <- <-. discriminate.
  - match goal with
    | |- context [createBackup host plugin ?w1] =>
        destruct (createBackup_total host plugin w1 p H) as (b & d1 & c1 & ->)
    end.
    js_exec H.
    destruct (writeFileSync host d1 (Plugin.filePath p) data) as [e|d2] eqn:Hwrite;
      js_exec H; [intros Hrun; injection Hrun as <- <-; discriminate|].
    destruct (readFileSync host d2 (Plugin.filePath p)) as [e|code] eqn:Hread;
      js_exec H; [intros Hrun; injection Hrun as <- <-; discriminate|].
    destruct (differs code data) eqn:Hdiff;
      js_exec H; [intros Hrun; injection Hrun as <- <-; discriminate|].
    intros Hrun _. injection Hrun as <- <-. simpl. repeat split.
    exists code. destruct data as [body|tag]; [|discriminate Hdiff].
    simpl in Hdiff. apply negb_false_iff, String.eqb_eq in Hdiff. subst body.
    split; [reflexivity|exact Hread].
Qed.

Lemma successful_update_is_verified_witness :
  let h := Demo.host Demo.network in
  let w := Demo.registered h Demo.disk0 in
  let w' := snd (performPluginUpdate h 0%nat "v1.5.0" w) in
  readFileSync h (disk w') Demo.pluginPath = inr "new code".
Proof.
  intros h w w'.
  pose (p := Plugin.mk "A" "v1.0.0" "owner" "repo" Demo.pluginPath ConsoleLog
               false None None None None None).
  pose (r := UpdateResult.mk true (Some "v1.5.0") (Some "v1.0.0")
               (Some "/srv/squadjs/BACKUP-Plugins/A/a.js.backup") None).
  assert (H : heap w !! 0%nat = Some p) by (vm_compute; reflexivity).
  assert (Hrun : performPluginUpdate h 0%nat "v1.5.0" w = (inr r, w'))
    by (vm_compute; reflexivity).
  destruct (successful_update_is_verified h w w' 0%nat "v1.5.0" p r H Hrun eq_refl)
    as (_ & _ & _ & _ & code & Hfetch & Hread).
  change (Plugin.filePath p) with Demo.pluginPath in Hread.
  rewrite Hread. f_equal. vm_compute in Hfetch. injection Hfetch as <-. reflexivity.
Defined.

(* ===================================================================== *)
(** * Further properties of the checks *)
(* ===================================================================== *)

Section CheckFacts.

Variable host : Host.
Implicit Types (w : World host) (plugin : ref) (p : Plugin.t).

Lemma artifact_is_not_release p (latestVersion : string) :
  is_release_request (artifactUrl host p latestVersion) = false.
Proof. reflexivity. Qed.

Lemma release_is_release (owner repo : string) :
  is_release_request (releaseUrl owner repo) = true.
Proof.
  unfold is_release_request, releaseUrl. simpl.
  destruct (owner ++ "/" ++ repo ++ "/releases/latest"); reflexivity.
Qed.

(** What a check leaves alone. It never throws; it writes to its own
    plugin object only, and there not to the fields that identify the
    plugin; it does not touch the registry, the configuration or the
    timers; it marks at most its own plugin as checked. When it is given
    a version, it makes no request for a release, and the plugin's
    [latestVersion] is that version afterwards. *)
Lemma checkPluginUpdate_frame plugin (latestVersion : option string) w p :
  heap w !! plugin = Some p ->
  exists (w' : World host) (p' : Plugin.t),
    checkPluginUpdate host plugin latestVersion w = (inr tt, w') /\
    heap w' = <[plugin := p']> (heap w) /\
    (Plugin.name p' = Plugin.name p /\ Plugin.owner p' = Plugin.owner p /\
     Plugin.repo p' = Plugin.repo p /\ Plugin.filePath p' = Plugin.filePath p /\
     Plugin.log p' = Plugin.log p /\ Plugin.disabled p' = Plugin.disabled p) /\
    (registeredPlugins w' = registeredPlugins w /\ config w' = config w /\
     timers w' = timers w /\ updateInterval w' = updateInterval w /\
     isInitialized w' = isInitialized w /\ discordNotifier w' = discordNotifier w) /\
    (updateSummary w' = updateSummary w \/
     updateSummary w' = addChecked (Plugin.name p) (updateSummary w)) /\
    (exists stamp, Plugin.lastChecked p' = Some stamp) /\
    (forall latest : string,
       latestVersion = Some latest -> latest <> "" ->
       Plugin.latestVersion p' = Some latest /\
       (requests w' = requests w \/
        requests w' = (requests w ++ [artifactUrl host p latest])%list)).
Proof.
  intros H.
  pose proof (fun q => lookup_assigned (heap w) plugin p q H) as Hq.
  destruct w as [h rp us ui ii dn cf dk tm ck cs rq nt tx]; simpl in H, Hq.
  unfold checkPluginUpdate, checkPluginUpdateTry.
  destruct latestVersion as [s|]; [destruct (String.eqb s "") eqn:Hs|].
  1: apply String.eqb_eq in Hs; subst s.
  2: unfold JsString.truthy; rewrite Hs; js_heap H Hq;
     unfold JsString.if_truthy; rewrite ?Hs; js_heap H Hq.
  1, 3: js_heap H Hq.
  all: try match goal with
       | |- context [getLatestVersion host ?o ?r ?w1] =>
           destruct (getLatestVersion_total host o r w1) as (v & c0 & ->);
           js_heap H Hq
       end.
  all: try match goal with
       | |- context [JsString.if_truthy ?x] =>
           destruct (JsString.if_truthy x) as [latest|]; js_heap H Hq
       end.
  all: try match goal with
       | |- context [compareVersions ?a ?b <? 0] =>
           destruct (compareVersions a b <? 0); js_heap H Hq;
           [|destruct (0 <? compareVersions a b); js_heap H Hq]
       end.
  all: try match goal with
       | |- context [performPluginUpdate host ?pl ?la ?w1] =>
           edestruct (performPluginUpdate_total host pl la w1)
             as (result & d & c & Hrun & Hresult); [simpl; apply Hq|];
           rewrite Hrun; clear Hrun;
           destruct Hresult as [[b ->]|[e ->]]; js_heap H Hq
       end.
  all: try (destruct dn as [notifier|]; js_heap H Hq;
            [match goal with
             | |- context [notifier ?n] => destruct (notifier n); js_heap H Hq
             end|]).
  all: do 2 eexists; (split; [reflexivity|]); simpl;
       (split; [reflexivity|]);
       (split; [repeat split; reflexivity|]);
       (split; [repeat split; reflexivity|]);
       (split; [first [left; reflexivity | right; reflexivity]|]);
       (split; [eexists; reflexivity|]);
       intros latest' E Hne; try discriminate E;
       injection E as E'; subst; try (destruct (Hne eq_refl));
       (split; [reflexivity|first [left; reflexivity | right; reflexivity]]).
Qed.

End CheckFacts.

(** X10: a check of a plugin object never throws and writes to that
    object only: every other object is as before, no object is added,
    and the checked object keeps its name, owner, repository, file path,
    logger and disabled flag. The registry, the configuration, the
    timers, the handle of the periodic timer and the notifier are
    untouched, and the object has a [lastChecked] stamp afterwards. *)
Theorem check_touches_only_its_plugin (host : Host) (w : World host)
    (plugin : ref) (latestVersion : option string) (p : Plugin.t) :
  heap w !! plugin = Some p ->
  exists (w' : World host) (p' : Plugin.t),
    checkPluginUpdate host plugin latestVersion w = (inr tt, w') /\
    heap w' !! plugin = Some p' /\
    length (heap w') = length (heap w) /\
    (forall other : ref, other <> plugin -> heap w' !! other = heap w !! other) /\
    (Plugin.name p' = Plugin.name p /\ Plugin.owner p' = Plugin.owner p /\
     Plugin.repo p' = Plugin.repo p /\ Plugin.filePath p' = Plugin.filePath p /\
     Plugin.log p' = Plugin.log p /\ Plugin.disabled p' = Plugin.disabled p) /\
    (registeredPlugins w' = registeredPlugins w /\ config w' = config w /\
     timers w' = timers w /\ updateInterval w' = updateInterval w /\
     isInitialized w' = isInitialized w /\ discordNotifier w' = discordNotifier w) /\
    (exists stamp, Plugin.lastChecked p' = Some stamp).
Proof.
  intros H.
  destruct (checkPluginUpdate_frame host plugin latestVersion w p H)
    as (w' & p' & Hrun & Hheap & Hid & Hstatic & _ & Hstamp & _).
  exists w', p'. split; [exact Hrun|].
  split; [rewrite Hheap; eapply lookup_assigned; exact H|].
  split; [rewrite Hheap; apply length_insert|].
  split; [|auto].
  intros other Hother. rewrite Hheap. apply list_lookup_insert_ne. congruence.
Qed.

Lemma check_touches_only_its_plugin_witness :
  exists (w' : World (Demo.host Demo.network)) (p' : Plugin.t),
    checkPluginUpdate (Demo.host Demo.network) 0%nat None
      (Demo.registered (Demo.host Demo.network) Demo.disk0) = (inr tt, w') /\
    heap w' !! 0%nat = Some p' /\ Plugin.name p' = "A".
Proof.
  assert (Hlook : heap (Demo.registered (Demo.host Demo.network) Demo.disk0) !! 0%nat
                  = Some (Plugin.mk "A" "v1.0.0" "owner" "repo" Demo.pluginPath
                            ConsoleLog false None None None None None))
    by (vm_compute; reflexivity).
  destruct (check_touches_only_its_plugin (Demo.host Demo.network) _ 0%nat None _ Hlook)
    as (w' & p' & Hrun & Hget & _ & _ & (Hname & _) & _).
  exists w', p'. split; [exact Hrun|]. split; [exact Hget|]. exact Hname.
Defined.

(** X11: a check with a given version that is not newer than the
    plugin's version changes nothing outside the plugin object and the
    summary: no request, no write to the disk, no transaction and no
    notification. In the object it records the version seen, the time
    and a cleared error; the installed version, [needsUpdate] (which is
    not reset) and [lastUpdated] are as before. The plugin is marked as
    checked and one line is logged. *)
Theorem up_to_date_plugin_is_left_alone (host : Host) (w : World host)
    (plugin : ref) (latest : string) (p : Plugin.t) :
  heap w !! plugin = Some p ->
  latest <> "" ->
  0 <= compareVersions (Some (Plugin.version p)) (Some latest) ->
  exists (w' : World host) (p' : Plugin.t),
    checkPluginUpdate host plugin (Some latest) w = (inr tt, w') /\
    heap w' = <[plugin := p']> (heap w) /\
    (Plugin.version p' = Plugin.version p /\
     Plugin.needsUpdate p' = Plugin.needsUpdate p /\
     Plugin.lastUpdated p' = Plugin.lastUpdated p) /\
    (Plugin.latestVersion p' = Some latest /\
     Plugin.lastChecked p' = Some (clock w) /\
     Plugin.error p' = None) /\
    (requests w' = requests w /\ disk w' = disk w /\
     transactions w' = transactions w /\ notified w' = notified w) /\
    updateSummary w' = addChecked (Plugin.name p) (updateSummary w) /\
    console w' =
      (console w ++
         [if 0 <? compareVersions (Some (Plugin.version p)) (Some latest)
          then MsgNewerThanLatest (Plugin.name p) (Plugin.version p) latest
          else MsgUpToDate (Plugin.name p) (Plugin.version p)])%list.
Proof.
  intros H Hne Hcmp.
  pose proof (fun q => lookup_assigned (heap w) plugin p q H) as Hq.
  destruct w as [h rp us ui ii dn cf dk tm ck cs rq nt tx]; simpl in H, Hq.
  unfold checkPluginUpdate, checkPluginUpdateTry.
  destruct (String.eqb latest "") eqn:Hs;
    [apply String.eqb_eq in Hs; contradiction|].
  unfold JsString.truthy; rewrite Hs; js_heap H Hq.
  unfold JsString.if_truthy; rewrite ?Hs; js_heap H Hq.
  destruct (compareVersions (Some (Plugin.version p)) (Some latest) <? 0) eqn:Hlt;
    [apply Z.ltb_lt in Hlt; lia|].
  js_heap H Hq.
  destruct (0 <? compareVersions (Some (Plugin.version p)) (Some latest));
    js_heap H Hq;
    do 2 eexists; (split; [reflexivity|]); simpl;
    (split; [reflexivity|]); repeat split; reflexivity.
Qed.

Lemma up_to_date_plugin_is_left_alone_witness :
  exists (w' : World (Demo.host Demo.offline)),
    checkPluginUpdate (Demo.host Demo.offline) 0%nat (Some "v1.0")
      (Demo.registered (Demo.host Demo.offline) Demo.disk0) = (inr tt, w') /\
    requests w' = [] /\ transactions w' = [].
Proof.
  assert (Hlook : heap (Demo.registered (Demo.host Demo.offline) Demo.disk0) !! 0%nat
                  = Some (Plugin.mk "A" "v1.0.0" "owner" "repo" Demo.pluginPath
                            ConsoleLog false None None None None None))
    by (vm_compute; reflexivity).
  assert (Hne : "v1.0" <> "") by discriminate.
  assert (Hcmp : 0 <= compareVersions (Some "v1.0.0") (Some "v1.0"))
    by (vm_compute; discriminate).
  destruct (up_to_date_plugin_is_left_alone (Demo.host Demo.offline) _ 0%nat "v1.0" _
              Hlook Hne Hcmp)
    as (w' & p' & Hrun & _ & _ & _ & (Hreq & _ & Htx & _) & _).
  exists w'. split; [exact Hrun|]. split; [exact Hreq|exact Htx].
Defined.


(** The notifier is called after the version of the plugin has been
    set, and what it throws is caught by the check. *)
Lemma notifier_outcome (host : Host) (w : World host)
    (plugin : ref) (latestVersion : option string) (p : Plugin.t)
    (notifier : Notifier) :
  heap w !! plugin = Some p ->
  discordNotifier w = Some notifier ->
  exists (w' : World host) (p' : Plugin.t),
    checkPluginUpdate host plugin latestVersion w = (inr tt, w') /\
    heap w' !! plugin = Some p' /\
    forall (latest : string) (result : UpdateResult.t) (e : Exn),
      transactions w' = (transactions w ++ [mkTransaction plugin latest result])%list ->
      UpdateResult.updated result = true ->
      notifier (mkNotification (Plugin.name p) (Some (Plugin.version p)) latest
                  (UpdateResult.backupPath result)) = Some e ->
      Plugin.version p' = latest /\
      Plugin.needsUpdate p' = false /\
      Plugin.error p' = Some (message e) /\
      updateSummary w' = updateSummary w /\
      exists c, console w' = (c ++ [MsgCheckError (Plugin.name p) (message e)])%list.
Proof.
  intros H Hdn.
  pose proof (fun q => lookup_assigned (heap w) plugin p q H) as Hq.
  destruct w as [h rp us ui ii dn cf dk tm ck cs rq nt tx]; simpl in H, Hq, Hdn.
  subst dn.
  unfold checkPluginUpdate, checkPluginUpdateTry.
  js_heap H Hq.
  destruct (JsString.truthy latestVersion) eqn:Ht; js_heap H Hq.
  2: match goal with
     | |- context [getLatestVersion ?hh ?o ?r ?w1] =>
         destruct (getLatestVersion_total hh o r w1) as (v & c0 & ->); js_heap H Hq
     end.
  all: match goal with
       | |- context [JsString.if_truthy ?x] =>
           destruct (JsString.if_truthy x) as [latest0|]; js_heap H Hq
       end.
  all: try match goal with
       | |- context [compareVersions ?a ?b <? 0] =>
           destruct (compareVersions a b <? 0); js_heap H Hq;
           [|destruct (0 <? compareVersions a b); js_heap H Hq]
       end.
  all: try match goal with
       | |- context [performPluginUpdate ?hh ?pl ?la ?w1] =>
           edestruct (performPluginUpdate_total hh pl la w1)
             as (result0 & d & c & Hrun & Hresult); [simpl; apply Hq|];
           rewrite Hrun; clear Hrun;
           destruct Hresult as [[b ->]|[e0 ->]]; js_heap H Hq
       end.
  all: try match goal with
       | |- context [match ?f ?n with Some _ => _ | None => _ end] =>
           destruct (f n) as [e1|] eqn:Hn; js_heap H Hq
       end.
  all: do 2 eexists; (split; [reflexivity|]); simpl; (split; [apply Hq|]);
       intros latest result e Htx Hup Hcall.
  all: try (exfalso; exact (snoc_not_self _ _ Htx)).
  all: apply app_inj_tail in Htx as [_ Htx]; injection Htx as <- <-;
       try discriminate Hup; simpl in Hcall.
  all: rewrite Hn in Hcall; try discriminate Hcall; injection Hcall as <-.
  all: repeat split; try reflexivity; eexists; reflexivity.
Qed.

(** X12: the notifier is called inside the [try] of the check. When the
    transaction of a check has succeeded and the notifier then throws,
    the update stays applied (the version is the target and
    [needsUpdate] is false), but the check ends in its [catch]: the
    error of the notifier is recorded on the plugin object and logged
    as a check error, and the plugin is not marked as checked. *)
Theorem failing_notifier_is_a_check_error (host : Host) (w w' : World host)
    (plugin : ref) (latestVersion : option string) (p : Plugin.t)
    (notifier : Notifier) (latest : string) (result : UpdateResult.t) (e : Exn) :
  heap w !! plugin = Some p ->
  discordNotifier w = Some notifier ->
  checkPluginUpdate host plugin latestVersion w = (inr tt, w') ->
  transactions w' = (transactions w ++ [mkTransaction plugin latest result])%list ->
  UpdateResult.updated result = true ->
  notifier (mkNotification (Plugin.name p) (Some (Plugin.version p)) latest
              (UpdateResult.backupPath result)) = Some e ->
  exists p' : Plugin.t,
    heap w' !! plugin = Some p' /\
    Plugin.version p' = latest /\
    Plugin.needsUpdate p' = false /\
    Plugin.error p' = Some (message e) /\
    updateSummary w' = updateSummary w /\
    exists c, console w' = (c ++ [MsgCheckError (Plugin.name p) (message e)])%list.
Proof.
  intros H Hdn Hrun Htx Hup Hcall.
  destruct (notifier_outcome host w plugin latestVersion p notifier H Hdn)
    as (w0 & p' & Hrun0 & Hget & Hall).
  rewrite Hrun in Hrun0. injection Hrun0 as <-.
  exists p'. split; [exact Hget|].
  exact (Hall latest result e Htx Hup Hcall).
Qed.

Lemma failing_notifier_is_a_check_error_witness :
  let h := Demo.host Demo.network in
  let w := snd (setDiscordNotifier h (fun _ => Some (Error "webhook unreachable"))
                  (Demo.registered h Demo.disk0)) in
  let w' := snd (checkPluginUpdate h 0%nat None w) in
  exists p' : Plugin.t,
    heap w' !! 0%nat = Some p' /\
    Plugin.version p' = "v1.5.0" /\
    Plugin.error p' = Some "webhook unreachable" /\
    updateSummary w' = updateSummary w.
Proof.
  intros h w w'.
  destruct (failing_notifier_is_a_check_error h w w' 0%nat None
              (Plugin.mk "A" "v1.0.0" "owner" "repo" Demo.pluginPath ConsoleLog
                 false None None None None None)
              (fun _ => Some (Error "webhook unreachable")) "v1.5.0"
              (UpdateResult.mk true (Some "v1.5.0") (Some "v1.0.0")
                 (Some "/srv/squadjs/BACKUP-Plugins/A/a.js.backup") None)
              (Error "webhook unreachable"))
    as (p' & Hp' & Hv & _ & He & Hs & _);
    try (vm_compute; reflexivity).
  exists p'. repeat split; assumption.
Defined.

(* ===================================================================== *)
(** * Further properties of the check of a repository *)
(* ===================================================================== *)

Section RepositoryFacts.

Variable host : Host.
Implicit Types (w : World host) (plugin : ref) (p : Plugin.t).

Lemma addChecked_keeps (x name : string) (s : Summary.t) :
  In name (Summary.pluginsChecked s) ->
  In name (Summary.pluginsChecked (addChecked x s)).
Proof.
  intros H. unfold addChecked.
  destruct (includes (Summary.pluginsChecked s) x); simpl; [exact H|].
  apply in_or_app. left. exact H.
Qed.

(** The loop over the plugins of a repository, with the version the
    repository answered. Every plugin of the list is checked, whatever
    happens to the ones before it; the loop makes no request for a
    release. *)
Lemma check_members (latest : string) (plugins : list ref) :
  latest <> "" ->
  forall w,
    Forall (fun r : ref => is_Some (heap w !! r)) plugins ->
    exists w' : World host,
      for_of host plugins (fun plugin => checkPluginUpdate host plugin (Some latest)) w
        = (inr tt, w') /\
      length (heap w') = length (heap w) /\
      (forall r : ref, ~ In r plugins -> heap w' !! r = heap w !! r) /\
      (forall (r : ref) p, heap w !! r = Some p ->
         exists p', heap w' !! r = Some p' /\
           Plugin.name p' = Plugin.name p /\ Plugin.owner p' = Plugin.owner p /\
           Plugin.repo p' = Plugin.repo p /\ Plugin.filePath p' = Plugin.filePath p) /\
      (forall r : ref, In r plugins ->
         exists p', heap w' !! r = Some p' /\
           Plugin.latestVersion p' = Some latest /\
           exists stamp, Plugin.lastChecked p' = Some stamp) /\
      (registeredPlugins w' = registeredPlugins w /\ config w' = config w /\
       timers w' = timers w /\ updateInterval w' = updateInterval w /\
       isInitialized w' = isInitialized w /\ discordNotifier w' = discordNotifier w) /\
      (exists extra : list string,
         requests w' = (requests w ++ extra)%list /\
         Forall (fun url => is_release_request url = false) extra /\
         (length extra <= length plugins)%nat) /\
      (summary_wf (updateSummary w) -> summary_wf (updateSummary w')) /\
      (forall name : string,
         In name (Summary.pluginsChecked (updateSummary w)) ->
         In name (Summary.pluginsChecked (updateSummary w'))).
Proof.
  intros Hne. induction plugins as [|x rest IH]; intros w Hvalid.
  - exists w. split; [reflexivity|]. split; [reflexivity|].
    split; [reflexivity|]. split; [intros r p Hr; exists p; auto|].
    split; [intros r []|]. split; [auto 10|].
    split; [exists []; split; [symmetry; apply app_nil_r|split; [constructor|reflexivity]]|].
    split; auto.
  - apply Forall_cons in Hvalid as [[p Hx] Hrest].
    destruct (checkPluginUpdate_frame host x (Some latest) w p Hx)
      as (w1 & p1 & Hrun1 & Hheap1 & (Hn1 & Ho1 & Hr1 & Hf1 & _) & Hstatic1 & Hsum1
          & Hstamp1 & Hgiven1).
    destruct (Hgiven1 latest eq_refl Hne) as [Hlatest1 Hreq1].
    assert (Hlen1 : length (heap w1) = length (heap w))
      by (rewrite Hheap1; apply length_insert).
    assert (Hvalid1 : Forall (fun r : ref => is_Some (heap w1 !! r)) rest).
    { eapply Forall_impl; [exact Hrest|]. intros r Hr. simpl in Hr.
      apply lookup_lt_is_Some. rewrite Hlen1. apply lookup_lt_is_Some. exact Hr. }
    destruct (IH w1 Hvalid1)
      as (w' & Hrun & Hlen & Hout & Hname & Hin & Hstatic
          & (extra & Hreq & Hextra & Hcount) & Hwf & Hkeep).
    exists w'.
    split; [simpl; unfold mbind, M_bind; rewrite Hrun1; exact Hrun|].
    split; [congruence|].
    assert (Hx1 : heap w1 !! x = Some p1)
      by (rewrite Hheap1; eapply lookup_assigned; exact Hx).
    split; [|split; [|split; [|split; [|split; [|split]]]]].
    + intros r Hr. rewrite Hout by (intros Hin'; apply Hr; right; exact Hin').
      rewrite Hheap1. apply list_lookup_insert_ne. intros ->. apply Hr. left. reflexivity.
    + intros r q Hq. destruct (Nat.eq_dec r x) as [->|Hrx].
      * rewrite Hx in Hq. injection Hq as <-.
        destruct (Hname x p1 Hx1) as (p' & Hp' & Hn & Ho & Hr & Hf).
        exists p'. split; [exact Hp'|]. repeat split; congruence.
      * apply Hname. rewrite Hheap1, list_lookup_insert_ne by congruence. exact Hq.
    + intros r Hr. destruct (in_dec Nat.eq_dec r rest) as [Hin'|Hnot].
      * apply Hin. exact Hin'.
      * destruct Hr as [<-|Hr]; [|contradiction].
        exists p1. rewrite Hout by exact Hnot. split; [exact Hx1|].
        split; [exact Hlatest1|exact Hstamp1].
    + destruct Hstatic1 as (? & ? & ? & ? & ? & ?).
      destruct Hstatic as (? & ? & ? & ? & ? & ?).
      repeat split; congruence.
    + destruct Hreq1 as [Hreq1|Hreq1]; rewrite Hreq, Hreq1.
      * exists extra. split; [reflexivity|]. split; [exact Hextra|]. simpl. lia.
      * exists (artifactUrl host p latest :: extra).
        split; [rewrite <- app_assoc; reflexivity|].
        split; [constructor; [apply artifact_is_not_release|exact Hextra]|].
        simpl. lia.
    + intros Hs. apply Hwf. destruct Hsum1 as [->| ->]; [exact Hs|].
      apply addChecked_wf. exact Hs.
    + intros name Hin'. apply Hkeep. destruct Hsum1 as [->| ->]; [exact Hin'|].
      apply addChecked_keeps. exact Hin'.
Qed.

(** The check of a repository never throws and keeps what the registry
    relies on, whatever the network and the disk do. *)
Lemma checkRepositoryUpdates_frame (repoKey : string) (plugins : list ref) w :
  Forall (fun r : ref => is_Some (heap w !! r)) plugins ->
  exists w' : World host,
    checkRepositoryUpdates host repoKey plugins w = (inr tt, w') /\
    length (heap w') = length (heap w) /\
    (forall (r : ref) p, heap w !! r = Some p ->
       exists p', heap w' !! r = Some p' /\
         Plugin.name p' = Plugin.name p /\ Plugin.owner p' = Plugin.owner p /\
         Plugin.repo p' = Plugin.repo p /\ Plugin.filePath p' = Plugin.filePath p) /\
    (registeredPlugins w' = registeredPlugins w /\ config w' = config w /\
     timers w' = timers w /\ updateInterval w' = updateInterval w /\
     isInitialized w' = isInitialized w /\ discordNotifier w' = discordNotifier w) /\
    ((summary_wf (updateSummary w) -> summary_wf (updateSummary w')) /\
     forall name : string,
       In name (Summary.pluginsChecked (updateSummary w)) ->
       In name (Summary.pluginsChecked (updateSummary w'))) /\
    (exists extra : list string,
       requests w' =
         (requests w ++
            releaseUrl (interpolate (JsString.split "/" repoKey !! 0%nat))
              (interpolate (JsString.split "/" repoKey !! 1%nat)) :: extra)%list /\
       Forall (fun url => is_release_request url = false) extra /\
       (length extra <= length plugins)%nat).
Proof.
  intros Hvalid. unfold checkRepositoryUpdates. js_run.
  match goal with
  | |- context [getLatestVersion host ?o ?r w] =>
      destruct (getLatestVersion_total host o r w) as (v & c & ->)
  end.
  destruct v as [tag|]; [destruct (String.eqb tag "") eqn:Htag|].
  2: { apply String.eqb_neq in Htag.
       unfold JsString.truthy. rewrite (proj2 (String.eqb_neq _ _) Htag). simpl.
       match goal with
       | |- context [for_of host plugins ?body ?w1] =>
           destruct (check_members tag plugins Htag w1)
             as (w' & Hrun & Hlen & _ & Hname & _ & Hstatic
                 & (extra & Hreq & Hextra & Hcount) & Hwf & Hkeep);
           [destruct w; exact Hvalid|]
       end.
       rewrite Hrun. exists w'. split; [reflexivity|].
       destruct w. simpl in *.
       do 3 (split; [auto|]). split; [split; auto|]. exists extra.
       split; [rewrite Hreq, <- app_assoc; reflexivity|].
       split; [exact Hextra|exact Hcount]. }
  all: unfold JsString.truthy; rewrite ?Htag; js_run;
       eexists; (split; [reflexivity|]); destruct w; simpl;
       (split; [reflexivity|]);
       (split; [intros r p Hr; exists p; auto|]);
       (split; [auto 10|]); (split; [split; auto|]);
       exists []; split; [reflexivity|split; [constructor|simpl; lia]].
Qed.

End RepositoryFacts.

(** X13: when the repository answers a release, the check of the
    repository checks every plugin of its list, whatever happens to the
    others: each one has the release as [latestVersion] and a
    [lastChecked] stamp afterwards, an update of one that fails does not
    stop the loop, and the objects outside the list are untouched. *)
Theorem repository_check_reaches_every_member (host : Host) (w : World host)
    (repoKey : string) (plugins : list ref) (tag : string) :
  Forall (fun r : ref => is_Some (heap w !! r)) plugins ->
  axios_get host (length (requests w))
    (releaseUrl (interpolate (JsString.split "/" repoKey !! 0%nat))
       (interpolate (JsString.split "/" repoKey !! 1%nat)))
    = inr (Release (Some tag)) ->
  tag <> "" ->
  exists w' : World host,
    checkRepositoryUpdates host repoKey plugins w = (inr tt, w') /\
    (forall r : ref, ~ In r plugins -> heap w' !! r = heap w !! r) /\
    (forall r : ref, In r plugins ->
       exists p', heap w' !! r = Some p' /\
         Plugin.latestVersion p' = Some tag /\
         exists stamp, Plugin.lastChecked p' = Some stamp).
Proof.
  intros Hvalid Hnet Htag. unfold checkRepositoryUpdates. js_run.
  unfold getLatestVersion, axios_get_. js_run. rewrite Hnet. js_run.
  unfold tagOf, JsString.truthy.
  repeat (rewrite (proj2 (String.eqb_neq _ _) Htag); simpl).
  match goal with
  | |- context [for_of host plugins ?body ?w1] =>
      destruct (check_members host tag plugins Htag w1)
        as (w' & Hrun & _ & Hout & _ & Hin & _);
      [destruct w; exact Hvalid|]
  end.
  rewrite Hrun. exists w'. split; [reflexivity|].
  destruct w. simpl in *. auto.
Qed.

Lemma repository_check_reaches_every_member_witness :
  let h := Demo.host Demo.network in
  let w := snd (registerPlugin h "B" "v1.5.0" "owner" "repo" "/srv/squadjs/plugins/b.js"
                  None (Demo.registered h Demo.empty_disk)) in
  exists w' : World h,
    checkRepositoryUpdates h "owner/repo" [0%nat; 1%nat] w = (inr tt, w') /\
    (exists p', heap w' !! 0%nat = Some p' /\ Plugin.latestVersion p' = Some "v1.5.0") /\
    (exists p', heap w' !! 1%nat = Some p' /\ Plugin.latestVersion p' = Some "v1.5.0").
Proof.
  intros h w.
  assert (Hvalid : Forall (fun r : ref => is_Some (heap w !! r)) [0%nat; 1%nat])
    by (repeat constructor; vm_compute; eexists; reflexivity).
  assert (Hnet : axios_get h (length (requests w))
                   (releaseUrl (interpolate (JsString.split "/" "owner/repo" !! 0%nat))
                      (interpolate (JsString.split "/" "owner/repo" !! 1%nat)))
                 = inr (Release (Some "v1.5.0")))
    by (vm_compute; reflexivity).
  assert (Htag : "v1.5.0" <> "") by discriminate.
  destruct (repository_check_reaches_every_member h w "owner/repo" [0%nat; 1%nat]
              "v1.5.0" Hvalid Hnet Htag)
    as (w' & Hrun & _ & Hin).
  exists w'. split; [exact Hrun|]. split.
  - destruct (Hin 0%nat) as (p' & Hp' & Hl & _); [left; reflexivity|].
    exists p'. split; assumption.
  - destruct (Hin 1%nat) as (p' & Hp' & Hl & _); [right; left; reflexivity|].
    exists p'. split; assumption.
Defined.

(** X14: the check of a repository asks for the latest release once,
    first, whatever the number of plugins in its list: every other
    request it makes is a request for a raw file. It never throws. *)
Theorem repository_check_asks_once (host : Host) (w : World host)
    (repoKey : string) (plugins : list ref) :
  Forall (fun r : ref => is_Some (heap w !! r)) plugins ->
  exists (w' : World host) (extra : list string),
    checkRepositoryUpdates host repoKey plugins w = (inr tt, w') /\
    requests w' =
      (requests w ++
         releaseUrl (interpolate (JsString.split "/" repoKey !! 0%nat))
           (interpolate (JsString.split "/" repoKey !! 1%nat)) :: extra)%list /\
    is_release_request
      (releaseUrl (interpolate (JsString.split "/" repoKey !! 0%nat))
         (interpolate (JsString.split "/" repoKey !! 1%nat))) = true /\
    Forall (fun url => is_release_request url = false) extra /\
    (length extra <= length plugins)%nat.
Proof.
  intros Hvalid.
  destruct (checkRepositoryUpdates_frame host repoKey plugins w Hvalid)
    as (w' & Hrun & _ & _ & _ & _ & extra & Hreq & Hextra & Hcount).
  exists w', extra. split; [exact Hrun|]. split; [exact Hreq|].
  split; [apply release_is_release|]. split; assumption.
Qed.

Lemma repository_check_asks_once_witness :
  let h := Demo.host Demo.network in
  let w := snd (registerPlugin h "B" "v1.0.0" "owner" "repo" "/srv/squadjs/plugins/b.js"
                  None (Demo.registered h Demo.disk0)) in
  exists (w' : World h) (extra : list string),
    checkRepositoryUpdates h "owner/repo" [0%nat; 1%nat] w = (inr tt, w') /\
    requests w' = "https://api.github.com/repos/owner/repo/releases/latest" :: extra /\
    Forall (fun url => is_release_request url = false) extra.
Proof.
  intros h w.
  assert (Hvalid : Forall (fun r : ref => is_Some (heap w !! r)) [0%nat; 1%nat])
    by (repeat constructor; vm_compute; eexists; reflexivity).
  destruct (repository_check_asks_once h w "owner/repo" [0%nat; 1%nat] Hvalid)
    as (w' & extra & Hrun & Hreq & _ & Hextra & _).
  exists w', extra. split; [exact Hrun|]. split; [exact Hreq|exact Hextra].
Defined.


(* ===================================================================== *)
(** * Further properties of the cycle *)
(* ===================================================================== *)

Section SplitFacts.

Lemma includes_char_app (c : ascii) (s t : string) :
  JsString.includes_char c (s ++ t) =
  JsString.includes_char c s || JsString.includes_char c t.
Proof.
  induction s as [|a s IH]; simpl; [reflexivity|].
  rewrite IH. apply orb_assoc.
Qed.

Lemma existsb_rev {A} (f : A -> bool) (l : list A) :
  existsb f (rev l) = existsb f l.
Proof.
  induction l as [|a l IH]; simpl; [reflexivity|].
  rewrite existsb_app, IH. simpl. rewrite orb_false_r. apply orb_comm.
Qed.

Lemma includes_char_of_list (c : ascii) (l : list ascii) :
  JsString.includes_char c (string_of_list_ascii l) = existsb (fun a => Ascii.eqb a c) l.
Proof. induction l as [|a l IH]; simpl; [reflexivity|]. rewrite IH. reflexivity. Qed.

(** No piece of [s.split(c)] holds a [c]. *)
Lemma split_from_pieces (c : ascii) (s : string) : forall cur : list ascii,
  existsb (fun a => Ascii.eqb a c) cur = false ->
  Forall (fun piece => JsString.includes_char c piece = false)
    (JsString.split_from c cur s).
Proof.
  induction s as [|a s IH]; intros cur Hcur; simpl.
  - constructor; [|constructor]. rewrite includes_char_of_list, existsb_rev.
    exact Hcur.
  - destruct (Ascii.eqb a c) eqn:E.
    + constructor; [|apply IH; reflexivity].
      rewrite includes_char_of_list, existsb_rev. exact Hcur.
    + apply IH. simpl. rewrite E. exact Hcur.
Qed.

Lemma split_from_clean (c : ascii) (s : string) : forall cur : list ascii,
  JsString.includes_char c s = false ->
  JsString.split_from c cur s =
    [string_of_list_ascii (rev cur ++ list_ascii_of_string s)].
Proof.
  induction s as [|a s IH]; intros cur Hs; simpl in *.
  - rewrite app_nil_r. reflexivity.
  - apply orb_false_iff in Hs as [Ha Hs]. rewrite Ha, IH by exact Hs.
    simpl. rewrite <- app_assoc. reflexivity.
Qed.

Lemma split_from_first (c : ascii) (s t : string) : forall cur : list ascii,
  JsString.includes_char c s = false ->
  JsString.split_from c cur (s ++ String c t) =
    string_of_list_ascii (rev cur ++ list_ascii_of_string s)
      :: JsString.split_from c [] t.
Proof.
  induction s as [|a s IH]; intros cur Hs; simpl in *.
  - rewrite Ascii.eqb_refl, app_nil_r. reflexivity.
  - apply orb_false_iff in Hs as [Ha Hs]. rewrite Ha, IH by exact Hs.
    simpl. rewrite <- app_assoc. reflexivity.
Qed.

Lemma split_from_cons (c : ascii) (s : string) (cur : list ascii) :
  exists (first : string) (rest : list string),
    JsString.split_from c cur s = first :: rest.
Proof.
  revert cur. induction s as [|a s IH]; intros cur; simpl.
  - eauto.
  - destruct (Ascii.eqb a c); [eauto|apply IH].
Qed.

End SplitFacts.

(** X15: the key of a repository group is built as [owner/repo] and
    taken apart again with [split('/')]. The owner and the repository
    that the check of the group asks the release of are the plugin's own
    exactly when neither of them holds a slash. *)
Theorem repoKey_round_trip (owner repo : string) :
  let parts := JsString.split "/" (owner ++ "/" ++ repo) in
  (interpolate (parts !! 0%nat) = owner /\ interpolate (parts !! 1%nat) = repo) <->
  (JsString.includes_char "/" owner = false /\
   JsString.includes_char "/" repo = false).
Proof.
  intros parts. subst parts. unfold JsString.split. split.
  - intros [Ho Hr].
    pose proof (split_from_pieces "/" (owner ++ "/" ++ repo) [] eq_refl) as Hpieces.
    destruct (split_from_cons "/" (owner ++ "/" ++ repo) []) as (first & rest & E).
    rewrite E in Ho, Hr, Hpieces. simpl in Ho. subst first.
    apply Forall_cons in Hpieces as [Howner _].
    split; [exact Howner|].
    change (owner ++ "/" ++ repo)%string with (owner ++ String "/" repo)%string in E.
    rewrite (split_from_first "/" owner repo [] Howner) in E.
    injection E as _ <-.
    pose proof (split_from_pieces "/" repo [] eq_refl) as Hrepo.
    destruct (split_from_cons "/" repo []) as (second & rest & E).
    rewrite E in Hr, Hrepo. simpl in Hr. subst second.
    apply Forall_cons in Hrepo as [Hrepo _]. exact Hrepo.
  - intros [Ho Hr].
    change (owner ++ "/" ++ repo)%string with (owner ++ String "/" repo)%string.
    rewrite (split_from_first "/" owner repo [] Ho), (split_from_clean "/" repo [] Hr).
    simpl. rewrite !string_of_list_ascii_of_string. split; reflexivity.
Qed.

Lemma repoKey_round_trip_witness :
  interpolate (JsString.split "/" ("Armyrat60" ++ "/" ++ "SquadJS-updateManger") !! 0%nat)
    = "Armyrat60" /\
  interpolate (JsString.split "/" ("Armyrat60" ++ "/" ++ "SquadJS-updateManger") !! 1%nat)
    = "SquadJS-updateManger".
Proof.
  apply (proj2 (repoKey_round_trip "Armyrat60" "SquadJS-updateManger")).
  split; reflexivity.
Defined.


Section GroupFacts.

Lemma get_In {V} (k : string) (m : JsMap.t V) (v : V) :
  JsMap.get k m = Some v -> In (k, v) m.
Proof.
  induction m as [|[k' v'] m IH]; simpl; [discriminate|].
  destruct (String.eqb_spec k' k) as [->|Hne].
  - intros [= ->]. left. reflexivity.
  - intros H. right. apply IH. exact H.
Qed.

Lemma In_set {V} (k : string) (v : V) (m : JsMap.t V) (key : string) (x : V) :
  In (key, x) (JsMap.set k v m) -> (key = k /\ x = v) \/ In (key, x) m.
Proof.
  induction m as [|[k' v'] m IH]; simpl.
  - intros [[= <- <-]|[]]. left. split; reflexivity.
  - destruct (String.eqb_spec k' k) as [->|Hne]; simpl.
    + intros [[= <- <-]|H]; [left; split; reflexivity|right; right; exact H].
    + intros [H|H]; [right; left; exact H|].
      destruct (IH H) as [?|?]; [left; assumption|right; right; assumption].
Qed.

(** [repos.get(key).push(r)] adds [r] to the members, once. *)
Lemma concat_push (k : string) (r : ref) (m : JsMap.t (list ref)) :
  Permutation
    (concat (JsMap.values
               (JsMap.set k (default [] (JsMap.get k m) ++ [r])%list m)))
    (r :: concat (JsMap.values m)).
Proof.
  induction m as [|[k' v'] m IH]; simpl.
  - reflexivity.
  - destruct (String.eqb k' k); simpl.
    + rewrite <- app_assoc. symmetry. apply Permutation_middle.
    + rewrite IH. symmetry. apply Permutation_middle.
Qed.

Lemma groups_size (m : JsMap.t (list ref)) :
  (forall (key : string) (members : list ref), In (key, members) m -> members <> []) ->
  (JsMap.size m <= length (concat (JsMap.values m)))%nat.
Proof.
  unfold JsMap.size. induction m as [|[k v] m IH]; simpl; intros H; [lia|].
  rewrite length_app.
  assert (v <> []) by (apply (H k); left; reflexivity).
  assert (length m <= length (concat (JsMap.values m)))%nat
    by (apply IH; intros key members Hin; apply (H key); right; exact Hin).
  destruct v; [congruence|simpl; lia].
Qed.

(** The grouping loop, from any point on. *)
Lemma groupByRepo_inv (h : list Plugin.t) (entries : JsMap.t ref) :
  forall (repos : JsMap.t (list ref)) (done : list ref),
    Forall (fun entry : string * ref => is_Some (h !! snd entry)) entries ->
    NoDup (JsMap.keys repos) ->
    Permutation (concat (JsMap.values repos)) done ->
    (forall (key : string) (members : list ref), In (key, members) repos ->
       members <> [] /\
       forall r : ref, In r members ->
         exists p, h !! r = Some p /\ (Plugin.owner p ++ "/" ++ Plugin.repo p)%string = key) ->
    exists repos' : JsMap.t (list ref),
      groupByRepo h repos entries = inr repos' /\
      NoDup (JsMap.keys repos') /\
      Permutation (concat (JsMap.values repos')) (done ++ JsMap.values entries) /\
      (forall (key : string) (members : list ref), In (key, members) repos' ->
         members <> [] /\
         forall r : ref, In r members ->
           exists p, h !! r = Some p /\ (Plugin.owner p ++ "/" ++ Plugin.repo p)%string = key).
Proof.
  induction entries as [|[name r] entries IH]; intros repos done Hvalid Hkeys Hperm Hmem.
  - exists repos. simpl. rewrite app_nil_r. auto.
  - apply Forall_cons in Hvalid as [[p Hp] Hvalid]. simpl in Hp.
    simpl. unfold groupStep. simpl. rewrite Hp.
    destruct (IH (JsMap.set (Plugin.owner p ++ "/" ++ Plugin.repo p)
                    (default [] (JsMap.get (Plugin.owner p ++ "/" ++ Plugin.repo p) repos)
                       ++ [r])%list repos)
                 (done ++ [r])%list Hvalid)
      as (repos' & Hrun & Hkeys' & Hperm' & Hmem').
    + apply keys_set_NoDup. exact Hkeys.
    + rewrite concat_push, Hperm. apply Permutation_cons_append.
    + intros key members Hin. apply In_set in Hin as [[-> ->]|Hin]; [|apply Hmem; exact Hin].
      split; [destruct (default [] _); discriminate|].
      intros r' Hr'. apply in_app_or in Hr' as [Hr'|[<-|[]]]; [|exists p; auto].
      destruct (JsMap.get (Plugin.owner p ++ "/" ++ Plugin.repo p) repos) as [old|] eqn:Hget;
        [|destruct Hr'].
      apply get_In in Hget. apply (Hmem _ _ Hget). exact Hr'.
    + exists repos'. split; [exact Hrun|]. split; [exact Hkeys'|]. split; [|exact Hmem'].
      rewrite Hperm', <- app_assoc. reflexivity.
Qed.

End GroupFacts.

(** The grouping loop from the empty map. *)
Lemma groupByRepo_groups (h : list Plugin.t) (entries : JsMap.t ref) :
  Forall (fun entry : string * ref => is_Some (h !! snd entry)) entries ->
  exists repos : JsMap.t (list ref),
    groupByRepo h [] entries = inr repos /\
    NoDup (JsMap.keys repos) /\
    Permutation (concat (JsMap.values repos)) (JsMap.values entries) /\
    (forall (key : string) (members : list ref), In (key, members) repos ->
       members <> [] /\
       forall r : ref, In r members ->
         exists p, h !! r = Some p /\ (Plugin.owner p ++ "/" ++ Plugin.repo p)%string = key) /\
    (JsMap.size repos <= JsMap.size entries)%nat.
Proof.
  intros Hvalid.
  destruct (groupByRepo_inv h entries [] [] Hvalid) as (repos & Hrun & Hkeys & Hperm & Hmem).
  - constructor.
  - reflexivity.
  - intros key members [].
  - exists repos. simpl in Hperm. do 4 (split; [assumption|]).
    etransitivity; [apply groups_size; intros key members Hin; apply (Hmem key members Hin)|].
    rewrite (Permutation_length Hperm). unfold JsMap.size, JsMap.values.
    rewrite length_map. reflexivity.
Qed.

(** X16: the grouping of a cycle is a partition of the registered
    plugins by repository. When every entry of the registry points to an
    object, the loop ends with a map in which no key stands twice, every
    registered object is a member of exactly one group, a group is never
    empty and holds only objects whose [owner/repo] is its key; there are
    at most as many groups as plugins. *)
Theorem groupByRepo_partition (h : list Plugin.t) (entries : JsMap.t ref) :
  Forall (fun entry : string * ref => is_Some (h !! snd entry)) entries ->
  exists repos : JsMap.t (list ref),
    groupByRepo h [] entries = inr repos /\
    NoDup (JsMap.keys repos) /\
    Permutation (concat (JsMap.values repos)) (JsMap.values entries) /\
    (forall (key : string) (members : list ref), In (key, members) repos ->
       members <> [] /\
       forall r : ref, In r members ->
         exists p, h !! r = Some p /\ (Plugin.owner p ++ "/" ++ Plugin.repo p)%string = key) /\
    (JsMap.size repos <= JsMap.size entries)%nat.
Proof. apply groupByRepo_groups. Qed.

Lemma groupByRepo_partition_witness :
  let h := [Plugin.mk "A" "v1.0.0" "owner" "repo" "/srv/squadjs/plugins/a.js" ConsoleLog
              false None None None None None;
            Plugin.mk "B" "v2.0.0" "other" "tools" "/srv/squadjs/plugins/b.js" ConsoleLog
              false None None None None None;
            Plugin.mk "C" "v1.0.0" "owner" "repo" "/srv/squadjs/plugins/c.js" ConsoleLog
              false None None None None None] in
  let entries := [("A", 0%nat); ("B", 1%nat); ("C", 2%nat)] in
  exists repos : JsMap.t (list ref),
    groupByRepo h [] entries = inr repos /\
    NoDup (JsMap.keys repos) /\
    Permutation (concat (JsMap.values repos)) [0%nat; 1%nat; 2%nat].
Proof.
  intros h entries.
  assert (Hvalid : Forall (fun entry : string * ref => is_Some (h !! snd entry)) entries)
    by (repeat constructor; eexists; reflexivity).
  destruct (groupByRepo_partition h entries Hvalid)
    as (repos & Hrun & Hkeys & Hperm & _).
  exists repos. split; [exact Hrun|]. split; [exact Hkeys|exact Hperm].
Defined.

Section ScheduleFacts.

Variable host : Host.

(** The scheduling loop arms the timeouts of [staggered], and does
    nothing else. *)
Lemma scheduleRepos_timers (repos : JsMap.t (list ref)) :
  forall (delay : N) (w : World host),
    scheduleRepos host repos delay w =
      (inr tt,
       with_timers host
         (timers w ++ staggered (Config.staggerDelay (config w)) repos delay)%list w).
Proof.
  induction repos as [|[repoKey plugins] repos IH]; intros delay w; simpl.
  - rewrite app_nil_r. destruct w. reflexivity.
  - js_run. rewrite IH. destruct w. simpl. world_norm.
    rewrite <- app_assoc. reflexivity.
Qed.

End ScheduleFacts.

(** X17: a cycle checks nothing itself. With updates enabled and a
    registry that is not empty, [checkAllUpdates] groups the plugins and
    arms one timeout per group, the first at once and each next one
    [staggerDelay] later, in the order of the groups; it stamps
    [lastCheck], logs one line, and makes no request, writes no file and
    changes no plugin object. The names already marked as checked stay
    marked: the summary is not reset. *)
Theorem checkAllUpdates_schedules (host : Host) (w : World host) :
  Forall (fun entry : string * ref => is_Some (heap w !! snd entry))
    (registeredPlugins w) ->
  Config.enabled (config w) = true ->
  registeredPlugins w <> [] ->
  exists (repos : JsMap.t (list ref)) (w' : World host),
    groupByRepo (heap w) [] (registeredPlugins w) = inr repos /\
    checkAllUpdates host w = (inr tt, w') /\
    timers w' =
      (timers w ++ staggered (Config.staggerDelay (config w)) repos 0%N)%list /\
    (heap w' = heap w /\ registeredPlugins w' = registeredPlugins w /\
     requests w' = requests w /\ disk w' = disk w /\
     transactions w' = transactions w /\ notified w' = notified w /\
     config w' = config w /\ updateInterval w' = updateInterval w) /\
    (Summary.lastCheck (updateSummary w') = Some (clock w) /\
     Summary.pluginsChecked (updateSummary w') = Summary.pluginsChecked (updateSummary w) /\
     Summary.totalChecked (updateSummary w') = Summary.totalChecked (updateSummary w) /\
     Summary.pluginsUpdated (updateSummary w') = Summary.pluginsUpdated (updateSummary w) /\
     Summary.totalUpdated (updateSummary w') = Summary.totalUpdated (updateSummary w)) /\
    console w' =
      (console w ++ [MsgCheckingUpdates (JsMap.size (registeredPlugins w))])%list.
Proof.
  intros Hvalid Hen Hreg.
  destruct (groupByRepo_groups (heap w) (registeredPlugins w) Hvalid)
    as (repos & Hgroup & _).
  assert (Hsize : Nat.eqb (length (registeredPlugins w)) 0 = false)
    by (destruct (registeredPlugins w); [congruence|reflexivity]).
  exists repos. unfold checkAllUpdates. js_run. rewrite Hen. simpl.
  unfold JsMap.size. rewrite Hsize. simpl. rewrite Hgroup.
  rewrite scheduleRepos_timers. simpl.
  eexists. split; [reflexivity|]. split; [reflexivity|].
  destruct w. simpl. repeat split; reflexivity.
Qed.

Lemma checkAllUpdates_schedules_witness :
  let h := Demo.host Demo.network in
  let w := snd (registerPlugin h "B" "v2.0.0" "other" "tools" "/srv/squadjs/plugins/b.js"
                  None (Demo.registered h Demo.disk0)) in
  exists w' : World h,
    checkAllUpdates h w = (inr tt, w') /\
    timers w' =
      (timers w ++
         [mkTimer false 0 (CheckRepositoryUpdates "owner/repo" [0%nat]) false;
          mkTimer false 300000 (CheckRepositoryUpdates "other/tools" [1%nat]) false])%list /\
    requests w' = [].
Proof.
  intros h w.
  assert (Hentries : registeredPlugins w = [("A", 0%nat); ("B", 1%nat)])
    by (vm_compute; reflexivity).
  assert (Hvalid : Forall (fun entry : string * ref => is_Some (heap w !! snd entry))
                     (registeredPlugins w))
    by (rewrite Hentries; repeat constructor; vm_compute; eexists; reflexivity).
  assert (Hen : Config.enabled (config w) = true) by (vm_compute; reflexivity).
  assert (Hreg : registeredPlugins w <> []) by (vm_compute; discriminate).
  destruct (checkAllUpdates_schedules h w Hvalid Hen Hreg)
    as (repos & w' & Hgroup & Hrun & Htimers & (_ & _ & Hreq & _) & _).
  assert (Hrepos : groupByRepo (heap w) [] (registeredPlugins w)
                   = inr [("owner/repo", [0%nat]); ("other/tools", [1%nat])])
    by (vm_compute; reflexivity).
  rewrite Hrepos in Hgroup. injection Hgroup as <-.
  assert (Hstaggered :
            staggered (Config.staggerDelay (config w))
              [("owner/repo", [0%nat]); ("other/tools", [1%nat])] 0%N
            = [mkTimer false 0 (CheckRepositoryUpdates "owner/repo" [0%nat]) false;
               mkTimer false 300000 (CheckRepositoryUpdates "other/tools" [1%nat]) false])
    by (vm_compute; reflexivity).
  assert (Hnone : requests w = []) by (vm_compute; reflexivity).
  exists w'. split; [exact Hrun|]. split; [|rewrite Hreq; exact Hnone].
  rewrite Htimers, Hstaggered. reflexivity.
Defined.


(* ===================================================================== *)
(** * The states the program reaches *)
(* ===================================================================== *)

Section WfFacts.

Lemma one_interval_cancel_handle (id : nat) (ts : list Timer) :
  one_interval (Some id) ts -> one_interval None (alter cancel id ts).
Proof.
  intros [_ Hlive]. split; [discriminate|].
  intros i t Hi Ht. destruct (Nat.eq_dec i id) as [->|Hne].
  - rewrite list_lookup_alter_eq in Hi. apply fmap_Some in Hi as (t0 & E & ->). unfold live_interval in Ht. simpl in Ht.
    rewrite andb_false_r in Ht. discriminate.
  - rewrite list_lookup_alter_ne in Hi by congruence.
    pose proof (Hlive i t Hi Ht). congruence.
Qed.

Lemma one_interval_cancel (handle : option nat) (j : nat) (ts : list Timer) :
  one_interval handle ts -> one_interval handle (alter cancel j ts).
Proof.
  intros [Hhandle Hlive]. split.
  - intros id Hid. destruct (Hhandle id Hid) as (t & Ht & Hrep).
    destruct (Nat.eq_dec id j) as [->|Hne].
    + exists (cancel t). rewrite list_lookup_alter_eq, Ht. split; [reflexivity|exact Hrep].
    + exists t. rewrite list_lookup_alter_ne by congruence. split; assumption.
  - intros i t Hi Ht. destruct (Nat.eq_dec i j) as [->|Hne].
    + rewrite list_lookup_alter_eq in Hi. apply fmap_Some in Hi as (t0 & E & ->). unfold live_interval in Ht. simpl in Ht.
      rewrite andb_false_r in Ht. discriminate.
    + rewrite list_lookup_alter_ne in Hi by congruence. exact (Hlive i t Hi Ht).
Qed.

Lemma one_interval_arm (ts : list Timer) (ms : N) (tk : Task) :
  one_interval None ts ->
  one_interval (Some (length ts)) (ts ++ [mkTimer true ms tk false]).
Proof.
  intros [_ Hlive]. split.
  - intros id [= <-]. eexists. split; [apply list_lookup_middle; reflexivity|reflexivity].
  - intros i t Hi Ht. apply lookup_app_Some in Hi as [Hi|[Hge Hi]].
    + pose proof (Hlive i t Hi Ht). discriminate.
    + destruct (i - length ts)%nat as [|k] eqn:E; [|destruct k; discriminate].
      f_equal. lia.
Qed.

Lemma one_interval_timeouts (handle : option nat) (ts new : list Timer) :
  Forall (fun t => repeating t = false) new ->
  one_interval handle ts -> one_interval handle (ts ++ new).
Proof.
  intros Hnew [Hhandle Hlive]. split.
  - intros id Hid. destruct (Hhandle id Hid) as (t & Ht & Hrep).
    exists t. split; [apply lookup_app_l_Some; exact Ht|exact Hrep].
  - intros i t Hi Ht. apply lookup_app_Some in Hi as [Hi|[Hge Hi]].
    + exact (Hlive i t Hi Ht).
    + rewrite Forall_forall in Hnew.
      assert (Hrep : repeating t = false).
      { apply Hnew. eapply list_elem_of_lookup_2. exact Hi. }
      unfold live_interval in Ht. rewrite Hrep in Ht. discriminate.
Qed.

Lemma staggered_timeouts (stagger : N) (repos : JsMap.t (list ref)) : forall delay : N,
  Forall (fun t => repeating t = false) (staggered stagger repos delay).
Proof.
  induction repos as [|[repoKey plugins] repos IH]; intros delay; simpl;
    constructor; [reflexivity|apply IH].
Qed.

Lemma tasks_ok_cancel (h : list Plugin.t) (j : nat) (ts : list Timer) :
  tasks_ok h ts -> tasks_ok h (alter cancel j ts).
Proof.
  intros H i t repoKey plugins Hi Ht. destruct (Nat.eq_dec i j) as [->|Hne].
  - rewrite list_lookup_alter_eq in Hi. apply fmap_Some in Hi as (t0 & E & ->). exact (H j t0 repoKey plugins E Ht).
  - rewrite list_lookup_alter_ne in Hi by congruence. exact (H i t repoKey plugins Hi Ht).
Qed.

Lemma tasks_ok_app (h : list Plugin.t) (ts new : list Timer) :
  tasks_ok h ts -> tasks_ok h new -> tasks_ok h (ts ++ new).
Proof.
  intros H1 H2 i t repoKey plugins Hi Ht. apply lookup_app_Some in Hi as [Hi|[_ Hi]].
  - exact (H1 i t repoKey plugins Hi Ht).
  - exact (H2 _ t repoKey plugins Hi Ht).
Qed.

Lemma tasks_ok_heap (h h' : list Plugin.t) (ts : list Timer) :
  (forall r : ref, is_Some (h !! r) -> is_Some (h' !! r)) ->
  tasks_ok h ts -> tasks_ok h' ts.
Proof.
  intros Hh H i t repoKey plugins Hi Ht.
  eapply Forall_impl; [exact (H i t repoKey plugins Hi Ht)|]. exact Hh.
Qed.

Lemma tasks_ok_one (h : list Plugin.t) (rep : bool) (ms : N) (tk : Task) :
  (forall repoKey plugins, tk <> CheckRepositoryUpdates repoKey plugins) ->
  tasks_ok h [mkTimer rep ms tk false].
Proof.
  intros Htk i t repoKey plugins Hi Ht.
  destruct i as [|i]; [|destruct i; discriminate]. injection Hi as <-. simpl in Ht.
  destruct (Htk repoKey plugins Ht).
Qed.

Lemma tasks_ok_staggered (h : list Plugin.t) (stagger : N) (repos : JsMap.t (list ref)) :
  (forall (key : string) (members : list ref), In (key, members) repos ->
     Forall (fun r : ref => is_Some (h !! r)) members) ->
  forall delay : N, tasks_ok h (staggered stagger repos delay).
Proof.
  induction repos as [|[key members] repos IH]; intros Hmem delay i t repoKey plugins Hi Ht.
  - destruct i; discriminate.
  - destruct i as [|i]; simpl in Hi.
    + injection Hi as <-. simpl in Ht. injection Ht as <- <-.
      apply (Hmem key). left. reflexivity.
    + eapply (IH (fun k m Hin => Hmem k m (or_intror Hin))); eassumption.
Qed.

Lemma registry_ok_heap (h h' : list Plugin.t) (registered : JsMap.t ref) :
  (forall (r : ref) (p : Plugin.t), h !! r = Some p ->
     exists p', h' !! r = Some p' /\ Plugin.name p' = Plugin.name p) ->
  registry_ok h registered -> registry_ok h' registered.
Proof.
  intros Hh [Hkeys Hobj]. split; [exact Hkeys|].
  intros name plugin Hin. destruct (Hobj name plugin Hin) as (p & Hp & Hname).
  destruct (Hh plugin p Hp) as (p' & Hp' & Hname'). exists p'. split; congruence.
Qed.

Lemma registry_ok_register (h : list Plugin.t) (registered : JsMap.t ref) (p : Plugin.t) :
  registry_ok h registered ->
  registry_ok (h ++ [p]) (JsMap.set (Plugin.name p) (length h) registered).
Proof.
  intros [Hkeys Hobj]. split; [apply keys_set_NoDup; exact Hkeys|].
  intros name plugin Hin. apply In_set in Hin as [[-> ->]|Hin].
  - exists p. split; [apply list_lookup_middle; reflexivity|reflexivity].
  - destruct (Hobj name plugin Hin) as (q & Hq & Hname). exists q.
    split; [apply lookup_app_l_Some; exact Hq|exact Hname].
Qed.

End WfFacts.

Section Reachable.

Variable host : Host.
Implicit Types (w : World host).

#[local] Existing Instances M_ret M_bind.

Lemma registry_valid w :
  registry_wf w ->
  Forall (fun entry : string * ref => is_Some (heap w !! snd entry)) (registeredPlugins w).
Proof.
  intros [_ Hobj]. apply List.Forall_forall. intros [name r] Hin.
  destruct (Hobj name r Hin) as (p & Hp & _). exists p. exact Hp.
Qed.

(** What keeps the plugin objects, the registry and the timers keeps
    the state well formed. *)
Lemma state_wf_frame w w' :
  (forall (r : ref) (p : Plugin.t), heap w !! r = Some p ->
     exists p', heap w' !! r = Some p' /\ Plugin.name p' = Plugin.name p) ->
  registeredPlugins w' = registeredPlugins w ->
  timers w' = timers w ->
  updateInterval w' = updateInterval w ->
  (summary_wf (updateSummary w) -> summary_wf (updateSummary w')) ->
  state_wf w -> state_wf w'.
Proof.
  intros Hobj Hreg Htim Hint Hsum (Hr & Ht & Hs & Hk).
  unfold state_wf, registry_wf, timers_wf. rewrite Hreg, Htim, Hint.
  split; [eapply registry_ok_heap; eassumption|]. split; [exact Ht|].
  split; [auto|]. eapply tasks_ok_heap; [|exact Hk].
  intros r [p Hp]. destruct (Hobj r p Hp) as (p' & Hp' & _). exists p'. exact Hp'.
Qed.

Lemma startPeriodicChecks_wf w :
  state_wf w ->
  exists w' : World host,
    startPeriodicChecks host w = (inr tt, w') /\ state_wf w' /\
    isInitialized w' = isInitialized w.
Proof.
  intros (Hr & Ht & Hs & Hk).
  destruct w as [h rp us ui ii dn cf dk tm ck cs rq nt tx].
  unfold state_wf, registry_wf, timers_wf in *. simpl in *.
  unfold startPeriodicChecks. destruct ui as [id|]; js_flat;
    (eexists; split; [reflexivity|]; simpl; split; [|reflexivity]);
    (split; [exact Hr|]); (split; [|split; [exact Hs|]]).
  - apply (one_interval_arm (alter cancel id tm)).
    apply one_interval_cancel_handle. exact Ht.
  - apply tasks_ok_app; [apply tasks_ok_cancel; exact Hk|].
    apply tasks_ok_one. discriminate.
  - apply one_interval_arm. exact Ht.
  - apply tasks_ok_app; [exact Hk|]. apply tasks_ok_one. discriminate.
Qed.

Lemma initialize_wf w :
  state_wf w ->
  exists w' : World host, initialize host w = (inr tt, w') /\ state_wf w'.
Proof.
  intros Hw. unfold initialize. js_run.
  destruct (isInitialized w) eqn:Hinit; [exists w; split; [reflexivity|exact Hw]|].
  js_run.
  match goal with
  | |- context [startPeriodicChecks host ?w1] =>
      destruct (startPeriodicChecks_wf w1) as (w2 & -> & Hw2 & _)
  end.
  - destruct Hw as (Hr & Ht & Hs & Hk).
    destruct w as [h rp us ui ii dn cf dk tm ck cs rq nt tx].
    unfold state_wf, registry_wf, timers_wf in *. simpl in *.
    split; [exact Hr|]. split; [|split; [exact Hs|]].
    + apply one_interval_timeouts; [repeat constructor|exact Ht].
    + apply tasks_ok_app; [exact Hk|]. apply tasks_ok_one. discriminate.
  - js_run. eexists. split; [reflexivity|].
    eapply state_wf_frame; [| | | | |exact Hw2]; destruct w2; simpl; eauto.
Qed.

Lemma stop_wf w :
  state_wf w ->
  exists w' : World host,
    stop host w = (inr tt, w') /\ state_wf w' /\ isInitialized w' = false.
Proof.
  intros (Hr & Ht & Hs & Hk).
  destruct w as [h rp us ui ii dn cf dk tm ck cs rq nt tx].
  unfold state_wf, registry_wf, timers_wf in *. simpl in *.
  unfold stop. destruct ui as [id|]; js_flat;
    (eexists; split; [reflexivity|]; simpl; split; [|reflexivity]);
    (split; [exact Hr|]); (split; [|split; [exact Hs|]]).
  - apply one_interval_cancel_handle. exact Ht.
  - apply tasks_ok_cancel. exact Hk.
  - exact Ht.
  - exact Hk.
Qed.

Lemma restart_wf w :
  state_wf w ->
  exists w' : World host, restart host w = (inr tt, w') /\ state_wf w'.
Proof.
  intros Hw. destruct (stop_wf w Hw) as (w1 & Hstop & Hw1 & _).
  destruct (initialize_wf w1 Hw1) as (w2 & Hinit & Hw2).
  exists w2. unfold restart, mbind, M_bind. rewrite Hstop. split; assumption.
Qed.

Lemma registerPlugin_wf (pluginName currentVersion owner repo pluginFilePath : string)
    (logFunction : option Logger) w :
  state_wf w ->
  exists (r : ref) (w' : World host),
    registerPlugin host pluginName currentVersion owner repo pluginFilePath logFunction w
      = (inr r, w') /\ state_wf w'.
Proof.
  intros Hw. unfold registerPlugin. js_run.
  destruct (isInitialized w) eqn:Hinit; simpl.
  - js_run. do 2 eexists. split; [reflexivity|].
    destruct Hw as (Hr & Ht & Hs & Hk).
    destruct w as [h rp us ui ii dn cf dk tm ck cs rq nt tx].
    unfold state_wf, registry_wf, timers_wf in *. simpl in *.
    split; [apply (registry_ok_register h rp (Plugin.mk pluginName _ _ _ _ _ _ _ _ _ _ _));
            exact Hr|].
    split; [exact Ht|]. split; [exact Hs|].
    eapply tasks_ok_heap; [|exact Hk]. intros r [p Hp]. exists p.
    apply lookup_app_l_Some. exact Hp.
  - match goal with
    | |- context [initialize host ?w1] =>
        destruct (initialize_wf w1) as (w2 & -> & Hw2)
    end.
    + destruct Hw as (Hr & Ht & Hs & Hk).
      destruct w as [h rp us ui ii dn cf dk tm ck cs rq nt tx].
      unfold state_wf, registry_wf, timers_wf in *. simpl in *.
      split; [apply (registry_ok_register h rp (Plugin.mk pluginName _ _ _ _ _ _ _ _ _ _ _));
              exact Hr|].
      split; [exact Ht|]. split; [exact Hs|].
      eapply tasks_ok_heap; [|exact Hk]. intros r [p Hp]. exists p.
      apply lookup_app_l_Some. exact Hp.
    + js_run. do 2 eexists. split; [reflexivity|exact Hw2].
Qed.

Lemma checkAllUpdates_wf w :
  state_wf w ->
  exists w' : World host, checkAllUpdates host w = (inr tt, w') /\ state_wf w'.
Proof.
  intros Hw. unfold checkAllUpdates. js_run.
  destruct (negb (Config.enabled (config w))
            || Nat.eqb (JsMap.size (registeredPlugins w)) 0) eqn:Hskip;
    [exists w; split; [reflexivity|exact Hw]|].
  simpl.
  destruct (groupByRepo_groups (heap w) (registeredPlugins w))
    as (repos & Hgroup & _ & _ & Hmem & _);
    [apply registry_valid; apply Hw|].
  rewrite Hgroup. rewrite scheduleRepos_timers. simpl.
  eexists. split; [reflexivity|].
  destruct Hw as (Hr & Ht & Hs & Hk).
  destruct w as [h rp us ui ii dn cf dk tm ck cs rq nt tx].
  unfold state_wf, registry_wf, timers_wf in *. simpl in *.
  split; [exact Hr|]. split; [|split; [exact Hs|]].
  - apply one_interval_timeouts; [apply staggered_timeouts|exact Ht].
  - apply tasks_ok_app; [exact Hk|]. apply tasks_ok_staggered.
    intros key members Hin. apply List.Forall_forall. intros r Hr'.
    destruct (Hmem key members Hin) as [_ Hall].
    destruct (Hall r Hr') as (p & Hp & _). exists p. exact Hp.
Qed.

Lemma checkPluginUpdates_wf (pluginName : string) w :
  state_wf w ->
  exists w' : World host,
    checkPluginUpdates host pluginName w = (inr tt, w') /\ state_wf w'.
Proof.
  intros Hw. unfold checkPluginUpdates. js_run.
  destruct (JsMap.get pluginName (registeredPlugins w)) as [plugin|] eqn:Hget.
  - destruct Hw as (Hr & Hrest). pose proof Hr as [_ Hobj].
    destruct (Hobj pluginName plugin (get_In _ _ _ Hget)) as (p & Hp & _).
    destruct (checkPluginUpdate_frame host plugin None w p Hp)
      as (w' & p' & Hrun & Hheap & (Hname & _) & (Hreg & _ & Htim & Hint & _) & Hsum & _).
    exists w'. split; [exact Hrun|].
    eapply state_wf_frame; [| | | | |exact (conj Hr Hrest)]; try assumption.
    + intros r q Hq. rewrite Hheap. destruct (Nat.eq_dec r plugin) as [->|Hne].
      * exists p'. split; [eapply lookup_assigned; exact Hp|congruence].
      * exists q. rewrite list_lookup_insert_ne by congruence. auto.
    + intros Hs. destruct Hsum as [->| ->]; [exact Hs|apply addChecked_wf; exact Hs].
  - js_run. eexists. split; [reflexivity|].
    eapply state_wf_frame; [| | | | |exact Hw]; destruct w; simpl; eauto.
Qed.

Lemma disablePluginUpdates_wf (pluginName : string) w :
  state_wf w ->
  exists w' : World host,
    disablePluginUpdates host pluginName w = (inr tt, w') /\ state_wf w'.
Proof.
  intros Hw. unfold disablePluginUpdates. js_run.
  destruct (JsMap.get pluginName (registeredPlugins w)) as [plugin|] eqn:Hget;
    [|exists w; split; [reflexivity|exact Hw]].
  pose proof Hw as ([_ Hobj] & _).
  destruct (Hobj pluginName plugin (get_In _ _ _ Hget)) as (p & Hp & _).
  unfold assign. rewrite Hp. js_run. eexists. split; [reflexivity|].
  eapply state_wf_frame; [| | | | |exact Hw]; destruct w; simpl in *; eauto.
  intros r q Hq. destruct (Nat.eq_dec r plugin) as [->|Hne].
  - eexists. split; [eapply lookup_assigned; exact Hp|]. simpl. congruence.
  - exists q. rewrite list_lookup_insert_ne by congruence. auto.
Qed.

Lemma enablePluginUpdates_wf (pluginName : string) w :
  state_wf w ->
  exists w' : World host,
    enablePluginUpdates host pluginName w = (inr tt, w') /\ state_wf w'.
Proof.
  intros Hw. unfold enablePluginUpdates. js_run.
  destruct (JsMap.get pluginName (registeredPlugins w)) as [plugin|] eqn:Hget;
    [|exists w; split; [reflexivity|exact Hw]].
  pose proof Hw as ([_ Hobj] & _).
  destruct (Hobj pluginName plugin (get_In _ _ _ Hget)) as (p & Hp & _).
  unfold assign. rewrite Hp. js_run. eexists. split; [reflexivity|].
  eapply state_wf_frame; [| | | | |exact Hw]; destruct w; simpl in *; eauto.
  intros r q Hq. destruct (Nat.eq_dec r plugin) as [->|Hne].
  - eexists. split; [eapply lookup_assigned; exact Hp|]. simpl. congruence.
  - exists q. rewrite list_lookup_insert_ne by congruence. auto.
Qed.

(** [Array.from(values)] reads objects that are there. *)
Lemma readAll_total (plugins : list ref) w :
  Forall (fun r : ref => is_Some (heap w !! r)) plugins ->
  exists ps : list Plugin.t,
    readAll host plugins w = (inr ps, w) /\
    Forall2 (fun (r : ref) (p : Plugin.t) => heap w !! r = Some p) plugins ps.
Proof.
  induction plugins as [|r plugins IH]; intros Hvalid.
  - exists []. split; [reflexivity|constructor].
  - apply Forall_cons in Hvalid as [[p Hp] Hvalid].
    destruct (IH Hvalid) as (ps & Hrun & Hall).
    exists (p :: ps). simpl. unfold mbind, M_bind, read. rewrite Hp, Hrun.
    split; [reflexivity|constructor; assumption].
Qed.

Lemma registry_values_valid w :
  registry_wf w ->
  Forall (fun r : ref => is_Some (heap w !! r)) (JsMap.values (registeredPlugins w)).
Proof.
  intros Hr. apply registry_valid in Hr. unfold JsMap.values.
  induction Hr; simpl; constructor; assumption.
Qed.

Lemma getUpdateStatus_wf w :
  state_wf w ->
  exists status : Status.t, getUpdateStatus host w = (inr status, w).
Proof.
  intros (Hr & _). unfold getUpdateStatus. js_run.
  destruct (readAll_total _ w (registry_values_valid w Hr)) as (ps & -> & _).
  js_run. eexists. reflexivity.
Qed.

Lemma runTask_wf (tk : Task) w :
  state_wf w ->
  (forall (repoKey : string) (plugins : list ref),
     tk = CheckRepositoryUpdates repoKey plugins ->
     Forall (fun r : ref => is_Some (heap w !! r)) plugins) ->
  exists w' : World host, runTask host tk w = (inr tt, w') /\ state_wf w'.
Proof.
  intros Hw Htk. destruct tk as [| |repoKey plugins]; simpl.
  - unfold performInitialUpdateCheck. js_run.
    match goal with
    | |- context [checkAllUpdates host ?w2] =>
        destruct (checkAllUpdates_wf w2) as (w' & Hrun & Hw'); [|eauto]
    end.
    eapply state_wf_frame; [| | | | |exact Hw]; destruct w; simpl; eauto.
  - apply checkAllUpdates_wf. exact Hw.
  - destruct (checkRepositoryUpdates_frame host repoKey plugins w (Htk _ _ eq_refl))
      as (w' & Hrun & _ & Hobj & (Hreg & _ & Htim & Hint & _) & (Hsum & _) & _).
    exists w'. split; [exact Hrun|].
    eapply state_wf_frame; [| | | | |exact Hw]; try assumption.
    intros r p Hp. destruct (Hobj r p Hp) as (p' & Hp' & Hname & _). eauto.
Qed.

Lemma fire_wf (id : nat) w :
  state_wf w ->
  exists w' : World host, fire host id w = (inr tt, w') /\ state_wf w'.
Proof.
  intros Hw. unfold fire. js_run.
  destruct (timers w !! id) as [t|] eqn:Ht; [|exists w; split; [reflexivity|exact Hw]].
  destruct (cleared t) eqn:Hcleared; [exists w; split; [reflexivity|exact Hw]|].
  assert (Hvalid : forall (repoKey : string) (plugins : list ref),
            task t = CheckRepositoryUpdates repoKey plugins ->
            Forall (fun r : ref => is_Some (heap w !! r)) plugins).
  { intros repoKey plugins Htask. destruct Hw as (_ & _ & _ & Hk).
    exact (Hk id t repoKey plugins Ht Htask). }
  destruct (repeating t); simpl.
  - apply runTask_wf; assumption.
  - apply runTask_wf; [|destruct w; exact Hvalid].
    destruct Hw as (Hr & Htim & Hs & Hk).
    destruct w as [h rp us ui ii dn cf dk tm ck cs rq nt tx].
    unfold state_wf, registry_wf, timers_wf in *. simpl in *.
    split; [exact Hr|]. split; [apply (one_interval_cancel ui id tm); exact Htim|].
    split; [exact Hs|apply (tasks_ok_cancel h id tm); exact Hk].
Qed.

(** No call throws in a well-formed state, and the state stays well
    formed. *)
Lemma call_wf (c : Call) w :
  state_wf w ->
  exists w' : World host, call c w = (inr tt, w') /\ state_wf w'.
Proof.
  intros Hw. destruct c; simpl.
  - destruct (registerPlugin_wf pluginName currentVersion owner repo pluginFilePath
                logFunction w Hw) as (r & w' & Hrun & Hw').
    exists w'. unfold ignore. rewrite Hrun. auto.
  - apply initialize_wf. exact Hw.
  - unfold setDiscordNotifier. js_run. eexists. split; [reflexivity|].
    eapply state_wf_frame; [| | | | |exact Hw]; destruct w; simpl; eauto.
  - unfold configure. js_run. eexists. split; [reflexivity|].
    eapply state_wf_frame; [| | | | |exact Hw]; destruct w; simpl; eauto.
  - destruct (getUpdateStatus_wf w Hw) as (status & Hrun).
    exists w. unfold ignore. rewrite Hrun. auto.
  - unfold performInitialUpdateCheck. js_run.
    match goal with
    | |- context [checkAllUpdates host ?w2] =>
        destruct (checkAllUpdates_wf w2) as (w' & Hrun & Hw'); [|eauto]
    end.
    eapply state_wf_frame; [| | | | |exact Hw]; destruct w; simpl; eauto.
  - destruct (startPeriodicChecks_wf w Hw) as (w' & Hrun & Hw' & _). eauto.
  - apply checkAllUpdates_wf. exact Hw.
  - unfold addPluginChecked. js_run. eexists. split; [reflexivity|].
    eapply state_wf_frame; [| | | | |exact Hw]; destruct w; simpl; eauto.
    intros Hs. apply addChecked_wf. exact Hs.
  - unfold addPluginUpdated. js_run. eexists. split; [reflexivity|].
    eapply state_wf_frame; [| | | | |exact Hw]; destruct w; simpl; eauto.
    intros Hs. apply addUpdated_wf. exact Hs.
  - unfold resetUpdateSummary. js_run. eexists. split; [reflexivity|].
    eapply state_wf_frame; [| | | | |exact Hw]; destruct w; simpl; eauto.
    intros _. repeat split; constructor.
  - unfold printUpdateSummary, resetUpdateSummary. js_run.
    destruct (Nat.eqb (Summary.totalChecked (updateSummary w)) 0);
      [exists w; split; [reflexivity|exact Hw]|].
    destruct (Nat.ltb 0 (Summary.totalUpdated (updateSummary w))); js_run;
      (eexists; split; [reflexivity|]);
      (eapply state_wf_frame; [| | | | |exact Hw]; destruct w; simpl; eauto);
      intros _; repeat split; constructor.
  - js_run. eexists. split; [reflexivity|].
    eapply state_wf_frame; [| | | | |exact Hw]; destruct w; simpl; eauto.
  - apply checkPluginUpdates_wf. exact Hw.
  - unfold checkAllPlugins. js_run.
    match goal with
    | |- context [checkAllUpdates host ?w2] =>
        destruct (checkAllUpdates_wf w2) as (w' & Hrun & Hw'); [|eauto]
    end.
    eapply state_wf_frame; [| | | | |exact Hw]; destruct w; simpl; eauto.
  - exists w. split; [reflexivity|exact Hw].
  - exists w. split; [reflexivity|exact Hw].
  - apply disablePluginUpdates_wf. exact Hw.
  - apply enablePluginUpdates_wf. exact Hw.
  - destruct (stop_wf w Hw) as (w' & Hrun & Hw' & _). eauto.
  - apply restart_wf. exact Hw.
  - destruct (getLatestVersion_total host owner repo w) as (v & c & Hrun).
    unfold ignore. rewrite Hrun. eexists. split; [reflexivity|].
    eapply state_wf_frame; [| | | | |exact Hw]; destruct w; simpl; eauto.
  - apply fire_wf. exact Hw.
Qed.

Lemma initial_wf (d : Disk host) (now : Date) : state_wf (initial host d now).
Proof.
  unfold state_wf, registry_wf, timers_wf, initial. simpl.
  split; [split; [constructor|intros name plugin []]|].
  split; [split; [discriminate|intros i t Hi; destruct i; discriminate]|].
  split; [repeat split; constructor|].
  intros i t repoKey plugins Hi. destruct i; discriminate.
Qed.

Lemma run_wf (calls : list Call) : forall w, state_wf w -> state_wf (run calls w).
Proof.
  induction calls as [|c calls IH]; intros w Hw; simpl; [exact Hw|].
  apply IH. destruct (call_wf c w Hw) as (w' & -> & Hw'). exact Hw'.
Qed.

End Reachable.

Section CallFacts.

Variable host : Host.
Implicit Types (w : World host).

Lemma get_set_ne {V} (k other : string) (v : V) (m : JsMap.t V) :
  other <> k -> JsMap.get other (JsMap.set k v m) = JsMap.get other m.
Proof.
  intros Hne. induction m as [|[k' v'] m IH]; simpl.
  - destruct (String.eqb_spec k other); [congruence|reflexivity].
  - destruct (String.eqb_spec k' k) as [->|Hk]; simpl.
    + destruct (String.eqb_spec k other); [congruence|reflexivity].
    + destruct (String.eqb_spec k' other); [reflexivity|exact IH].
Qed.

(** [registerPlugin], step by step. *)
Lemma registerPlugin_effect (pluginName currentVersion owner repo pluginFilePath : string)
    (logFunction : option Logger) w :
  exists w' : World host,
    registerPlugin host pluginName currentVersion owner repo pluginFilePath logFunction w
      = (inr (length (heap w)), w') /\
    heap w' =
      (heap w ++
         [Plugin.mk pluginName currentVersion owner repo pluginFilePath
            (default ConsoleLog logFunction) false None None None None None])%list /\
    registeredPlugins w' = JsMap.set pluginName (length (heap w)) (registeredPlugins w) /\
    (requests w' = requests w /\ disk w' = disk w /\ updateSummary w' = updateSummary w /\
     config w' = config w /\ transactions w' = transactions w /\
     notified w' = notified w /\ discordNotifier w' = discordNotifier w) /\
    isInitialized w' = true /\
    if isInitialized w
    then timers w' = timers w /\ updateInterval w' = updateInterval w
    else
      timers w' =
        (match updateInterval w with
         | Some id => alter cancel id
         | None => fun ts => ts
         end
           (timers w ++
              [mkTimer false (Config.initialDelay (config w)) PerformInitialUpdateCheck
                 false])
         ++ [mkTimer true (Config.checkInterval (config w)) CheckAllUpdates false])%list /\
      updateInterval w' = Some (S (length (timers w))).
Proof.
  destruct w as [h rp us ui ii dn cf dk tm ck cs rq nt tx].
  unfold registerPlugin, initialize, startPeriodicChecks.
  destruct ii; [|destruct ui as [id|]]; js_flat;
    eexists; (split; [reflexivity|]); simpl;
    repeat split; try reflexivity.
  - rewrite length_alter, length_app. simpl. f_equal. lia.
  - rewrite length_app. simpl. f_equal. lia.
Qed.

Lemma stop_effect w :
  exists w' : World host,
    stop host w = (inr tt, w') /\
    updateInterval w' = None /\ isInitialized w' = false /\
    timers w' =
      match updateInterval w with
      | Some id => alter cancel id (timers w)
      | None => timers w
      end /\
    heap w' = heap w /\ registeredPlugins w' = registeredPlugins w /\
    config w' = config w /\ updateSummary w' = updateSummary w.
Proof.
  destruct w as [h rp us ui ii dn cf dk tm ck cs rq nt tx].
  unfold stop. destruct ui as [id|]; js_flat;
    eexists; (split; [reflexivity|]); simpl; repeat split; reflexivity.
Qed.

Lemma restart_arms w :
  exists w' : World host,
    restart host w = (inr tt, w') /\
    config w' = config w /\
    updateInterval w' = Some (S (length (timers w))) /\
    timers w' !! S (length (timers w)) =
      Some (mkTimer true (Config.checkInterval (config w)) CheckAllUpdates false).
Proof.
  destruct w as [h rp us ui ii dn cf dk tm ck cs rq nt tx].
  unfold restart, stop, initialize, startPeriodicChecks.
  destruct ui as [id|]; js_flat;
    eexists; (split; [reflexivity|]); simpl; (split; [reflexivity|]).
  - split; [rewrite length_app, length_alter; simpl; f_equal; lia|].
    apply list_lookup_middle. rewrite length_app, length_alter. simpl. lia.
  - split; [rewrite length_app; simpl; f_equal; lia|].
    apply list_lookup_middle. rewrite length_app. simpl. lia.
Qed.

End CallFacts.

(** X18: registering a plugin never throws, asks nothing of the network
    and the disk, and leaves the rest of the registry alone. The new
    object is added after the existing ones, which stay as they are, and
    every other name is looked up as before. Registering a name again
    does not touch the object registered first. *)
Theorem registerPlugin_leaves_others (host : Host) (w : World host)
    (pluginName currentVersion owner repo pluginFilePath : string)
    (logFunction : option Logger) :
  exists w' : World host,
    registerPlugin host pluginName currentVersion owner repo pluginFilePath logFunction w
      = (inr (length (heap w)), w') /\
    (forall (r : ref) (p : Plugin.t), heap w !! r = Some p -> heap w' !! r = Some p) /\
    length (heap w') = S (length (heap w)) /\
    (forall other : string, other <> pluginName ->
       JsMap.get other (registeredPlugins w') = JsMap.get other (registeredPlugins w)) /\
    (requests w' = requests w /\ disk w' = disk w /\ updateSummary w' = updateSummary w /\
     config w' = config w /\ transactions w' = transactions w /\
     notified w' = notified w /\ discordNotifier w' = discordNotifier w).
Proof.
  destruct (registerPlugin_effect host pluginName currentVersion owner repo pluginFilePath
              logFunction w) as (w' & Hrun & Hheap & Hreg & Hsame & _).
  exists w'. split; [exact Hrun|].
  split; [intros r p Hp; rewrite Hheap; apply lookup_app_l_Some; exact Hp|].
  split; [rewrite Hheap, length_app; simpl; lia|].
  split; [|exact Hsame].
  intros other Hne. rewrite Hreg. apply get_set_ne. exact Hne.
Qed.

(** X19: the manager is initialised by the first registration only.
    A registration always leaves the manager initialised. When it was
    initialised already, no timer is armed and the handle of the
    periodic timer is kept. When it was not, exactly two timers are
    armed after the existing ones: the timeout of the initial check at
    [initialDelay], then the periodic check at [checkInterval], whose
    handle is kept; a periodic timer whose handle was kept before is
    cancelled. *)
Theorem registerPlugin_initializes_once (host : Host) (w : World host)
    (pluginName currentVersion owner repo pluginFilePath : string)
    (logFunction : option Logger) :
  let w' := snd (registerPlugin host pluginName currentVersion owner repo pluginFilePath
                   logFunction w) in
  isInitialized w' = true /\
  if isInitialized w
  then timers w' = timers w /\ updateInterval w' = updateInterval w
  else
    timers w' =
      (match updateInterval w with
       | Some id => alter cancel id
       | None => fun ts => ts
       end
         (timers w ++
            [mkTimer false (Config.initialDelay (config w)) PerformInitialUpdateCheck
               false])
       ++ [mkTimer true (Config.checkInterval (config w)) CheckAllUpdates false])%list /\
    updateInterval w' = Some (S (length (timers w))).
Proof.
  destruct (registerPlugin_effect host pluginName currentVersion owner repo pluginFilePath
              logFunction w) as (w' & Hrun & _ & _ & _ & Hinit & Htimers).
  simpl. rewrite Hrun. simpl. split; assumption.
Qed.

(** X20: in every state the program reaches from its initial state, by
    calls of its static methods and firings of its timers, each run to
    its end, the registry is sound: no name is registered twice, and
    every name is bound to a plugin object that carries that name. *)
Theorem reachable_registry_wf (host : Host) (d : Disk host) (now : Date)
    (calls : list Call) :
  registry_wf (run calls (initial host d now)).
Proof. apply (run_wf host calls _ (initial_wf host d now)). Qed.

(** X21: in every state the program reaches, at most one periodic timer
    is live, and it is the one whose handle [updateInterval] keeps:
    starting, stopping and restarting never leave a second periodic
    check running. *)
Theorem reachable_one_interval (host : Host) (d : Disk host) (now : Date)
    (calls : list Call) :
  let w := run calls (initial host d now) in
  (forall id : nat, updateInterval w = Some id ->
     exists t, timers w !! id = Some t /\ repeating t = true) /\
  (forall (i j : nat) (t t' : Timer),
     timers w !! i = Some t -> live_interval t = true ->
     timers w !! j = Some t' -> live_interval t' = true ->
     i = j /\ updateInterval w = Some i).
Proof.
  intros w.
  destruct (run_wf host calls _ (initial_wf host d now)) as (_ & [Hhandle Hlive] & _).
  fold w in Hhandle, Hlive. split; [exact Hhandle|].
  intros i j t t' Hi Ht Hj Ht'.
  pose proof (Hlive i t Hi Ht) as Ei. pose proof (Hlive j t' Hj Ht') as Ej.
  split; [congruence|exact Ei].
Qed.

(** X22: in every state the program reaches, the cycle summary is
    consistent: no name is listed twice among the checked or among the
    updated plugins, and each counter is the length of its list. *)
Theorem reachable_summary_wf (host : Host) (d : Disk host) (now : Date)
    (calls : list Call) :
  summary_wf (updateSummary (run calls (initial host d now))).
Proof. apply (run_wf host calls _ (initial_wf host d now)). Qed.

(** X23: in every state the program reaches, no static method called by
    a client and no timer that fires throws, whatever the network and
    the disk answer: every error is caught inside. *)
Theorem reachable_calls_never_throw (host : Host) (d : Disk host) (now : Date)
    (calls : list Call) (c : Call) :
  exists w' : World host, call c (run calls (initial host d now)) = (inr tt, w').
Proof.
  destruct (call_wf host c _ (run_wf host calls _ (initial_wf host d now)))
    as (w' & Hrun & _).
  exists w'. exact Hrun.
Qed.

(** X24: [stop] cancels the periodic check and nothing else. In every
    state the program reaches, after [stop] no periodic timer is live
    and the manager is not initialised, but every timeout that was
    armed (the initial check, the checks of the repositories of a cycle
    under way) is still armed and will fire; the plugins stay
    registered. *)
Theorem stop_leaves_timeouts_armed (host : Host) (d : Disk host) (now : Date)
    (calls : list Call) :
  let w := run calls (initial host d now) in
  exists w' : World host,
    stop host w = (inr tt, w') /\
    updateInterval w' = None /\ isInitialized w' = false /\
    (forall (i : nat) (t : Timer), timers w' !! i = Some t -> live_interval t = false) /\
    (forall (i : nat) (t : Timer),
       timers w !! i = Some t -> repeating t = false -> timers w' !! i = Some t) /\
    heap w' = heap w /\ registeredPlugins w' = registeredPlugins w.
Proof.
  intros w.
  pose proof (run_wf host calls _ (initial_wf host d now)) as Hw. fold w in Hw.
  destruct (stop_effect host w) as (w' & Hrun & Hint & Hinit & Htimers & Hheap & Hreg & _).
  destruct (stop_wf host w Hw) as (w0 & Hrun0 & (_ & [_ Hlive] & _) & _).
  rewrite Hrun in Hrun0. injection Hrun0 as <-.
  exists w'. do 3 (split; [assumption|]).
  split; [|split; [|split; assumption]].
  - intros i t Hi. destruct (live_interval t) eqn:Ht; [|reflexivity].
    pose proof (Hlive i t Hi Ht). congruence.
  - intros i t Hi Hrep. rewrite Htimers.
    destruct (updateInterval w) as [id|] eqn:Hid; [|exact Hi].
    destruct Hw as (_ & [Hhandle _] & _).
    destruct (Hhandle id Hid) as (t0 & Ht0 & Hrep0).
    rewrite list_lookup_alter_ne; [exact Hi|]. intros ->. congruence.
Qed.

(** X25: a new configuration is applied to the timers by [restart], not
    by [configure]. [configure] leaves the timers as they are; after
    [configure(settings)] and then [restart], in every state the program
    reaches, exactly one periodic timer is live, it runs
    [checkAllUpdates], and its period is the [checkInterval] of the
    configuration merged with the settings. *)
Theorem restart_applies_configuration (host : Host) (d : Disk host) (now : Date)
    (calls : list Call) (settings : Config.settings) :
  let w := run calls (initial host d now) in
  let w1 := snd (configure host settings w) in
  let w2 := snd (restart host w1) in
  timers w1 = timers w /\
  exists (id : nat) (t : Timer),
    updateInterval w2 = Some id /\ timers w2 !! id = Some t /\
    live_interval t = true /\ task t = CheckAllUpdates /\
    delay t = Config.checkInterval (Config.merge (config w) settings) /\
    forall (j : nat) (t' : Timer),
      timers w2 !! j = Some t' -> live_interval t' = true -> j = id.
Proof.
  intros w w1 w2.
  pose proof (run_wf host (calls ++ [CallConfigure settings])
                _ (initial_wf host d now)) as Hw1.
  unfold run in Hw1. rewrite fold_left_app in Hw1. simpl in Hw1.
  fold (run calls (initial host d now)) in Hw1. fold w in Hw1. fold w1 in Hw1.
  split; [subst w1; destruct w; reflexivity|].
  destruct (restart_arms host w1) as (w' & Hrun & Hcfg & Hid & Ht).
  destruct (restart_wf host w1 Hw1) as (w0 & Hrun0 & (_ & [_ Hlive] & _)).
  rewrite Hrun in Hrun0. injection Hrun0 as <-.
  assert (E : w2 = w') by (subst w2; rewrite Hrun; reflexivity).
  rewrite E. eexists _, _. split; [exact Hid|]. split; [exact Ht|].
  split; [reflexivity|]. split; [reflexivity|]. split.
  - simpl. subst w1. destruct w. reflexivity.
  - intros j t' Hj Ht'. pose proof (Hlive j t' Hj Ht'). congruence.
Qed.

Section StatusFacts.

Lemma names_of_objects (h : list Plugin.t) (registered : JsMap.t ref) :
  forall ps : list Plugin.t,
    (forall (name : string) (r : ref), In (name, r) registered ->
       exists p, h !! r = Some p /\ Plugin.name p = name) ->
    Forall2 (fun (r : ref) (p : Plugin.t) => h !! r = Some p)
      (JsMap.values registered) ps ->
    map Plugin.name ps = JsMap.keys registered.
Proof.
  induction registered as [|[name r] registered IH]; intros ps Hobj Hall; simpl in *.
  - apply Forall2_nil_inv_l in Hall. subst ps. reflexivity.
  - apply Forall2_cons_inv_l in Hall as (p & ps' & Hp & Hall & ->). simpl.
    destruct (Hobj name r (or_introl eq_refl)) as (q & Hq & Hname).
    rewrite Hp in Hq. injection Hq as <-. rewrite Hname. f_equal.
    apply IH; [|exact Hall]. intros n r' Hin. apply Hobj. right. exact Hin.
Qed.

End StatusFacts.

(** X26: the status report is a snapshot that changes nothing. In every
    state the program reaches, [getUpdateStatus] returns without
    throwing and leaves the state as it is; it lists one entry per
    registered plugin, under the registered names and in the order of
    registration, gives their number as [totalPlugins], the time of the
    last cycle as [lastCheck], and as [updatesAvailable] the number of
    entries with [needsUpdate] set, which is at most [totalPlugins]. *)
Theorem getUpdateStatus_snapshot (host : Host) (d : Disk host) (now : Date)
    (calls : list Call) :
  let w := run calls (initial host d now) in
  exists status : Status.t,
    getUpdateStatus host w = (inr status, w) /\
    Status.totalPlugins status = JsMap.size (registeredPlugins w) /\
    map Status.name (Status.plugins status) = JsMap.keys (registeredPlugins w) /\
    Status.lastCheck status = Summary.lastCheck (updateSummary w) /\
    Status.updatesAvailable status =
      length (List.filter Status.needsUpdate (Status.plugins status)) /\
    (Status.updatesAvailable status <= Status.totalPlugins status)%nat.
Proof.
  intros w.
  pose proof (run_wf host calls _ (initial_wf host d now)) as Hw. fold w in Hw.
  destruct Hw as (Hr & _).
  destruct (readAll_total host _ w (registry_values_valid host w Hr)) as (ps & Hread & Hall).
  unfold getUpdateStatus. js_run. rewrite Hread. js_run.
  eexists. split; [reflexivity|]. simpl.
  assert (Hlen : length ps = JsMap.size (registeredPlugins w)).
  { apply Forall2_length in Hall. unfold JsMap.size, JsMap.values in *.
    rewrite length_map in Hall. symmetry. exact Hall. }
  split; [exact Hlen|].
  split; [rewrite map_map; simpl; apply (names_of_objects (heap w)); [apply Hr|exact Hall]|].
  split; [reflexivity|].
  split.
  - clear. induction ps as [|p ps IH]; simpl; [reflexivity|].
    destruct (Plugin.needsUpdate p); simpl; rewrite IH; reflexivity.
  - apply List.filter_length_le.
Qed.

(* ===================================================================== *)
(** * A cycle, from the grouping to the last timeout *)
(* ===================================================================== *)

Section CycleFacts.

Variable host : Host.
Implicit Types (w : World host).

Lemma run_cons (c : Call) (calls : list Call) w :
  run (c :: calls) w = run calls (snd (call c w)).
Proof. reflexivity. Qed.

(** The timeout of a repository fires: it runs the check of the
    repository, and does not fire again. *)
Lemma fire_repository (id : nat) (ms : N) (repoKey : string) (plugins : list ref) w :
  timers w !! id = Some (mkTimer false ms (CheckRepositoryUpdates repoKey plugins) false) ->
  fire host id w =
    checkRepositoryUpdates host repoKey plugins
      (with_timers host (alter cancel id (timers w)) w).
Proof.
  intros H. unfold fire. js_run. rewrite H. reflexivity.
Qed.

(** The timeouts of a cycle fire, in their order: each asks for the
    release of its repository, once. *)
Lemma fire_staggered (stagger : N) (repos : JsMap.t (list ref)) :
  forall (pre : list Timer) (ms : N) w,
    state_wf w ->
    timers w = (pre ++ staggered stagger repos ms)%list ->
    exists new : list string,
      requests (run (map TimerFires (seq (length pre) (length repos))) w)
        = (requests w ++ new)%list /\
      List.filter is_release_request new =
        map (fun group : string * list ref =>
               releaseUrl (interpolate (JsString.split "/" (fst group) !! 0%nat))
                 (interpolate (JsString.split "/" (fst group) !! 1%nat)))
          repos.
Proof.
  induction repos as [|[repoKey plugins] repos IH]; intros pre ms w Hw Htimers.
  - exists []. simpl. split; [symmetry; apply app_nil_r|reflexivity].
  - simpl in Htimers.
    assert (Hid : timers w !! length pre
                  = Some (mkTimer false ms (CheckRepositoryUpdates repoKey plugins) false))
      by (rewrite Htimers; apply list_lookup_middle; reflexivity).
    assert (Hvalid : Forall (fun r : ref => is_Some (heap w !! r)) plugins).
    { destruct Hw as (_ & _ & _ & Hk). exact (Hk _ _ repoKey plugins Hid eq_refl). }
    destruct (fire_wf host (length pre) w Hw) as (w' & Hfire & Hw').
    pose proof Hfire as Hrun. rewrite (fire_repository _ _ _ _ _ Hid) in Hrun.
    destruct (checkRepositoryUpdates_frame host repoKey plugins
                (with_timers host (alter cancel (length pre) (timers w)) w))
      as (w0 & Hrun0 & _ & _ & (_ & _ & Htim & _) & _ & extra & Hreq & Hextra & _);
      [destruct w; exact Hvalid|].
    rewrite Hrun in Hrun0. injection Hrun0 as <-.
    assert (Htimers' : timers w' =
              ((pre ++ [cancel (mkTimer false ms
                                  (CheckRepositoryUpdates repoKey plugins) false)])
               ++ staggered stagger repos (ms + stagger)%N)%list).
    { rewrite Htim. destruct w. simpl in *. rewrite Htimers.
      rewrite alter_app_r_alt by lia. rewrite Nat.sub_diag. simpl.
      rewrite <- app_assoc. reflexivity. }
    destruct (IH _ _ w' Hw' Htimers') as (new & Hnew & Hfilter).
    rewrite length_app in Hnew. simpl in Hnew.
    rewrite Nat.add_1_r in Hnew.
    change (seq (length pre) (length ((repoKey, plugins) :: repos)))
      with (length pre :: seq (S (length pre)) (length repos)).
    rewrite map_cons, run_cons.
    change (call (TimerFires (length pre)) w) with (fire host (length pre) w).
    rewrite Hfire. simpl snd.
    rewrite Hnew, Hreq. destruct w. simpl.
    eexists. rewrite <- app_assoc. split; [reflexivity|].
    simpl. rewrite release_is_release. rewrite List.filter_app.
    assert (Hnone : List.filter is_release_request extra = []).
    { clear -Hextra. induction Hextra as [|url extra Hurl _ IHe]; simpl;
        [reflexivity|rewrite Hurl; exact IHe]. }
    rewrite Hnone, Hfilter. reflexivity.
Qed.

End CycleFacts.

(** X27: a cycle asks each repository for its latest release once. In
    every state the program reaches with updates enabled and a plugin
    registered, after [checkAllUpdates] and the firing of the timeouts it
    has armed, the requests for a release made since are those of the
    groups of the cycle, one per group and in their order, however many
    plugins a repository has; all other requests made are requests for
    raw files. *)
Theorem cycle_asks_each_repository_once (host : Host) (d : Disk host) (now : Date)
    (calls : list Call) :
  let w := run calls (initial host d now) in
  Config.enabled (config w) = true ->
  registeredPlugins w <> [] ->
  exists (repos : JsMap.t (list ref)) (new : list string),
    groupByRepo (heap w) [] (registeredPlugins w) = inr repos /\
    requests
      (run (CallCheckAllUpdates
              :: map TimerFires (seq (length (timers w)) (length repos))) w)
      = (requests w ++ new)%list /\
    List.filter is_release_request new =
      map (fun group : string * list ref =>
             releaseUrl (interpolate (JsString.split "/" (fst group) !! 0%nat))
               (interpolate (JsString.split "/" (fst group) !! 1%nat)))
        repos.
Proof.
  intros w Hen Hreg.
  pose proof (run_wf host calls _ (initial_wf host d now)) as Hw. fold w in Hw.
  destruct (checkAllUpdates_wf host w Hw) as (w1 & Hrun1 & Hw1).
  assert (Hvalid : Forall (fun entry : string * ref => is_Some (heap w !! snd entry))
                     (registeredPlugins w))
    by (apply registry_valid; apply Hw).
  destruct (groupByRepo_groups (heap w) (registeredPlugins w) Hvalid)
    as (repos & Hgroup & _).
  assert (Hsize : Nat.eqb (length (registeredPlugins w)) 0 = false)
    by (destruct (registeredPlugins w); [congruence|reflexivity]).
  assert (Hshape : timers w1 =
            (timers w ++ staggered (Config.staggerDelay (config w)) repos 0%N)%list
            /\ requests w1 = requests w).
  { revert Hrun1. unfold checkAllUpdates. js_run. rewrite Hen. simpl.
    unfold JsMap.size. rewrite Hsize. simpl. rewrite Hgroup.
    rewrite scheduleRepos_timers. simpl. intros [= <-]. destruct w. simpl. auto. }
  destruct Hshape as [Htimers Hreq].
  destruct (fire_staggered host _ repos (timers w) 0%N w1 Hw1 Htimers)
    as (new & Hnew & Hfilter).
  exists repos, new. split; [exact Hgroup|]. split; [|exact Hfilter].
  rewrite run_cons.
  change (call CallCheckAllUpdates w) with (checkAllUpdates host w).
  rewrite Hrun1. simpl snd.
  rewrite Hnew, Hreq. reflexivity.
Qed.

Lemma cycle_asks_each_repository_once_witness :
  let h := Demo.host Demo.network in
  let w := run [CallRegisterPlugin "A" "v1.0.0" "owner" "repo" Demo.pluginPath None;
                CallRegisterPlugin "B" "v1.0.0" "owner" "repo"
                  "/srv/squadjs/plugins/b.js" None]
             (initial h Demo.disk0 100%nat) in
  exists new : list string,
    requests (run (CallCheckAllUpdates
                     :: map TimerFires (seq (length (timers w)) 1)) w)
      = (requests w ++ new)%list /\
    List.filter is_release_request new =
      ["https://api.github.com/repos/owner/repo/releases/latest"].
Proof.
  intros h w.
  assert (Hen : Config.enabled (config w) = true) by (vm_compute; reflexivity).
  assert (Hreg : registeredPlugins w <> []) by (vm_compute; discriminate).
  destruct (cycle_asks_each_repository_once h Demo.disk0 100%nat
              [CallRegisterPlugin "A" "v1.0.0" "owner" "repo" Demo.pluginPath None;
               CallRegisterPlugin "B" "v1.0.0" "owner" "repo"
                 "/srv/squadjs/plugins/b.js" None] Hen Hreg)
    as (repos & new & Hgroup & Hreq & Hfilter).
  assert (Hrepos : groupByRepo (heap w) [] (registeredPlugins w)
                   = inr [("owner/repo", [0%nat; 1%nat])])
    by (vm_compute; reflexivity).
  fold w in Hgroup. rewrite Hrepos in Hgroup. injection Hgroup as <-.
  exists new. split; [exact Hreq|]. rewrite Hfilter. reflexivity.
Defined.

(* ===================================================================== *)
(** * The summary over the cycles *)
(* ===================================================================== *)

Section SummaryFacts.

Variable host : Host.
Implicit Types (w : World host).

Lemma initialize_summary w :
  updateSummary (snd (initialize host w)) = updateSummary w.
Proof.
  destruct w as [h rp us ui ii dn cf dk tm ck cs rq nt tx].
  unfold initialize, startPeriodicChecks.
  destruct ii; [|destruct ui as [id|]]; js_flat; reflexivity.
Qed.

Lemma startPeriodicChecks_summary w :
  updateSummary (snd (startPeriodicChecks host w)) = updateSummary w.
Proof.
  destruct w as [h rp us ui ii dn cf dk tm ck cs rq nt tx].
  unfold startPeriodicChecks. destruct ui as [id|]; js_flat; reflexivity.
Qed.

Lemma restart_summary w :
  updateSummary (snd (restart host w)) = updateSummary w.
Proof.
  destruct w as [h rp us ui ii dn cf dk tm ck cs rq nt tx].
  unfold restart, stop, initialize, startPeriodicChecks.
  destruct ui as [id|]; js_flat; reflexivity.
Qed.

Lemma checkAllUpdates_checked w :
  Summary.pluginsChecked (updateSummary (snd (checkAllUpdates host w)))
  = Summary.pluginsChecked (updateSummary w).
Proof.
  unfold checkAllUpdates. js_run.
  destruct (negb (Config.enabled (config w))
            || Nat.eqb (JsMap.size (registeredPlugins w)) 0); [reflexivity|].
  simpl. destruct (groupByRepo (heap w) [] (registeredPlugins w)) as [e|repos]; simpl.
  - destruct w. reflexivity.
  - rewrite scheduleRepos_timers. simpl. destruct w. reflexivity.
Qed.

Lemma runTask_keeps_checked (tk : Task) w (name : string) :
  (forall (repoKey : string) (plugins : list ref),
     tk = CheckRepositoryUpdates repoKey plugins ->
     Forall (fun r : ref => is_Some (heap w !! r)) plugins) ->
  In name (Summary.pluginsChecked (updateSummary w)) ->
  In name (Summary.pluginsChecked (updateSummary (snd (runTask host tk w)))).
Proof.
  intros Htk Hin. destruct tk as [| |repoKey plugins]; simpl.
  - unfold performInitialUpdateCheck. js_run.
    match goal with
    | |- context [checkAllUpdates host ?w1] =>
        pose proof (checkAllUpdates_checked w1) as E;
        destruct (checkAllUpdates host w1) as [[e|[]] w2]
    end; simpl in *; rewrite E; destruct w; exact Hin.
  - rewrite checkAllUpdates_checked. exact Hin.
  - destruct (checkRepositoryUpdates_frame host repoKey plugins w (Htk _ _ eq_refl))
      as (w' & -> & _ & _ & _ & (_ & Hkeep) & _).
    apply Hkeep. exact Hin.
Qed.

(** No call but the report and the reset takes a name off the list of
    the plugins checked. *)
Lemma call_keeps_checked (c : Call) w (name : string) :
  state_wf w ->
  c <> CallPrintUpdateSummary -> c <> CallResetUpdateSummary ->
  In name (Summary.pluginsChecked (updateSummary w)) ->
  In name (Summary.pluginsChecked (updateSummary (snd (call c w)))).
Proof.
  intros Hw Hprint Hreset Hin. destruct c; simpl; try (exfalso; congruence).
  - destruct (registerPlugin_effect host pluginName currentVersion owner repo
                pluginFilePath logFunction w)
      as (w' & Hrun & _ & _ & (_ & _ & Hsum & _) & _).
    unfold ignore. rewrite Hrun. simpl. rewrite Hsum. exact Hin.
  - rewrite initialize_summary. exact Hin.
  - destruct w. exact Hin.
  - destruct w. exact Hin.
  - destruct (getUpdateStatus_wf host w Hw) as (status & Hrun).
    unfold ignore. rewrite Hrun. exact Hin.
  - apply (runTask_keeps_checked PerformInitialUpdateCheck); [discriminate|exact Hin].
  - rewrite startPeriodicChecks_summary. exact Hin.
  - rewrite checkAllUpdates_checked. exact Hin.
  - destruct w. simpl. apply addChecked_keeps. exact Hin.
  - destruct w as [h rp us ui ii dn cf dk tm ck cs rq nt tx]. simpl. unfold addUpdated.
    destruct (negb (includes (Summary.pluginsUpdated us) pluginName)); exact Hin.
  - destruct w. exact Hin.
  - unfold checkPluginUpdates. js_run.
    destruct (JsMap.get pluginName (registeredPlugins w)) as [plugin|] eqn:Hget;
      [|destruct w; exact Hin].
    destruct Hw as ([_ Hobj] & _).
    destruct (Hobj pluginName plugin (get_In _ _ _ Hget)) as (p & Hp & _).
    destruct (checkPluginUpdate_frame host plugin None w p Hp)
      as (w' & p' & -> & _ & _ & _ & Hsum & _).
    simpl. destruct Hsum as [->| ->]; [exact Hin|apply addChecked_keeps; exact Hin].
  - unfold checkAllPlugins. js_run.
    match goal with
    | |- context [checkAllUpdates host ?w1] =>
        pose proof (checkAllUpdates_checked w1) as E;
        destruct (checkAllUpdates host w1) as [[e|[]] w2]
    end; simpl in *; rewrite E; destruct w; exact Hin.
  - exact Hin.
  - exact Hin.
  - destruct (disablePluginUpdates_wf host pluginName w Hw) as (w' & Hrun & _).
    revert Hrun. unfold disablePluginUpdates. js_run.
    destruct (JsMap.get pluginName (registeredPlugins w)) as [plugin|];
      [|intros _; exact Hin].
    unfold assign. destruct (heap w !! plugin); [|discriminate].
    js_run. intros _. destruct w. exact Hin.
  - destruct (enablePluginUpdates_wf host pluginName w Hw) as (w' & Hrun & _).
    revert Hrun. unfold enablePluginUpdates. js_run.
    destruct (JsMap.get pluginName (registeredPlugins w)) as [plugin|];
      [|intros _; exact Hin].
    unfold assign. destruct (heap w !! plugin); [|discriminate].
    js_run. intros _. destruct w. exact Hin.
  - destruct (stop_effect host w) as (w' & -> & _ & _ & _ & _ & _ & _ & Hsum).
    simpl. rewrite Hsum. exact Hin.
  - rewrite restart_summary. exact Hin.
  - destruct (getLatestVersion_total host owner repo w) as (v & c & Hrun).
    unfold ignore. rewrite Hrun. destruct w. exact Hin.
  - unfold fire. js_run.
    destruct (timers w !! id) as [t|] eqn:Ht; [|exact Hin].
    destruct (cleared t); [exact Hin|].
    assert (Hvalid : forall (repoKey : string) (plugins : list ref),
              task t = CheckRepositoryUpdates repoKey plugins ->
              Forall (fun r : ref => is_Some (heap w !! r)) plugins).
    { intros repoKey plugins Htask. destruct Hw as (_ & _ & _ & Hk).
      exact (Hk id t repoKey plugins Ht Htask). }
    destruct (repeating t); simpl.
    + apply runTask_keeps_checked; assumption.
    + apply runTask_keeps_checked; destruct w; assumption.
Qed.

Lemma run_keeps_checked (calls : list Call) (name : string) :
  Forall (fun c => c <> CallPrintUpdateSummary /\ c <> CallResetUpdateSummary) calls ->
  forall w,
    state_wf w ->
    In name (Summary.pluginsChecked (updateSummary w)) ->
    In name (Summary.pluginsChecked (updateSummary (run calls w))).
Proof.
  induction 1 as [|c calls [Hprint Hreset] _ IH]; intros w Hw Hin; [exact Hin|].
  rewrite run_cons. destruct (call_wf host c w Hw) as (w' & Hrun & Hw').
  apply IH.
  - rewrite Hrun. exact Hw'.
  - apply call_keeps_checked; assumption.
Qed.

End SummaryFacts.

(** X28: the summary is reported and reset by a direct call of
    [printUpdateSummary] or [resetUpdateSummary] only. No other method
    and no timer does either: in every state the program reaches, a
    plugin that is listed as checked stays listed over any further
    calls, cycles and firings of timers among which there is no such
    direct call. *)
Theorem summary_is_kept_over_cycles (host : Host) (d : Disk host) (now : Date)
    (calls further : list Call) (name : string) :
  let w := run calls (initial host d now) in
  Forall (fun c => c <> CallPrintUpdateSummary /\ c <> CallResetUpdateSummary) further ->
  In name (Summary.pluginsChecked (updateSummary w)) ->
  In name (Summary.pluginsChecked (updateSummary (run further w))).
Proof.
  intros w Hfurther Hin.
  apply (run_keeps_checked host further name Hfurther w); [|exact Hin].
  apply (run_wf host calls _ (initial_wf host d now)).
Qed.

Lemma summary_is_kept_over_cycles_witness :
  let h := Demo.host Demo.network in
  let w := run [CallRegisterPlugin "A" "v1.0.0" "owner" "repo" Demo.pluginPath None;
                CallCheckPluginUpdates "A"]
             (initial h Demo.disk0 100%nat) in
  In "A" (Summary.pluginsChecked
            (updateSummary (run [CallCheckAllUpdates; TimerFires 2%nat; CallStop] w))).
Proof.
  intros h w.
  assert (Hin : In "A" (Summary.pluginsChecked (updateSummary w)))
    by (vm_compute; left; reflexivity).
  apply (summary_is_kept_over_cycles h Demo.disk0 100%nat
           [CallRegisterPlugin "A" "v1.0.0" "owner" "repo" Demo.pluginPath None;
            CallCheckPluginUpdates "A"]
           [CallCheckAllUpdates; TimerFires 2%nat; CallStop] "A").
  - repeat constructor; discriminate.
  - exact Hin.
Defined.
